(** * csv_processor: filter, aggregation and ordering of CSV rows

    A shallow embedding of [csv_processor/core.py] (the variant whose reader
    converts numeric cells to [float] at load time) and of
    [csv_processor/main.py] (the variant that keeps every cell as [str]),
    followed by the properties of the processing pipeline.

    Conventions of the embedding:
    - a Python [float] is a binary64 number, i.e. a primitive [float];
    - a Python [str] is a [string]; each [ascii] stands for one code point
      below 256, so comparison, reversal and stripping are per code point;
    - a [dict] is a [gmap] with [string] keys;
    - a raised exception is a [Raise e] result; [try]/[except] is a [match]. *)

From Stdlib Require Import ZArith String Ascii List Floats DecimalString.
From Stdlib Require Import Sorted Permutation.
From stdpp Require Import base option list gmap strings sorting.

Local Open Scope string_scope.
Local Open Scope list_scope.

(** ** Exceptions *)

(** The kinds of message with which the two files raise [ValueError], plus
    the [ValueError]s of the builtins [float], [min]/[max] and tuple
    unpacking. A constructor stands for the kind of the message and not for
    its text: the condition, operation, direction, column or operator that a
    message quotes is not recorded, and core.py words the unknown-operation
    and the unknown-direction message at greater length than main.py.
    [MalformedSpec] is the message of the function that raises it (one text
    for an aggregation spec, another for an order spec, each the same in both
    files). So two runs that raise the same [value_error] raise messages of
    one kind; where a statement below equates the results of two runs, the
    exceptions it covers have one and the same text in both. *)
Inductive value_error :=
  | MalformedCondition    (* "Некорректное условие: ..." *)
  | MalformedSpec         (* "Условие ... должно быть в формате 'column=...'" *)
  | UnknownOperation      (* "Неизвестная операция агрегации: ..." *)
  | UnknownDirection      (* "Неизвестный порядок сортировки: ..." *)
  | NonNumericColumn      (* "Нельзя агрегировать нечисловую колонку: ..." *)
  | UnsupportedOperator   (* "Оператор ... не поддерживается для текста" *)
  | FloatConversion       (* float(s): could not convert string to float *)
  | EmptySequence         (* min()/max() of an empty sequence *)
  | Unpack.               (* not enough values to unpack *)

Inductive error :=
  | ValueError (why : value_error)
  | KeyError (key : string)
  | TypeError
  | IndexError
  | UnboundLocalError
  | ZeroDivisionError.

Inductive result (A : Type) :=
  | Ok (a : A)
  | Raise (e : error).
Arguments Ok {A} a.
Arguments Raise {A} e.

#[global] Instance result_ret : MRet result := @Ok.
#[global] Instance result_bind : MBind result := λ A B f m,
  match m with
  | Ok a => f a
  | Raise e => Raise e
  end.
#[global] Instance result_fmap : FMap result := λ A B f m,
  match m with
  | Ok a => Ok (f a)
  | Raise e => Raise e
  end.

(** A loop whose body may raise: the first exception ends it. *)
Fixpoint for_each {A S : Type} (body : S → A → result S) (l : list A) (s : S)
  : result S :=
  match l with
  | [] => Ok s
  | x :: l' => s' ← body s x; for_each body l' s'
  end.

(** A list comprehension whose element expression may raise. *)
Fixpoint comprehension {A B : Type} (f : A → result B) (l : list A)
  : result (list B) :=
  match l with
  | [] => Ok []
  | x :: l' => y ← f x; ys ← comprehension f l'; Ok (y :: ys)
  end.

(** [d[k]] on a dict. *)
Definition getitem {V : Type} (d : gmap string V) (k : string) : result V :=
  match d !! k with
  | Some v => Ok v
  | None => Raise (KeyError k)
  end.

(** ** Strings *)

(** [str.isspace] on one code point below 256. *)
Definition isspace (c : ascii) : bool :=
  let n := N_of_ascii c in
  ((9 <=? n) && (n <=? 13) || (28 <=? n) && (n <=? 32)
   || (n =? 133) || (n =? 160))%N.

Fixpoint lstrip (s : string) : string :=
  match s with
  | "" => ""
  | String c s' => if isspace c then lstrip s' else s
  end.

Definition rstrip (s : string) : string := String.rev (lstrip (String.rev s)).

(** [s.strip()] *)
Definition strip (s : string) : string := rstrip (lstrip s).

(** [sub in s] *)
Fixpoint contains (sub s : string) : bool :=
  String.prefix sub s ||
  match s with
  | "" => false
  | String _ s' => contains sub s'
  end.

Fixpoint drop_chars (n : nat) (s : string) : string :=
  match n, s with
  | S n', String _ s' => drop_chars n' s'
  | _, _ => s
  end.

(** [s.split(sep, maxsplit=1)] for a non-empty [sep]: the text before and
    after the leftmost occurrence of [sep]; [None] stands for the
    one-element list returned when [sep] does not occur. *)
Fixpoint split_once (sep s : string) : option (string * string) :=
  if String.prefix sep s then Some ("", drop_chars (String.length sep) s)
  else match s with
       | "" => None
       | String c s' =>
           match split_once sep s' with
           | Some (l, r) => Some (String c l, r)
           | None => None
           end
       end.

(** [a, b = s.split(sep, maxsplit=1)] *)
Definition unpack_split (sep s : string) : result (string * string) :=
  match split_once sep s with
  | Some p => Ok p
  | None => Raise (ValueError Unpack)
  end.

(** ** Condition parser (the same text in core.py and main.py) *)

Definition operators : list string := [">="; "<="; "="; ">"; "<"].

Fixpoint parse_condition_from (ops : list string) (condition : string)
  : result (string * string * string) :=
  match ops with
  | [] => Raise (ValueError MalformedCondition)
  | op :: ops' =>
      if contains op condition then
        '(column, value) ← unpack_split op condition;
        Ok (strip column, op, strip value)
      else parse_condition_from ops' condition
  end.

Definition parse_condition (condition : string)
  : result (string * string * string) :=
  parse_condition_from operators condition.

(** ** Values and builtins *)

(** A cell of the typed reader, and a sort key: [float] or [str]. The
    reader of core.py stores [float(value)] where that succeeds and the
    stripped text otherwise. *)
Inductive pyval :=
  | Num (x : float)
  | Str (s : string).

(** The two builtins whose results depend on the decimal syntax of floats:
    [float(s)] on a [str] ([None] when it raises [ValueError]) and [str(x)]
    on a [float]. The pipeline is defined for any such pair. *)
Class Builtins := {
  py_float : string → option float;
  py_str : float → string;
}.

Section builtins.
Context `{Builtins}.

(** [float(s)] *)
Definition float_of (s : string) : result float :=
  match py_float s with
  | Some x => Ok x
  | None => Raise (ValueError FloatConversion)
  end.

(** [str(v)] *)
Definition str (v : pyval) : string :=
  match v with
  | Num x => py_str x
  | Str s => s
  end.
End builtins.

(** [a < b]; [None] is the [TypeError] of comparing a [float] with a [str]. *)
Definition py_lt (a b : pyval) : option bool :=
  match a, b with
  | Num x, Num y => Some (PrimFloat.ltb x y)
  | Str s, Str t => Some (String.ltb s t)
  | _, _ => None
  end.

(** [a == b] on keys. *)
Definition py_eq (a b : pyval) : bool :=
  match a, b with
  | Num x, Num y => PrimFloat.eqb x y
  | Str s, Str t => String.eqb s t
  | _, _ => false
  end.

Definition float_lt (x y : float) : option bool := Some (PrimFloat.ltb x y).

(** ** [sorted]

    [sorted(data, key=f)] computes every key first, in input order, and then
    sorts the decorated rows by [list.sort] with [<] on the keys; a
    comparison that raises makes the whole sort raise.

    [listsort] is [list.sort] of CPython 3.11 (Objects/listobject.c) on a
    list of fewer than 64 elements, comparison by comparison: a list of
    fewer than two elements is returned as it is; otherwise [count_run]
    takes the run at the start of the list, a strictly descending run is
    reversed, and [binarysort] inserts the remaining elements one by one, each
    at the place a binary search finds. Below 64 elements [minrun] is the
    length of the list, so that no merge takes place.

    A list of 64 elements or more CPython cuts into runs of 32 to 64
    elements, sorted in this way, and merges them. For such a list
    [listsort] still is what [sorted] returns whenever [<] orders the keys up
    to equality (no key is NaN): the stable ascending arrangement is unique
    ([stable_sorted_unique]). With a NaN key [<] does not order the keys, and
    the list returned depends on the comparisons made; it need not keep rows
    of equal keys in their order ([nan_keys_reorder_equal_rows]). The
    statements below about the order of the output take keys without NaN. *)
Section sorted.
Context {K A : Type} (lt : K → K → option bool).

(** The loops of [count_run]: the number of elements of [l] that continue
    the run after an element of key [prev]. A descending run goes on while
    [x < prev], an ascending run while not [x < prev]. *)
Fixpoint run_length (descending : bool) (prev : K) (l : list (K * A))
  : option nat :=
  match l with
  | [] => Some 0%nat
  | x :: l' =>
      b ← lt x.1 prev;
      if Bool.eqb b descending
      then n ← run_length descending x.1 l'; Some (S n)
      else Some 0%nat
  end.

(** [count_run]: the length of the run at the start of [l], and whether the
    run is strictly descending. *)
Definition count_run (l : list (K * A)) : option (nat * bool) :=
  match l with
  | [] => Some (0%nat, false)
  | [x] => Some (1%nat, false)
  | x0 :: x1 :: l' =>
      descending ← lt x1.1 x0.1;
      n ← run_length descending x1.1 l';
      Some (S (S n), descending)
  end.

(** The search loop of [binarysort] for the place of [pivot] in [a]:
    [p = l + ((r - l) >> 1); IFLT(pivot, *p) r = p; else l = p + 1;] while
    [l < r]. The distance [r - l] at least halves in every turn, so [r - l]
    turns are enough and further fuel changes nothing ([bisect_fuel]); the
    index [p] lies below [r], inside [a]. *)
Fixpoint bisect (fuel : nat) (pivot : K) (a : list (K * A)) (l r : nat)
  : option nat :=
  match fuel with
  | O => Some l
  | S fuel' =>
      if (l <? r)%nat then
        let p := (l + (r - l) / 2)%nat in
        match a !! p with
        | Some e =>
            b ← lt pivot e.1;
            if b : bool then bisect fuel' pivot a l p
            else bisect fuel' pivot a (S p) r
        | None => Some l
        end
      else Some l
  end.

(** [binarysort]: [run] is sorted; every element of [rest] in turn is put
    into it at the place found by [bisect]. *)
Fixpoint binarysort (run rest : list (K * A)) : option (list (K * A)) :=
  match rest with
  | [] => Some run
  | pivot :: rest' =>
      i ← bisect (length run) pivot.1 run 0 (length run);
      binarysort (take i run ++ pivot :: drop i run) rest'
  end.

Definition listsort (l : list (K * A)) : option (list (K * A)) :=
  if (length l <? 2)%nat then Some l
  else
    '(n, descending) ← count_run l;
    let run := take n l in
    binarysort (if descending : bool then reverse run else run) (drop n l).

Definition py_sorted (key : A → result K) (data : list A)
  : result (list A) :=
  keys ← comprehension key data;
  match listsort (zip keys data) with
  | Some s => Ok (s.*2)
  | None => Raise TypeError
  end.
End sorted.

(** ** Aggregation functions (the lambdas of both AGGREGATIONS tables) *)

(** The [value] entry of an aggregation result: [None], an [int] or a
    [float]. *)
Inductive agg_value :=
  | VNone
  | VInt (n : Z)
  | VFloat (x : float).

(** [sum(x)] of floats: the additions from the left, starting at [0]
    (CPython 3.12 and later compensate the rounding of the partial sums; no
    statement below depends on the digits of a sum). *)
Definition py_sum (x : list float) : float := fold_left PrimFloat.add x 0%float.

(** [len(x)] as the divisor of a float division (a length is below
    [2^63]). *)
Definition float_of_len (x : list float) : float :=
  PrimFloat.of_uint63 (Uint63.of_Z (Z.of_nat (length x))).

(** [lambda x: sum(x) / len(x)] *)
Definition agg_avg (x : list float) : result agg_value :=
  match x with
  | [] => Raise ZeroDivisionError
  | _ => Ok (VFloat (py_sum x / float_of_len x)%float)
  end.

(** [min] *)
Definition agg_min (x : list float) : result agg_value :=
  match x with
  | [] => Raise (ValueError EmptySequence)
  | x0 :: x' =>
      Ok (VFloat (fold_left (λ best item,
                    if PrimFloat.ltb item best then item else best) x' x0))
  end.

(** [max] *)
Definition agg_max (x : list float) : result agg_value :=
  match x with
  | [] => Raise (ValueError EmptySequence)
  | x0 :: x' =>
      Ok (VFloat (fold_left (λ best item,
                    if PrimFloat.ltb best item then item else best) x' x0))
  end.

(** [lambda x: sorted(x)[len(x) // 2] if x else 0] *)
Definition agg_median (x : list float) : result agg_value :=
  match x with
  | [] => Ok (VInt 0)
  | _ =>
      s ← py_sorted float_lt Ok x;
      match s !! (length x / 2)%nat with
      | Some m => Ok (VFloat m)
      | None => Raise IndexError
      end
  end.

(** [sum] *)
Definition agg_sum (x : list float) : result agg_value :=
  match x with
  | [] => Ok (VInt 0)
  | _ => Ok (VFloat (py_sum x))
  end.

(** [len] *)
Definition agg_count (x : list float) : result agg_value :=
  Ok (VInt (Z.of_nat (length x))).

(** One record [{'operation': ..., 'column': ..., 'value': ...}]. *)
Record agg_record := AggRecord {
  r_operation : string;
  r_column : string;
  r_value : agg_value;
}.

(** The two transforms of both SORT_ORDERS tables: the identity, and
    [lambda x: -x if isinstance(x, (int, float)) else str(x)[::-1]]. *)
Definition order_asc (x : pyval) : pyval := x.

Definition order_desc (x : pyval) : pyval :=
  match x with
  | Num a => Num (- a)%float
  | Str s => Str (String.rev s)
  end.

(** [column, rest = condition.split('=', maxsplit=1)], both stripped, after
    the ['=' not in condition] check of apply_aggregation and
    apply_order_by. *)
Definition split_spec (condition : string) : result (string * string) :=
  if negb (contains "=" condition) then Raise (ValueError MalformedSpec)
  else
    '(column, rest) ← unpack_split "=" condition;
    Ok (strip column, strip rest).


(** ** csv_processor/core.py *)
Module Core.

(** A row of the typed reader: column name to [float] or [str] cell. *)
Abbreviation row := (gmap string pyval).

Definition AGGREGATIONS : gmap string (list float → result agg_value) :=
  {[ "avg" := agg_avg; "min" := agg_min; "max" := agg_max;
     "median" := agg_median; "sum" := agg_sum; "count" := agg_count ]}.

Definition SORT_ORDERS : gmap string (pyval → pyval) :=
  {[ "asc" := order_asc; "desc" := order_desc ]}.

Section core.
Context `{Builtins}.

(** [float(v) if not isinstance(v, (int, float)) else v] *)
Definition as_float (v : pyval) : result float :=
  match v with
  | Num x => Ok x
  | Str s => float_of s
  end.

(** The body of the [try] of apply_filter. *)
Definition numeric_test (operator value : string) (row_value : pyval)
  : result bool :=
  row_num ← as_float row_value;
  val_num ← float_of value;
  Ok (if String.eqb operator ">" then PrimFloat.ltb val_num row_num
      else if String.eqb operator "<" then PrimFloat.ltb row_num val_num
      else if String.eqb operator "=" then PrimFloat.eqb row_num val_num
      else if String.eqb operator ">=" then PrimFloat.leb val_num row_num
      else if String.eqb operator "<=" then PrimFloat.leb row_num val_num
      else false).

(** The body of the [except (ValueError, TypeError)] of apply_filter. *)
Definition string_test (operator value : string) (row_value : pyval)
  : bool :=
  let str_row := str row_value in
  let str_val := value in
  if String.eqb operator "=" then String.eqb str_row str_val
  else if String.eqb operator ">" then String.ltb str_val str_row
  else if String.eqb operator "<" then String.ltb str_row str_val
  else false.

(** [condition_met] for one row value; the [try] only raises the
    [ValueError] of [float]. *)
Definition condition_met (operator value : string) (row_value : pyval)
  : bool :=
  match numeric_test operator value row_value with
  | Ok b => b
  | Raise _ => string_test operator value row_value
  end.

Definition apply_filter (data : list row) (condition : string)
  : result (list row) :=
  '(column, operator, value) ← parse_condition condition;
  Ok (fold_left (λ filtered_data r,
        match r !! column with
        | None => filtered_data
        | Some row_value =>
            if condition_met operator value row_value
            then filtered_data ++ [r]
            else filtered_data
        end) data []).

Definition apply_aggregation (data : list row) (condition : string)
  : result (list agg_record) :=
  '(column, operation) ← split_spec condition;
  match AGGREGATIONS !! operation with
  | None => Raise (ValueError UnknownOperation)
  | Some aggregate =>
      match comprehension as_float (omap (λ r : row, r !! column) data) with
      | Raise _ => Raise (ValueError NonNumericColumn)
      | Ok values =>
          match values with
          | [] => Ok [AggRecord operation column VNone]
          | _ => result ← aggregate values;
                 Ok [AggRecord operation column result]
          end
      end
  end.

(** [SORT_ORDERS[order](x.get(column, 0))]; the default [0] of [get] only
    meets [<] and unary minus, where the int [0] acts as the float zero. *)
Definition primary_key (transform : pyval → pyval) (column : string) (r : row)
  : pyval :=
  transform (default (Num 0%float) (r !! column)).

(** [SORT_ORDERS[order](str(x.get(column, '')))] *)
Definition fallback_key (transform : pyval → pyval) (column : string)
  (r : row) : pyval :=
  transform (Str (str (default (Str "") (r !! column)))).

Definition apply_order_by (data : list row) (condition : string)
  : result (list row) :=
  '(column, order) ← split_spec condition;
  match SORT_ORDERS !! order with
  | None => Raise (ValueError UnknownDirection)
  | Some transform =>
      match py_sorted py_lt (λ r, Ok (primary_key transform column r)) data with
      | Raise TypeError =>
          py_sorted py_lt (λ r, Ok (fallback_key transform column r)) data
      | res => res
      end
  end.

End core.
End Core.


(** ** csv_processor/main.py *)
Module Main.

(** A row of [csv.DictReader]: column name to [str] cell. *)
Abbreviation row := (gmap string string).

Definition AGGREGATIONS : gmap string (list float → result agg_value) :=
  {[ "avg" := agg_avg; "min" := agg_min; "max" := agg_max;
     "median" := agg_median ]}.

Definition SORT_ORDERS : gmap string (pyval → pyval) :=
  {[ "asc" := order_asc; "desc" := order_desc ]}.

Section main.
Context `{Builtins}.

(** The body of the [try] of apply_filter. With an operator outside the five
    of [parse_condition] no branch assigns [condition_met]; that case is
    never reached from apply_filter. *)
Definition numeric_test (operator value row_value : string) : result bool :=
  row_num ← float_of row_value;
  val_num ← float_of value;
  if String.eqb operator ">" then Ok (PrimFloat.ltb val_num row_num)
  else if String.eqb operator "<" then Ok (PrimFloat.ltb row_num val_num)
  else if String.eqb operator "=" then Ok (PrimFloat.eqb row_num val_num)
  else if String.eqb operator ">=" then Ok (PrimFloat.leb val_num row_num)
  else if String.eqb operator "<=" then Ok (PrimFloat.leb row_num val_num)
  else Raise UnboundLocalError.

(** The body of the [except ValueError] of apply_filter. *)
Definition string_test (operator value row_value : string) : result bool :=
  if String.eqb operator "=" then Ok (String.eqb row_value value)
  else if String.eqb operator ">" then Ok (String.ltb value row_value)
  else if String.eqb operator "<" then Ok (String.ltb row_value value)
  else Raise (ValueError UnsupportedOperator).

Definition condition_met (operator value row_value : string) : result bool :=
  match numeric_test operator value row_value with
  | Raise (ValueError _) => string_test operator value row_value
  | res => res
  end.

Definition apply_filter (data : list row) (condition : string)
  : result (list row) :=
  '(column, operator, value) ← parse_condition condition;
  for_each (λ filtered_data r,
      row_value ← getitem r column;
      met ← condition_met operator value row_value;
      Ok (if met : bool then filtered_data ++ [r] else filtered_data))
    data [].

Definition apply_aggregation (data : list row) (condition : string)
  : result (list agg_record) :=
  '(column, operation) ← split_spec condition;
  match AGGREGATIONS !! operation with
  | None => Raise (ValueError UnknownOperation)
  | Some aggregate =>
      match comprehension (λ r : row, v ← getitem r column; float_of v) data
      with
      | Raise (ValueError _) => Raise (ValueError NonNumericColumn)
      | Raise e => Raise e
      | Ok values =>
          result ← aggregate values;
          Ok [AggRecord operation column result]
      end
  end.

(** [SORT_ORDERS[order](float(x[column]))] *)
Definition primary_key (transform : pyval → pyval) (column : string) (r : row)
  : result pyval :=
  v ← getitem r column; x ← float_of v; Ok (transform (Num x)).

(** [SORT_ORDERS[order](x[column])] *)
Definition fallback_key (transform : pyval → pyval) (column : string)
  (r : row) : result pyval :=
  v ← getitem r column; Ok (transform (Str v)).

Definition apply_order_by (data : list row) (condition : string)
  : result (list row) :=
  '(column, order) ← split_spec condition;
  match SORT_ORDERS !! order with
  | None => Raise (ValueError UnknownDirection)
  | Some transform =>
      match py_sorted py_lt (primary_key transform column) data with
      | Raise (ValueError _) =>
          py_sorted py_lt (fallback_key transform column) data
      | res => res
      end
  end.

End main.
End Main.


(** ** The builtins on integer literals

    The worked examples below run the pipeline on cells such as ["30"] and
    ["Bob"]. On an optionally negated string of decimal digits [float] is the
    nearest binary64 number, every other string is refused here; an integral
    float below [10^16] in magnitude prints as its digits followed by [".0"],
    and [nan] and the infinities print by name. Floats outside this fragment
    print as the empty string and do not occur in the examples. *)

Definition float_of_Z (n : Z) : float :=
  SF2Prim (binary_normalize prec emax n 0 false).

Definition literal_float (s : string) : option float :=
  match s with
  | String "-" s' =>
      n ← NilZero.uint_of_string s'; Some (- float_of_Z (Z.of_uint n))%float
  | _ => n ← NilZero.uint_of_string s; Some (float_of_Z (Z.of_uint n))
  end.

Definition integral_digits (m : positive) (e : Z) : option string :=
  let n := if (0 <=? e)%Z then Some (Z.pos m * 2 ^ e)%Z
           else if (Z.pos m mod 2 ^ (- e) =? 0)%Z
                then Some (Z.pos m / 2 ^ (- e))%Z
                else None in
  n ← n;
  if (n <? 10 ^ 16)%Z
  then Some (NilZero.string_of_uint (N.to_uint (Z.to_N n)) +:+ ".0")
  else None.

Definition literal_str (x : float) : string :=
  match Prim2SF x with
  | S754_nan => "nan"
  | S754_infinity s => if s then "-inf" else "inf"
  | S754_zero s => if s then "-0.0" else "0.0"
  | S754_finite s m e =>
      match integral_digits m e with
      | Some d => if s then "-" +:+ d else d
      | None => ""
      end
  end.

Definition literals : Builtins :=
  {| py_float := literal_float; py_str := literal_str |}.


(** ** Vocabulary of the statements *)

(** [sub] occurs in [s] as a substring. *)
Definition occurs (sub s : string) : Prop := ∃ l r, s = l +:+ sub +:+ r.

Fixpoint all_space (s : string) : bool :=
  match s with
  | "" => true
  | String c s' => isspace c && all_space s'
  end.

(** [t] is [s] without its leading and trailing whitespace. *)
Definition trimmed_of (s t : string) : Prop :=
  (∃ a b, s = a +:+ t +:+ b ∧ all_space a = true ∧ all_space b = true) ∧
  (∀ c t', t = String c t' → isspace c = false) ∧
  (∀ c t', t = t' +:+ String c "" → isspace c = false).

Definition is_num (v : pyval) : bool :=
  match v with
  | Num _ => true
  | Str _ => false
  end.

(** Keys of both kinds are present, so that sorting them raises
    [TypeError]. *)
Definition mixed (keys : list pyval) : bool :=
  existsb is_num keys && existsb (λ v, negb (is_num v)) keys.

(** [out] holds the rows of [data], and the rows whose key equals any given
    key stand in [out] in the order they have in [data]. *)
Definition stable_by {A : Type} (key : A → pyval) (data out : list A) : Prop :=
  out ≡ₚ data ∧
  ∀ k, filter (λ r, py_eq (key r) k = true) out
       = filter (λ r, py_eq (key r) k = true) data.

(** [a <= b] on keys of one kind. *)
Definition py_le (a b : pyval) : bool :=
  match a, b with
  | Num x, Num y => PrimFloat.leb x y
  | Str s, Str t => String.leb s t
  | _, _ => false
  end.

(** No key of [data] is NaN, the one key that differs from itself. *)
Definition keys_ordered {A : Type} (key : A → pyval) (data : list A) : Prop :=
  ∀ r, r ∈ data → py_eq (key r) (key r) = true.

(** The keys of [out] ascend. *)
Definition ascending_by {A : Type} (key : A → pyval) (out : list A) : Prop :=
  StronglySorted (λ a b, py_le (key a) (key b) = true) out.

(** The key of a row once the key function is known not to raise on it. *)
Definition key_of {A : Type} (key : A → result pyval) (r : A) : pyval :=
  match key r with
  | Ok k => k
  | Raise _ => Str ""
  end.

(** The reference numeric predicate of a condition: the row value [x]
    compared with the operand [v] under the operator. *)
Definition numeric_predicate (operator : string) (x v : float) : bool :=
  if String.eqb operator ">=" then PrimFloat.leb v x
  else if String.eqb operator "<=" then PrimFloat.leb x v
  else if String.eqb operator "=" then PrimFloat.eqb x v
  else if String.eqb operator ">" then PrimFloat.ltb v x
  else if String.eqb operator "<" then PrimFloat.ltb x v
  else false.

(** The reference lexicographic predicate for the operators defined on
    strings. *)
Definition string_predicate (operator s v : string) : option bool :=
  if String.eqb operator "=" then Some (String.eqb s v)
  else if String.eqb operator ">" then Some (String.ltb v s)
  else if String.eqb operator "<" then Some (String.ltb s v)
  else None.

Definition is_ok_true (b : result bool) : bool :=
  match b with
  | Ok true => true
  | _ => false
  end.

Section selection.
Context `{Builtins}.

(** What the loop of [Core.apply_filter] decides for one row. *)
Definition core_selects (column operator value : string) (r : Core.row)
  : bool :=
  match r !! column with
  | None => false
  | Some row_value => Core.condition_met operator value row_value
  end.

(** What the loop of [Main.apply_filter] decides for one row, or the
    exception the row raises. *)
Definition main_selects (column operator value : string) (r : Main.row)
  : result bool :=
  row_value ← getitem r column; Main.condition_met operator value row_value.

End selection.

Section sort_keys.
Context `{Builtins}.

(** The key by which [Core.apply_order_by] ends up sorting: the typed cell,
    or its string form once the typed keys are of both kinds. *)
Definition core_sort_key (transform : pyval → pyval) (column : string)
  (data : list Core.row) : Core.row → pyval :=
  if mixed (Core.primary_key transform column <$> data)
  then Core.fallback_key transform column
  else Core.primary_key transform column.

(** The key by which [Main.apply_order_by] ends up sorting: the float of the
    cell, or the cell itself once a cell does not convert. *)
Definition main_sort_key (transform : pyval → pyval) (column : string)
  (data : list Main.row) : Main.row → pyval :=
  match comprehension (Main.primary_key transform column) data with
  | Ok _ => key_of (Main.primary_key transform column)
  | Raise _ => key_of (Main.fallback_key transform column)
  end.

End sort_keys.

(** ** Sample data of the worked examples *)

Definition core_person (name : string) (age salary : float) : Core.row :=
  {[ "name" := Str name; "age" := Num age; "salary" := Num salary ]}.

Definition main_person (name age salary : string) : Main.row :=
  {[ "name" := name; "age" := age; "salary" := salary ]}.

Definition core_people : list Core.row :=
  [core_person "Alice" 30 5000; core_person "Bob" 25 4000;
   core_person "Charlie" 35 6000].

Definition main_people : list Main.row :=
  [main_person "Alice" "30" "5000"; main_person "Bob" "25" "4000";
   main_person "Charlie" "35" "6000"].

Definition core_name (name : string) : Core.row := {[ "name" := Str name ]}.
Definition main_name (name : string) : Main.row := {[ "name" := name ]}.

Definition core_salary (salary : float) : Core.row :=
  {[ "salary" := Num salary ]}.
Definition main_salary (salary : string) : Main.row :=
  {[ "salary" := salary ]}.

Definition four_salaries : list float := [4000; 5000; 5500; 6000]%float.

(** Three people, two of them of one age. *)
Definition core_same_age : list Core.row :=
  [core_person "Alice" 30 5000; core_person "Bob" 25 4000;
   core_person "Carol" 30 6000].

Definition core_score (name : string) (score : float) : Core.row :=
  {[ "name" := Str name; "score" := Num score ]}.

(** Seven scores as the reader of core.py types them, three of the cells
    being [nan] ([float("nan")] is NaN). *)
Definition nan_scores : list Core.row :=
  [core_score "a" nan; core_score "b" nan; core_score "c" 3;
   core_score "d" nan; core_score "e" 1; core_score "f" 0;
   core_score "g" 1].

(** ** The reader of core.py and the command-line bodies *)

Section reader.
Context `{Builtins}.

(** The conversion of one cell in [read_csv] of core.py: [float(value)], and
    when that raises [ValueError], [value.strip() if value else value]. A
    value is a [str], as [csv.DictReader] gives for every field of a row
    that is as long as the header. *)
Definition processed_cell (value : string) : pyval :=
  match py_float value with
  | Some x => Num x
  | None => Str (if String.eqb value "" then value else strip value)
  end.

(** The [processed_row] that [read_csv] of core.py builds from one row of
    the reader: the same keys, each value converted. *)
Definition processed_row (row : Main.row) : Core.row :=
  processed_cell <$> row.

(** The [data] that [read_csv] of core.py returns for the rows of the
    reader. *)
Definition processed_data (reader : list Main.row) : list Core.row :=
  processed_row <$> reader.

(** A column of the reader whose every cell converts to a float. *)
Definition numeric_column (column : string) (reader : list Main.row) : Prop :=
  ∀ row, row ∈ reader →
         ∃ s x, row !! column = Some s ∧ py_float s = Some x.

(** A column of the reader whose cells do not convert and carry no
    whitespace around their text. *)
Definition text_column (column : string) (reader : list Main.row) : Prop :=
  ∀ row, row ∈ reader →
         ∃ s, row !! column = Some s ∧ py_float s = None ∧ strip s = s.

End reader.

(** What [cli] and [main] hand to [tabulate]: the rows, or the records of
    the aggregation. *)
Inductive printed (R : Type) :=
  | Rows (data : list R)
  | Records (result : list agg_record).
Arguments Rows {R} data.
Arguments Records {R} result.

(** [if args.option:] on an optional string argument: an absent option is
    [None], and the empty string is false as well. *)
Definition given (arg : option string) : option string :=
  match arg with
  | Some s => if String.eqb s "" then None else Some s
  | None => None
  end.

Section command_line.
Context `{Builtins}.

(** The body of the [try] of [cli] in core.py after [read_csv]: filter, then
    sort, then aggregate or keep the rows. *)
Definition core_cli (where_ aggregate order_by : option string)
  (data : list Core.row) : result (printed Core.row) :=
  data ← match given where_ with
         | Some condition => Core.apply_filter data condition
         | None => Ok data
         end;
  data ← match given order_by with
         | Some condition => Core.apply_order_by data condition
         | None => Ok data
         end;
  match given aggregate with
  | Some condition =>
      result ← Core.apply_aggregation data condition; Ok (Records result)
  | None => Ok (Rows data)
  end.

(** The body of the [try] of [main] in main.py after [read_csv]. *)
Definition main_cli (where_ aggregate order_by : option string)
  (data : list Main.row) : result (printed Main.row) :=
  data ← match given where_ with
         | Some condition => Main.apply_filter data condition
         | None => Ok data
         end;
  data ← match given order_by with
         | Some condition => Main.apply_order_by data condition
         | None => Ok data
         end;
  match given aggregate with
  | Some condition =>
      result ← Main.apply_aggregation data condition; Ok (Records result)
  | None => Ok (Rows data)
  end.

End command_line.

(** The names of the two aggregation tables. *)
Definition core_operations : list string :=
  ["avg"; "min"; "max"; "median"; "sum"; "count"].
Definition main_operations : list string := ["avg"; "min"; "max"; "median"].

(** [c in s] for one character. *)
Fixpoint has_char (c : ascii) (s : string) : bool :=
  match s with
  | "" => false
  | String d s' => Ascii.eqb c d || has_char c s'
  end.

(** A text without any of the characters of the comparison operators. *)
Definition operator_free (s : string) : bool :=
  negb (has_char "=" s) && negb (has_char ">" s) && negb (has_char "<" s).

Definition starts_space (s : string) : bool :=
  match s with
  | "" => false
  | String c _ => isspace c
  end.

(** A text that neither starts nor ends with whitespace. *)
Definition trimmed (t : string) : bool :=
  negb (starts_space t) && negb (starts_space (String.rev t)).


(** * Properties *)

(** ** Strings: [in], [split] and [strip] *)

#[local] Arguments String.append !_ _ / : simpl nomatch.

Lemma prefix_app sub s : String.prefix sub s = true ↔ ∃ r, s = sub +:+ r.
Proof.
  revert s. induction sub as [|c sub IH]; intros s; simpl.
  - split; [intros _; by exists s | by destruct s].
  - destruct s as [|d s].
    + split; [done | intros [r Hr]; discriminate Hr].
    + simpl. destruct (ascii_dec c d) as [->|Hne].
      * rewrite IH. split; intros [r Hr]; exists r; simpl in *; congruence.
      * split; [done | intros [r Hr]; simpl in Hr; congruence].
Qed.

#[local] Arguments String.prefix : simpl never.

Section string_facts.
Implicit Types s t l r sub sep : string.

Lemma string_app_nil_r s : s +:+ "" = s.
Proof. induction s as [|c s IH]; simpl; [done|]. by rewrite IH. Qed.

Lemma string_app_assoc s t r : (s +:+ t) +:+ r = s +:+ t +:+ r.
Proof. induction s as [|c s IH]; simpl; [done|]. by rewrite IH. Qed.

Lemma string_app_length s t :
  String.length (s +:+ t) = String.length s + String.length t.
Proof. induction s as [|c s IH]; simpl; [done|]. by rewrite IH. Qed.

Lemma drop_chars_app sub r : drop_chars (String.length sub) (sub +:+ r) = r.
Proof. induction sub as [|c sub IH]; simpl; [by destruct r | done]. Qed.

Lemma contains_occurs sub s : contains sub s = true ↔ occurs sub s.
Proof.
  unfold occurs. induction s as [|c s IH]; simpl.
  - rewrite orb_false_r, prefix_app. split.
    + intros [r Hr]. by exists "", r.
    + intros ([|d l] & r & Hr); [by exists r | discriminate Hr].
  - rewrite orb_true_iff, prefix_app, IH. split.
    + intros [[r Hr]|(l & r & Hr)]; [by exists "", r|].
      exists (String c l), r. simpl. by rewrite Hr.
    + intros ([|d l] & r & Hr); [left; by exists r|].
      right. exists l, r. simpl in Hr. congruence.
Qed.

Lemma contains_false sub s : contains sub s = false ↔ ¬ occurs sub s.
Proof. rewrite <-contains_occurs. by destruct (contains sub s). Qed.

Lemma split_once_unfold sep s :
  split_once sep s =
  if String.prefix sep s then Some ("", drop_chars (String.length sep) s)
  else match s with
       | "" => None
       | String c s' =>
           match split_once sep s' with
           | Some (l, r) => Some (String c l, r)
           | None => None
           end
       end.
Proof. by destruct s. Qed.

Lemma split_once_cuts sep s l r :
  split_once sep s = Some (l, r) →
  s = l +:+ sep +:+ r ∧
  ∀ l' r', s = l' +:+ sep +:+ r' → (String.length l ≤ String.length l')%nat.
Proof.
  revert l. induction s as [|c s IH]; intros l; rewrite split_once_unfold.
  - destruct (String.prefix sep "") eqn:Hp; [|done].
    apply prefix_app in Hp as [r' Hr']. intros [= <- <-].
    destruct sep; [|discriminate Hr']. simpl. split; [done|]. intros; lia.
  - destruct (String.prefix sep (String c s)) eqn:Hp.
    + apply prefix_app in Hp as [r' ->]. intros [= <- <-].
      rewrite drop_chars_app. split; [done|]. intros; simpl; lia.
    + destruct (split_once sep s) as [[l0 r0]|] eqn:Hsp; [|done].
      intros [= <- <-]. destruct (IH l0 eq_refl) as [-> Hmin].
      split; [done|]. intros [|d' l'] r' Hr'.
      * assert (String.prefix sep (String c (l0 +:+ sep +:+ r0)) = true);
          [|congruence]. apply prefix_app. by exists r'.
      * simpl in Hr'. injection Hr' as -> Hr'.
        simpl. apply le_n_S. by eapply Hmin.
Qed.

Lemma split_once_leftmost sep l r :
  (∀ l' r', l +:+ sep +:+ r = l' +:+ sep +:+ r' →
            (String.length l ≤ String.length l')%nat) →
  split_once sep (l +:+ sep +:+ r) = Some (l, r).
Proof.
  induction l as [|c l IH]; intros Hmin; rewrite split_once_unfold.
  - simpl. assert (String.prefix sep (sep +:+ r) = true) as ->.
    { apply prefix_app. by exists r. }
    by rewrite drop_chars_app.
  - destruct (String.prefix sep _) eqn:Hp.
    + apply prefix_app in Hp as [r' Hr'].
      specialize (Hmin "" r' Hr'). simpl in Hmin. lia.
    + simpl. rewrite IH; [done|]. intros l' r' Hr'.
      specialize (Hmin (String c l') r'). simpl in Hmin.
      rewrite Hr' in Hmin. specialize (Hmin eq_refl). lia.
Qed.

(** [split] cuts at the leftmost occurrence of the separator. *)
Lemma split_once_Some sep s l r :
  split_once sep s = Some (l, r) ↔
  s = l +:+ sep +:+ r ∧
  ∀ l' r', s = l' +:+ sep +:+ r' → (String.length l ≤ String.length l')%nat.
Proof.
  split; [apply split_once_cuts|]. intros [-> Hmin].
  by apply split_once_leftmost.
Qed.

Lemma split_once_None sep s : split_once sep s = None ↔ contains sep s = false.
Proof.
  induction s as [|c s IH]; simpl.
  - destruct (String.prefix sep ""); simpl; split; congruence.
  - destruct (String.prefix sep (String c s)); simpl; [split; congruence|].
    rewrite <-IH. destruct (split_once sep s) as [[??]|]; split; congruence.
Qed.

Lemma unpack_split_contains sep s :
  contains sep s = true → ∃ l r, unpack_split sep s = Ok (l, r).
Proof.
  intros Hc. unfold unpack_split.
  destruct (split_once sep s) as [[l r]|] eqn:Hs; [by exists l, r|].
  apply split_once_None in Hs. congruence.
Qed.

Lemma rev_app_spec s t : String.rev_app s t = String.rev s +:+ t.
Proof.
  unfold String.rev. revert t. induction s as [|c s IH]; intros t; simpl.
  - done.
  - rewrite (IH (String c t)), (IH (String c "")).
    by rewrite string_app_assoc.
Qed.

Lemma string_rev_cons c s : String.rev (String c s) = String.rev s +:+ String c "".
Proof. unfold String.rev at 1. simpl. apply rev_app_spec. Qed.

Lemma string_rev_app s t : String.rev (s +:+ t) = String.rev t +:+ String.rev s.
Proof.
  induction s as [|c s IH]; simpl.
  - by rewrite string_app_nil_r.
  - by rewrite !string_rev_cons, IH, string_app_assoc.
Qed.

Lemma string_rev_involutive s : String.rev (String.rev s) = s.
Proof.
  induction s as [|c s IH]; [done|].
  by rewrite string_rev_cons, string_rev_app, IH.
Qed.

Lemma all_space_app s t : all_space (s +:+ t) = all_space s && all_space t.
Proof.
  induction s as [|c s IH]; simpl; [done|]. by rewrite IH, andb_assoc.
Qed.

Lemma all_space_rev s : all_space (String.rev s) = all_space s.
Proof.
  induction s as [|c s IH]; [done|].
  rewrite string_rev_cons, all_space_app, IH. simpl.
  rewrite andb_true_r. apply andb_comm.
Qed.

Lemma lstrip_spec s :
  (∃ a, s = a +:+ lstrip s ∧ all_space a = true) ∧
  ∀ c t', lstrip s = String c t' → isspace c = false.
Proof.
  induction s as [|c s [(a & Ha & Hsp) Hhd]]; simpl.
  - split; [by exists ""|done].
  - destruct (isspace c) eqn:Hc.
    + split; [|done]. exists (String c a). simpl. rewrite Hc, Hsp.
      split; [congruence|done].
    + split; [by exists ""|]. intros ?? [= <- <-]. done.
Qed.

Lemma rstrip_spec s :
  (∃ b, s = rstrip s +:+ b ∧ all_space b = true) ∧
  ∀ c t', rstrip s = t' +:+ String c "" → isspace c = false.
Proof.
  unfold rstrip. destruct (lstrip_spec (String.rev s)) as [(a & Ha & Hsp) Hhd].
  split.
  - exists (String.rev a). rewrite all_space_rev. split; [|done].
    rewrite <-string_rev_app, <-Ha. by rewrite string_rev_involutive.
  - intros c t' Ht. apply (Hhd c (String.rev t')).
    rewrite <-(string_rev_involutive (lstrip _)), Ht, string_rev_app. done.
Qed.

(** [strip] removes exactly the whitespace at both ends. *)
Lemma strip_trimmed s : trimmed_of s (strip s).
Proof.
  unfold strip.
  destruct (lstrip_spec s) as [(a & Ha & Hspa) Hhd].
  destruct (rstrip_spec (lstrip s)) as [(b & Hb & Hspb) Htl].
  split; [|split; [|done]].
  - exists a, b. split; [|done]. by rewrite <-Hb.
  - intros c t' Ht. rewrite Ht in Hb. simpl in Hb. by eapply Hhd.
Qed.

End string_facts.

(** ** Condition parser *)

Section parse_facts.
Implicit Types condition column op value : string.

Lemma parse_condition_from_Ok ops condition column op value :
  parse_condition_from ops condition = Ok (column, op, value) ↔
  ∃ (i : nat) left right,
    ops !! i = Some op ∧
    (∀ (j : nat) op', (j < i)%nat → ops !! j = Some op' →
                      ¬ occurs op' condition) ∧
    split_once op condition = Some (left, right) ∧
    column = strip left ∧ value = strip right.
Proof.
  induction ops as [|op0 ops IH]; simpl.
  - split; [done|]. by intros (i & ? & ? & ? & _).
  - destruct (contains op0 condition) eqn:Hc.
    + destruct (unpack_split_contains _ _ Hc) as (l & r & Hu).
      rewrite Hu. simpl. unfold unpack_split in Hu.
      destruct (split_once op0 condition) as [[l0 r0]|] eqn:Hs; [|done].
      injection Hu as -> ->. split.
      * intros [= <- <- <-]. exists 0%nat, l, r.
        repeat split; try done. intros; lia.
      * intros ([|i] & left & right & Hi & Hbefore & Hsp & -> & ->).
        -- simpl in Hi. injection Hi as <-. congruence.
        -- exfalso. apply (Hbefore 0%nat op0); [lia|done|].
           by apply contains_occurs.
    + rewrite IH. apply contains_false in Hc. split.
      * intros (i & left & right & Hi & Hbefore & Hrest).
        exists (S i), left, right. split; [done|]. split; [|done].
        intros [|j] op' Hj Hop'; simpl in Hop'.
        -- by injection Hop' as <-.
        -- apply (Hbefore j); [lia|done].
      * intros ([|i] & left & right & Hi & Hbefore & Hsp & Hrest).
        -- simpl in Hi. injection Hi as <-. exfalso. apply Hc.
           apply contains_occurs.
           destruct (contains op0 condition) eqn:Hc'; [done|].
           apply split_once_None in Hc'. congruence.
        -- exists i, left, right. split; [done|]. split; [|done].
           intros j op' Hj Hop'. apply (Hbefore (S j)); [lia|done].
Qed.

Lemma parse_condition_from_Raise ops condition e :
  parse_condition_from ops condition = Raise e ↔
  e = ValueError MalformedCondition ∧ ∀ op, op ∈ ops → ¬ occurs op condition.
Proof.
  induction ops as [|op0 ops IH]; simpl.
  - split; [intros [= <-]|intros [-> _]; done].
    split; [done|]. intros op Hop. by apply elem_of_nil in Hop.
  - destruct (contains op0 condition) eqn:Hc.
    + destruct (unpack_split_contains _ _ Hc) as (l & r & ->). simpl.
      split; [done|]. intros [_ Hno]. exfalso.
      apply (Hno op0); [by left|]. by apply contains_occurs.
    + rewrite IH. apply contains_false in Hc. split; intros [-> Hno].
      * split; [done|]. intros op [->|Hop]%elem_of_cons; auto.
      * split; [done|]. intros op Hop. apply Hno. by right.
Qed.

(** C6. [parse_condition] tries [>=], [<=], [=], [>], [<] in this order and
    cuts the condition at the leftmost occurrence of the first operator that
    occurs in it; the column is the text before the operator and the operand
    the text after it, each without its surrounding whitespace. It raises,
    and then the malformed-condition [ValueError], exactly when none of the
    five operators occurs. *)
Theorem parse_condition_correct condition :
  (parse_condition condition = Raise (ValueError MalformedCondition) ↔
   ∀ op, op ∈ operators → ¬ occurs op condition) ∧
  (∀ e, parse_condition condition = Raise e →
        e = ValueError MalformedCondition) ∧
  (∀ column op value,
     parse_condition condition = Ok (column, op, value) ↔
     ∃ (i : nat) left right,
       operators !! i = Some op ∧
       (∀ (j : nat) op', (j < i)%nat → operators !! j = Some op' →
                         ¬ occurs op' condition) ∧
       condition = left +:+ op +:+ right ∧
       (∀ left' right', condition = left' +:+ op +:+ right' →
                        (String.length left ≤ String.length left')%nat) ∧
       trimmed_of left column ∧ column = strip left ∧
       trimmed_of right value ∧ value = strip right).
Proof.
  unfold parse_condition. split; [|split].
  - rewrite parse_condition_from_Raise. split; [by intros [_ ?]|by split].
  - by intros e [-> _]%parse_condition_from_Raise.
  - intros column op value. rewrite parse_condition_from_Ok.
    split.
    + intros (i & left & right & Hi & Hbefore & Hsp & -> & ->).
      apply split_once_Some in Hsp as [Hcut Hmin].
      exists i, left, right. eauto 10 using strip_trimmed.
    + intros (i & left & right & Hi & Hbefore & Hcut & Hmin & _ & -> & _ & ->).
      exists i, left, right. repeat split; try done.
      apply split_once_Some. done.
Qed.

Lemma parse_condition_operator condition column op value :
  parse_condition condition = Ok (column, op, value) → op ∈ operators.
Proof.
  unfold parse_condition. rewrite parse_condition_from_Ok.
  intros (i & left & right & Hi & _). by eapply list_elem_of_lookup_2.
Qed.

End parse_facts.
(** ** The sort *)

#[local] Arguments Nat.div : simpl never.

Lemma Sorted_impl_elem {A : Type} (R1 R2 : relation A) (l : list A) :
  (∀ a b, a ∈ l → b ∈ l → R1 a b → R2 a b) → Sorted R1 l → Sorted R2 l.
Proof.
  intros Himpl Hs. induction Hs as [|a l Hs IH Hhd]; constructor.
  - apply IH. intros b c Hb Hc. apply Himpl; by right.
  - destruct Hhd as [|b l Hab]; constructor.
    apply Himpl; [by left|right; by left|done].
Qed.

Lemma StronglySorted_impl_elem {A : Type} (R1 R2 : relation A) (l : list A) :
  (∀ a b, a ∈ l → b ∈ l → R1 a b → R2 a b) →
  StronglySorted R1 l → StronglySorted R2 l.
Proof.
  intros Himpl Hs. induction Hs as [|a l Hs IH Hall]; constructor.
  - apply IH. intros b c Hb Hc. apply Himpl; by right.
  - rewrite Forall_forall in Hall. apply Forall_forall. intros b Hb.
    apply Himpl; [by left|by right|by apply Hall].
Qed.

(** A list sorted pairwise is sorted throughout when the relation is
    transitive on its elements. *)
Lemma Sorted_StronglySorted_elem {A : Type} (R : relation A) (l : list A) :
  (∀ a b c, a ∈ l → b ∈ l → c ∈ l → R a b → R b c → R a c) →
  Sorted R l → StronglySorted R l.
Proof.
  intros Htrans Hs. induction Hs as [|a l Hs IH Hhd]; constructor.
  - apply IH. intros b c d Hb Hc Hd. apply Htrans; by right.
  - assert (StronglySorted R l) as Hl.
    { apply IH. intros b c d Hb Hc Hd. apply Htrans; by right. }
    destruct Hhd as [|b l Hab]; [done|].
    apply StronglySorted_cons in Hl as [Hall _].
    constructor; [done|]. rewrite Forall_forall in Hall.
    apply Forall_forall. intros c Hc.
    apply (Htrans a b c); [by left|right; by left|do 2 right; done|done|].
    by apply Hall.
Qed.

Lemma StronglySorted_reverse {A : Type} (R : relation A) (l : list A) :
  StronglySorted R l → StronglySorted (λ a b, R b a) (reverse l).
Proof.
  induction 1 as [|a l Hs IH Hall]; [constructor|].
  rewrite reverse_cons. apply StronglySorted_app_2; [|done|by repeat constructor].
  rewrite Forall_forall in Hall.
  intros b c Hb Hc. apply list_elem_of_singleton in Hc as ->.
  apply Hall. by apply elem_of_reverse.
Qed.

Lemma filter_none {A : Type} (P : A → Prop) `{!∀ a, Decision (P a)}
  (l : list A) :
  Forall (λ a, ¬ P a) l → filter P l = [].
Proof.
  induction 1 as [|a l Ha _ IH]; [done|]. by rewrite filter_cons_False.
Qed.

Section sort_facts.
Context {K A : Type} (lt : K → K → option bool).
Implicit Types (x y e pivot : K * A) (l s a run rest : list (K * A)).

Lemma run_length_le d prev l n :
  run_length lt d prev l = Some n → (n ≤ length l)%nat.
Proof.
  revert prev n. induction l as [|x l IH]; intros prev n; simpl.
  - intros [= <-]. lia.
  - destruct (lt x.1 prev) as [b|]; simpl; [|done].
    destruct (Bool.eqb b d); [|intros [= <-]; lia].
    destruct (run_length lt d x.1 l) as [n'|] eqn:Hn; simpl; [|done].
    intros [= <-]. specialize (IH _ _ Hn). lia.
Qed.

Lemma count_run_le l n d :
  count_run lt l = Some (n, d) → (n ≤ length l)%nat.
Proof.
  destruct l as [|x0 [|x1 l]]; simpl; try (intros [= <- <-]; lia).
  destruct (lt x1.1 x0.1) as [b|]; simpl; [|done].
  destruct (run_length lt b x1.1 l) as [n'|] eqn:Hn; simpl; [|done].
  intros [= <- <-]. apply run_length_le in Hn. lia.
Qed.

Lemma count_run_pos x0 l n d :
  count_run lt (x0 :: l) = Some (n, d) → (0 < n)%nat.
Proof.
  destruct l as [|x1 l]; simpl; [intros [= <- <-]; lia|].
  destruct (lt x1.1 x0.1) as [b|]; simpl; [|done].
  destruct (run_length lt b x1.1 l) as [n'|]; simpl; [|done].
  intros [= <- <-]. lia.
Qed.

(** The search ends within [r - l] turns: more fuel does not change what it
    returns, whatever the comparisons answer. *)
Lemma bisect_fuel fuel fuel' k a (l r : nat) :
  (r - l ≤ fuel)%nat → (r - l ≤ fuel')%nat →
  bisect lt fuel k a l r = bisect lt fuel' k a l r.
Proof.
  revert fuel' l r. induction fuel as [|fuel IH]; intros fuel' l r H1 H2.
  - assert ((l <? r)%nat = false) as Hlr by (apply Nat.ltb_ge; lia).
    destruct fuel'; simpl; by rewrite ?Hlr.
  - destruct fuel' as [|fuel'].
    + assert ((l <? r)%nat = false) as Hlr by (apply Nat.ltb_ge; lia).
      simpl. by rewrite Hlr.
    + simpl. destruct (l <? r)%nat eqn:Hlr; [|done].
      apply Nat.ltb_lt in Hlr. pose proof (Nat.div_lt (r - l) 2) as Hdiv.
      destruct (a !! _) as [e|]; [|done].
      destruct (lt k e.1) as [[]|]; simpl; [| |done]; apply IH; lia.
Qed.

Lemma insert_at_perm (i : nat) pivot run :
  take i run ++ pivot :: drop i run ≡ₚ run ++ [pivot].
Proof.
  rewrite <-Permutation_middle, Permutation_app_comm. simpl.
  by rewrite (Permutation_app_comm (drop i run)), take_drop,
    (Permutation_app_comm _ [pivot]).
Qed.

Lemma binarysort_perm run rest s :
  binarysort lt run rest = Some s → s ≡ₚ run ++ rest.
Proof.
  revert run. induction rest as [|pivot rest IH]; intros run; simpl.
  - intros [= <-]. by rewrite app_nil_r.
  - destruct (bisect lt _ _ _ _ _) as [i|]; simpl; [|done].
    intros Hs%IH. rewrite Hs, insert_at_perm, <-app_assoc. done.
Qed.

(** The sort returns an arrangement of its input. *)
Lemma listsort_perm l s : listsort lt l = Some s → s ≡ₚ l.
Proof.
  unfold listsort. destruct (length l <? 2)%nat; [by intros [= <-]|].
  destruct (count_run lt l) as [[n d]|]; simpl; [|done].
  intros Hs%binarysort_perm. rewrite Hs.
  assert ((if d then reverse (take n l) else take n l) ≡ₚ take n l) as ->.
  { destruct d; [apply reverse_Permutation|done]. }
  by rewrite take_drop.
Qed.

(** *** The sort returns when the keys can be compared *)

Section comparable.
Context (D : K → Prop).
Hypothesis Htotal : ∀ k1 k2, D k1 → D k2 → is_Some (lt k1 k2).

Lemma run_length_is_Some d prev l :
  D prev → Forall (λ e, D e.1) l → is_Some (run_length lt d prev l).
Proof.
  revert prev. induction l as [|x l IH]; intros prev Hprev Hl; simpl;
    [done|].
  apply Forall_cons in Hl as [Hx Hl].
  destruct (Htotal x.1 prev Hx Hprev) as [b ->]. simpl.
  destruct (Bool.eqb b d); [|done].
  destruct (IH x.1 Hx Hl) as [n ->]. done.
Qed.

Lemma bisect_is_Some fuel k a (l r : nat) :
  D k → Forall (λ e, D e.1) a → is_Some (bisect lt fuel k a l r).
Proof.
  intros Hk Ha. revert l r. induction fuel as [|fuel IH]; intros l r; simpl;
    [done|].
  destruct (l <? r)%nat; [|done].
  destruct (a !! (l + (r - l) / 2)%nat) as [e|] eqn:He; [|done].
  rewrite Forall_forall in Ha.
  destruct (Htotal k e.1 Hk) as [[] ->]; simpl; [|apply IH..].
  apply Ha. by eapply list_elem_of_lookup_2.
Qed.

Lemma binarysort_is_Some run rest :
  Forall (λ e, D e.1) run → Forall (λ e, D e.1) rest →
  is_Some (binarysort lt run rest).
Proof.
  revert run. induction rest as [|pivot rest IH]; intros run Hrun Hrest;
    simpl; [done|].
  apply Forall_cons in Hrest as [Hp Hrest].
  destruct (bisect_is_Some (length run) pivot.1 run 0 (length run) Hp Hrun)
    as [i ->].
  simpl. apply IH; [|done].
  apply Forall_app. split; [by apply Forall_take|].
  constructor; [done|by apply Forall_drop].
Qed.

Lemma listsort_is_Some_on l :
  Forall (λ e, D e.1) l → is_Some (listsort lt l).
Proof.
  intros Hl. unfold listsort. destruct (length l <? 2)%nat; [done|].
  assert (is_Some (count_run lt l)) as [[n d] ->].
  { destruct l as [|x0 [|x1 l]]; simpl; [done..|].
    apply Forall_cons in Hl as [H0 Hl]. apply Forall_cons in Hl as [H1 Hl].
    destruct (Htotal x1.1 x0.1 H1 H0) as [b ->]. simpl.
    destruct (run_length_is_Some b x1.1 l H1 Hl) as [n ->]. done. }
  simpl. apply binarysort_is_Some; [|by apply Forall_drop].
  destruct d; [apply Forall_reverse|]; by apply Forall_take.
Qed.

End comparable.

Lemma listsort_is_Some l :
  (∀ x y, x ∈ l → y ∈ l → is_Some (lt x.1 y.1)) → is_Some (listsort lt l).
Proof.
  intros Hcmp. apply (listsort_is_Some_on (λ k, ∃ x, x ∈ l ∧ x.1 = k)).
  - intros k1 k2 (x & Hx & <-) (y & Hy & <-). by apply Hcmp.
  - apply Forall_forall. intros x Hx. by exists x.
Qed.

(** *** The sort compares every key with another one

    When the sort returns, each key has been compared, through a chain of
    comparisons, with every other key: keys that can only be compared within
    a kind are all of one kind. *)

Section linked.
Context {B : Type} (kind : K → B).
Hypothesis Hkind : ∀ k1 k2, is_Some (lt k1 k2) → kind k1 = kind k2.

Lemma run_length_linked d prev l n :
  run_length lt d prev l = Some n →
  Forall (λ e, kind e.1 = kind prev) (take n l).
Proof.
  revert prev n. induction l as [|x l IH]; intros prev n; simpl.
  - intros [= <-]. constructor.
  - destruct (lt x.1 prev) as [b|] eqn:Hlt; simpl; [|done].
    assert (kind x.1 = kind prev) as Hx by (apply Hkind; by rewrite Hlt).
    destruct (Bool.eqb b d); [|intros [= <-]; constructor].
    destruct (run_length lt d x.1 l) as [n'|] eqn:Hn; simpl; [|done].
    intros [= <-]. simpl. constructor; [done|].
    eapply Forall_impl; [by apply IH|]. simpl. congruence.
Qed.

Lemma count_run_linked x0 l n d :
  count_run lt (x0 :: l) = Some (n, d) →
  Forall (λ e, kind e.1 = kind x0.1) (take n (x0 :: l)).
Proof.
  destruct l as [|x1 l]; simpl.
  { intros [= <- <-]. by repeat constructor. }
  destruct (lt x1.1 x0.1) as [b|] eqn:Hlt; simpl; [|done].
  assert (kind x1.1 = kind x0.1) as Hx by (apply Hkind; by rewrite Hlt).
  destruct (run_length lt b x1.1 l) as [n'|] eqn:Hn; simpl; [|done].
  intros [= <- <-]. simpl. constructor; [done|]. constructor; [done|].
  eapply Forall_impl; [by eapply run_length_linked|]. simpl. congruence.
Qed.

Lemma bisect_linked fuel k a (l r i : nat) :
  bisect lt (S fuel) k a l r = Some i →
  (l < r)%nat → (r ≤ length a)%nat →
  ∃ e, e ∈ a ∧ kind k = kind e.1.
Proof.
  simpl. intros Hb Hlr Hr.
  assert ((l <? r)%nat = true) as Hlt by (by apply Nat.ltb_lt).
  rewrite Hlt in Hb.
  assert (l + (r - l) / 2 < length a)%nat as Hp.
  { pose proof (Nat.div_lt (r - l) 2). lia. }
  destruct (lookup_lt_is_Some_2 _ _ Hp) as [e He]. rewrite He in Hb.
  exists e. split; [by eapply list_elem_of_lookup_2|].
  apply Hkind. by destruct (lt k e.1).
Qed.

Lemma binarysort_linked run rest s (c : B) :
  binarysort lt run rest = Some s →
  run ≠ [] → Forall (λ e, kind e.1 = c) run →
  Forall (λ e, kind e.1 = c) rest.
Proof.
  revert run. induction rest as [|pivot rest IH]; intros run; simpl;
    [constructor|].
  destruct (bisect lt _ _ _ _ _) as [i|] eqn:Hb; simpl; [|done].
  intros Hs Hne Hrun.
  assert (kind pivot.1 = c) as Hp.
  { destruct run as [|x run]; [done|].
    destruct (bisect_linked _ _ _ _ _ _ Hb) as (e & He & ->);
      [simpl; lia|done|].
    rewrite Forall_forall in Hrun. by apply Hrun. }
  constructor; [done|]. apply (IH _ Hs).
  - by destruct (take i run).
  - apply Forall_app. split; [by apply Forall_take|].
    constructor; [done|by apply Forall_drop].
Qed.

Lemma listsort_linked l s :
  listsort lt l = Some s →
  ∀ x y, x ∈ l → y ∈ l → kind x.1 = kind y.1.
Proof.
  unfold listsort. destruct l as [|x0 l].
  { intros _ x y Hx. by apply elem_of_nil in Hx. }
  destruct (length (x0 :: l) <? 2)%nat eqn:Hlen.
  { apply Nat.ltb_lt in Hlen. destruct l; [|simpl in Hlen; lia].
    intros _ x y ->%list_elem_of_singleton ->%list_elem_of_singleton. done. }
  destruct (count_run lt (x0 :: l)) as [[n d]|] eqn:Hc; simpl; [|done].
  intros Hs.
  pose proof (count_run_linked _ _ _ _ Hc) as Hrun.
  pose proof (count_run_pos _ _ _ _ Hc) as Hpos.
  assert (Forall (λ e, kind e.1 = kind x0.1) (drop n (x0 :: l))) as Hrest.
  { apply (binarysort_linked _ _ _ _ Hs).
    - destruct n as [|n]; [lia|]. destruct d; simpl; [|done].
      rewrite reverse_cons. by destruct (reverse (take n l)).
    - destruct d; [by apply Forall_reverse|done]. }
  assert (Forall (λ e, kind e.1 = kind x0.1) (x0 :: l)) as Hall.
  { rewrite <-(take_drop n (x0 :: l)). by apply Forall_app. }
  rewrite Forall_forall in Hall. intros x y Hx Hy.
  by rewrite (Hall x Hx), (Hall y Hy).
Qed.

End linked.

(** *** The sort is ascending and stable where [<] orders the keys

    [D] holds the keys of the list. On them [<] is decided and asymmetric,
    and not-greater is transitive; this is what fails for NaN. *)

Section ordered.
Context (D : K → Prop).
Hypothesis Htotal : ∀ k1 k2, D k1 → D k2 → is_Some (lt k1 k2).
Hypothesis Hasym :
  ∀ k1 k2, D k1 → D k2 → lt k1 k2 = Some true → lt k2 k1 = Some false.
Hypothesis Htrans :
  ∀ k1 k2 k3, D k1 → D k2 → D k3 →
    lt k2 k1 = Some false → lt k3 k2 = Some false → lt k3 k1 = Some false.

Lemma lt_le_trans k1 k2 k3 :
  D k1 → D k2 → D k3 →
  lt k1 k2 = Some true → lt k3 k2 = Some false → lt k1 k3 = Some true.
Proof.
  intros H1 H2 H3 H12 H32.
  destruct (Htotal k1 k3 H1 H3) as [[] H13]; [done|].
  pose proof (Htrans k2 k3 k1 H2 H3 H1 H32 H13). congruence.
Qed.

Lemma lt_trans k1 k2 k3 :
  D k1 → D k2 → D k3 →
  lt k1 k2 = Some true → lt k2 k3 = Some true → lt k1 k3 = Some true.
Proof.
  intros H1 H2 H3 H12 H23. apply (lt_le_trans k1 k2 k3); try done.
  by apply Hasym.
Qed.

Lemma run_length_chain d x0 l n :
  run_length lt d x0.1 l = Some n →
  Sorted (λ e1 e2, lt e2.1 e1.1 = Some d) (x0 :: take n l).
Proof.
  revert x0 n. induction l as [|x l IH]; intros x0 n; simpl.
  - intros [= <-]. by repeat constructor.
  - destruct (lt x.1 x0.1) as [b|] eqn:Hlt; simpl; [|done].
    destruct (Bool.eqb b d) eqn:Hbd; [|intros [= <-]; by repeat constructor].
    apply Bool.eqb_prop in Hbd as ->.
    destruct (run_length lt d x.1 l) as [n'|] eqn:Hn; simpl; [|done].
    intros [= <-]. simpl. constructor; [by apply IH|by constructor].
Qed.

Lemma count_run_chain l n d :
  count_run lt l = Some (n, d) →
  Sorted (λ e1 e2, lt e2.1 e1.1 = Some d) (take n l).
Proof.
  destruct l as [|x0 [|x1 l]]; simpl.
  - intros [= <- <-]. constructor.
  - intros [= <- <-]. by repeat constructor.
  - destruct (lt x1.1 x0.1) as [b|] eqn:Hlt; simpl; [|done].
    destruct (run_length lt b x1.1 l) as [n'|] eqn:Hn; simpl; [|done].
    intros [= <- <-]. simpl.
    constructor; [by apply run_length_chain|by constructor].
Qed.

(** The place found by the binary search: the elements before it are not
    greater than the pivot, the elements from it on are greater. *)
Lemma bisect_spec fuel k a (l r i : nat) :
  D k → Forall (λ e, D e.1) a →
  StronglySorted (λ e1 e2, lt e2.1 e1.1 = Some false) a →
  (l ≤ r)%nat → (r ≤ length a)%nat → (r - l ≤ fuel)%nat →
  Forall (λ e, lt k e.1 = Some false) (take l a) →
  Forall (λ e, lt k e.1 = Some true) (drop r a) →
  bisect lt fuel k a l r = Some i →
  Forall (λ e, lt k e.1 = Some false) (take i a) ∧
  Forall (λ e, lt k e.1 = Some true) (drop i a).
Proof.
  intros Hk Ha Hsorted. revert l r.
  induction fuel as [|fuel IH]; intros l r Hlr Hr Hfuel Hleft Hright; simpl.
  { intros [= <-]. assert (r = l) as -> by lia. done. }
  destruct (l <? r)%nat eqn:Hlt.
  2:{ intros [= <-]. apply Nat.ltb_ge in Hlt. assert (r = l) as -> by lia.
      done. }
  apply Nat.ltb_lt in Hlt.
  pose proof (Nat.div_lt (r - l) 2) as Hdiv.
  set (p := (l + (r - l) / 2)%nat) in *.
  assert (p < length a)%nat as Hp by (unfold p; lia).
  destruct (lookup_lt_is_Some_2 _ _ Hp) as [e He]. rewrite He.
  assert (D e.1) as Hde.
  { rewrite Forall_forall in Ha. apply Ha. by eapply list_elem_of_lookup_2. }
  assert (a = take p a ++ e :: drop (S p) a) as Hsplit.
  { by rewrite <-(drop_S _ _ _ He), take_drop. }
  destruct (lt k e.1) as [[]|] eqn:Hke; simpl; [| |done].
  - apply IH; [unfold p; lia|lia|unfold p; lia|done|].
    rewrite (drop_S _ _ _ He). constructor; [done|].
    rewrite Hsplit in Hsorted. apply StronglySorted_app_1_r in Hsorted.
    apply StronglySorted_cons in Hsorted as [Hafter _].
    rewrite Forall_forall in Hafter, Ha. apply Forall_forall.
    intros e' He'. apply (lt_le_trans k e.1 e'.1); try done.
    + apply Ha. by eapply subseteq_drop.
    + by apply Hafter.
  - apply IH; [unfold p; lia|lia|unfold p; lia| |done].
    rewrite (take_S_r _ _ _ He). apply Forall_app. split; [|by repeat constructor].
    rewrite Forall_forall in Ha. apply Forall_forall. intros e' He'.
    apply (Htrans e'.1 e.1 k); try done.
    + apply Ha. by eapply subseteq_take.
    + rewrite Hsplit in Hsorted.
      apply (StronglySorted_app_1_elem_of _ _ _ e' e Hsorted); [done|by left].
Qed.

(** Putting the pivot at the place found keeps the list ascending, and
    behind every element of a class of keys that are not greater than one
    another. *)
Lemma insert_at_sorted (i : nat) pivot run :
  D pivot.1 → Forall (λ e, D e.1) run →
  StronglySorted (λ e1 e2, lt e2.1 e1.1 = Some false) run →
  Forall (λ e, lt pivot.1 e.1 = Some false) (take i run) →
  Forall (λ e, lt pivot.1 e.1 = Some true) (drop i run) →
  StronglySorted (λ e1 e2, lt e2.1 e1.1 = Some false)
    (take i run ++ pivot :: drop i run).
Proof.
  intros Hp Hrun Hsorted Hbefore Hafter.
  rewrite <-(take_drop i run) in Hsorted.
  rewrite Forall_forall in Hbefore, Hafter, Hrun.
  apply StronglySorted_app_2.
  - intros e1 e2 H1 [->|H2]%elem_of_cons; [by apply Hbefore|].
    by apply (StronglySorted_app_1_elem_of _ _ _ e1 e2 Hsorted).
  - by eapply StronglySorted_app_1_l.
  - constructor; [by eapply StronglySorted_app_1_r|].
    apply Forall_forall. intros e He. apply Hasym; [done| |by apply Hafter].
    apply Hrun. by eapply subseteq_drop.
Qed.

Section classes.
Context (P : K → bool).
Hypothesis Hclass :
  ∀ k1 k2, D k1 → D k2 → P k1 = true → P k2 = true → lt k1 k2 ≠ Some true.

Lemma insert_at_filter (i : nat) pivot run :
  D pivot.1 → Forall (λ e, D e.1) run →
  Forall (λ e, lt pivot.1 e.1 = Some true) (drop i run) →
  filter (λ z, P z.1 = true) (take i run ++ pivot :: drop i run)
  = filter (λ z, P z.1 = true) (run ++ [pivot]).
Proof.
  intros Hp Hrun Hafter.
  rewrite <-(take_drop i run) at 3. rewrite !filter_app, !filter_cons, filter_nil.
  destruct (decide (P pivot.1 = true)) as [Hpp|Hpp].
  - rewrite (filter_none _ (drop i run)); [by rewrite app_nil_r|].
    rewrite Forall_forall in Hafter, Hrun. apply Forall_forall.
    intros e He HPe. apply (Hclass pivot.1 e.1); try done.
    + apply Hrun. by eapply subseteq_drop.
    + by apply Hafter.
  - by rewrite !app_nil_r.
Qed.

(** A strictly descending run holds at most one element of a class. *)
Lemma descending_filter run :
  Forall (λ e, D e.1) run →
  StronglySorted (λ e1 e2, lt e2.1 e1.1 = Some true) run →
  filter (λ z, P z.1 = true) (reverse run) = filter (λ z, P z.1 = true) run.
Proof.
  intros Hrun Hdesc. rewrite filter_reverse.
  induction Hdesc as [|x run Hdesc IH Hall]; [done|].
  apply Forall_cons in Hrun as [Hx Hrun]. rewrite filter_cons.
  destruct (decide (P x.1 = true)) as [HPx|HPx]; [|by apply IH].
  rewrite (filter_none _ run); [done|].
  rewrite Forall_forall in Hall, Hrun. apply Forall_forall.
  intros e He HPe. apply (Hclass e.1 x.1); auto.
Qed.

End classes.

Lemma binarysort_ordered run rest s :
  Forall (λ e, D e.1) run → Forall (λ e, D e.1) rest →
  StronglySorted (λ e1 e2, lt e2.1 e1.1 = Some false) run →
  binarysort lt run rest = Some s →
  StronglySorted (λ e1 e2, lt e2.1 e1.1 = Some false) s ∧
  ∀ P : K → bool,
    (∀ k1 k2, D k1 → D k2 → P k1 = true → P k2 = true →
              lt k1 k2 ≠ Some true) →
    filter (λ z, P z.1 = true) s = filter (λ z, P z.1 = true) (run ++ rest).
Proof.
  revert run. induction rest as [|pivot rest IH];
    intros run Hrun Hrest Hsorted; simpl.
  { intros [= <-]. split; [done|]. intros P _. by rewrite app_nil_r. }
  apply Forall_cons in Hrest as [Hp Hrest].
  destruct (bisect lt _ _ _ _ _) as [i|] eqn:Hb; simpl; [|done].
  destruct (bisect_spec (length run) pivot.1 run 0 (length run) i
              Hp Hrun Hsorted) as [Hbefore Hafter];
    [lia|lia|lia|by apply Forall_nil|by rewrite drop_all|done|].
  intros Hs.
  destruct (IH (take i run ++ pivot :: drop i run)) as [Hs1 Hs2]; try done.
  { apply Forall_app. split; [by apply Forall_take|].
    constructor; [done|by apply Forall_drop]. }
  { by apply insert_at_sorted. }
  split; [done|]. intros P Hclass. rewrite (Hs2 P Hclass).
  rewrite filter_app, (insert_at_filter P Hclass) by done.
  by rewrite <-filter_app, <-app_assoc.
Qed.

(** On such keys the sort returns the stable ascending arrangement. *)
Lemma listsort_ordered l s :
  Forall (λ e, D e.1) l → listsort lt l = Some s →
  StronglySorted (λ e1 e2, lt e2.1 e1.1 = Some false) s ∧
  ∀ P : K → bool,
    (∀ k1 k2, D k1 → D k2 → P k1 = true → P k2 = true →
              lt k1 k2 ≠ Some true) →
    filter (λ z, P z.1 = true) s = filter (λ z, P z.1 = true) l.
Proof.
  intros Hl. unfold listsort. destruct (length l <? 2)%nat eqn:Hlen.
  { intros [= <-]. split; [|done]. apply Nat.ltb_lt in Hlen.
    destruct l as [|x0 [|x1 l]]; [by repeat constructor..|simpl in Hlen; lia]. }
  destruct (count_run lt l) as [[n d]|] eqn:Hc; simpl; [|done].
  pose proof (count_run_chain _ _ _ Hc) as Hchain.
  assert (Forall (λ e, D e.1) (take n l)) as Hrun by (by apply Forall_take).
  assert (∀ e, e ∈ take n l → D e.1) as Hin.
  { by apply Forall_forall. }
  destruct d.
  - assert (StronglySorted (λ e1 e2, lt e2.1 e1.1 = Some true) (take n l))
      as Hdesc.
    { apply Sorted_StronglySorted_elem; [|done].
      intros e1 e2 e3 H1 H2 H3 H12 H23.
      apply (lt_trans e3.1 e2.1 e1.1); auto. }
    intros Hs.
    destruct (binarysort_ordered (reverse (take n l)) (drop n l) s)
      as [Hs1 Hs2]; [by apply Forall_reverse|by apply Forall_drop| |done|].
    { apply (StronglySorted_impl_elem (λ e1 e2, lt e1.1 e2.1 = Some true)).
      - intros e1 e2 H1 H2. rewrite elem_of_reverse in H1, H2.
        apply Hasym; auto.
      - by apply (StronglySorted_reverse
                    (λ e1 e2, lt e2.1 e1.1 = Some true)). }
    split; [done|]. intros P Hclass.
    rewrite (Hs2 P Hclass), filter_app, (descending_filter P Hclass)
      by done.
    by rewrite <-filter_app, take_drop.
  - intros Hs.
    destruct (binarysort_ordered (take n l) (drop n l) s)
      as [Hs1 Hs2]; [done|by apply Forall_drop| |done|].
    { apply Sorted_StronglySorted_elem; [|done].
      intros e1 e2 e3 H1 H2 H3. apply Htrans; auto. }
    split; [done|]. intros P Hclass.
    by rewrite (Hs2 P Hclass), take_drop.
Qed.

End ordered.

End sort_facts.

(** ** Order of binary64 numbers *)

Section float_facts.

Ltac sf_compare_cases :=
  repeat match goal with
    | |- context [Z.compare ?a ?b] => destruct (Z.compare_spec a b)
    | |- context [Pos.compare_cont Eq ?a ?b] =>
        change (Pos.compare_cont Eq a b) with (Pos.compare a b);
        destruct (Pos.compare_spec a b)
    | H : context [Z.compare ?a ?b] |- _ => destruct (Z.compare_spec a b)
    | H : context [Pos.compare_cont Eq ?a ?b] |- _ =>
        change (Pos.compare_cont Eq a b) with (Pos.compare a b) in H;
        destruct (Pos.compare_spec a b)
    end;
  simpl in *; try done; try lia.

Ltac sf_destruct :=
  repeat match goal with
    | x : spec_float |- _ => destruct x as [ [ | ] | [ | ] | | [ | ] ? ? ]
    end;
  simpl in *; try done.

Lemma SFcompare_antisym (a b : spec_float) :
  SFcompare b a = CompOpp <$> SFcompare a b.
Proof. sf_destruct; f_equal; sf_compare_cases. Qed.

Lemma SFcompare_Eq_l (a b c : spec_float) r :
  SFcompare a b = Some Eq → SFcompare b c = Some r → SFcompare a c = Some r.
Proof.
  sf_destruct; intros Hab Hbc; injection Hab as Hab; injection Hbc as Hbc;
    f_equal; sf_compare_cases.
Qed.

Lemma SFcompare_Lt_trans (a b c : spec_float) :
  SFcompare a b = Some Lt → SFcompare b c = Some Lt → SFcompare a c = Some Lt.
Proof.
  sf_destruct; intros Hab Hbc; injection Hab as Hab; injection Hbc as Hbc;
    f_equal; sf_compare_cases.
Qed.

Lemma SFcompare_opp (a b : spec_float) :
  SFcompare (SFopp a) (SFopp b) = SFcompare b a.
Proof. sf_destruct; f_equal; sf_compare_cases. Qed.

Lemma SFcompare_None (a b : spec_float) :
  SFcompare a b = None ↔ SFcompare a a = None ∨ SFcompare b b = None.
Proof. sf_destruct; intuition congruence. Qed.

Lemma float_ltb_asym (a b : float) :
  PrimFloat.ltb a b = true → PrimFloat.ltb b a = false.
Proof.
  rewrite !FloatAxioms.ltb_spec. unfold SFltb.
  rewrite (SFcompare_antisym (Prim2SF a) (Prim2SF b)).
  by destruct (SFcompare (Prim2SF a) (Prim2SF b)) as [[]|].
Qed.

(** Keys equal to one key are not smaller than one another. *)
Lemma float_eqb_class (a b k : float) :
  PrimFloat.eqb a k = true → PrimFloat.eqb b k = true →
  PrimFloat.ltb a b = false.
Proof.
  rewrite !FloatAxioms.eqb_spec, FloatAxioms.ltb_spec. unfold SFeqb, SFltb.
  destruct (SFcompare (Prim2SF a) (Prim2SF k)) as [[]|] eqn:Hak; try done.
  destruct (SFcompare (Prim2SF b) (Prim2SF k)) as [[]|] eqn:Hbk; try done.
  intros _ _.
  assert (SFcompare (Prim2SF k) (Prim2SF b) = Some Eq) as Hkb.
  { by rewrite SFcompare_antisym, Hbk. }
  by rewrite (SFcompare_Eq_l _ _ _ _ Hak Hkb).
Qed.

Lemma float_ltb_false_leb (a b : float) :
  PrimFloat.is_nan a = false → PrimFloat.is_nan b = false →
  PrimFloat.ltb b a = false → PrimFloat.leb a b = true.
Proof.
  unfold PrimFloat.is_nan. rewrite !FloatAxioms.eqb_spec, FloatAxioms.ltb_spec, FloatAxioms.leb_spec.
  unfold SFeqb, SFltb, SFleb. intros Ha Hb.
  rewrite (SFcompare_antisym (Prim2SF a) (Prim2SF b)).
  destruct (SFcompare (Prim2SF a) (Prim2SF b)) as [[]|] eqn:Hab; try done.
  apply SFcompare_None in Hab as [Hab|Hab]; rewrite Hab in *; done.
Qed.

Lemma float_leb_trans (a b c : float) :
  PrimFloat.leb a b = true → PrimFloat.leb b c = true →
  PrimFloat.leb a c = true.
Proof.
  rewrite !FloatAxioms.leb_spec. unfold SFleb.
  destruct (SFcompare (Prim2SF a) (Prim2SF b)) as [[]|] eqn:Hab; try done;
    destruct (SFcompare (Prim2SF b) (Prim2SF c)) as [[]|] eqn:Hbc; try done;
    intros _ _.
  - by rewrite (SFcompare_Eq_l _ _ _ _ Hab Hbc).
  - by rewrite (SFcompare_Eq_l _ _ _ _ Hab Hbc).
  - assert (SFcompare (Prim2SF c) (Prim2SF b) = Some Eq) as Hcb.
    { by rewrite SFcompare_antisym, Hbc. }
    assert (SFcompare (Prim2SF b) (Prim2SF a) = Some Gt) as Hba.
    { by rewrite SFcompare_antisym, Hab. }
    rewrite SFcompare_antisym, (SFcompare_Eq_l _ _ _ _ Hcb Hba). done.
  - by rewrite (SFcompare_Lt_trans _ _ _ Hab Hbc).
Qed.

(** Negating both keys reverses [<] and keeps [==]. *)
Lemma float_opp_ltb (a b : float) :
  PrimFloat.ltb (- a) (- b) = PrimFloat.ltb b a.
Proof. by rewrite !FloatAxioms.ltb_spec, !FloatAxioms.opp_spec; unfold SFltb; rewrite SFcompare_opp. Qed.

Lemma float_opp_eqb (a b : float) :
  PrimFloat.eqb (- a) (- b) = PrimFloat.eqb a b.
Proof.
  rewrite !FloatAxioms.eqb_spec, !FloatAxioms.opp_spec. unfold SFeqb.
  rewrite SFcompare_opp, SFcompare_antisym.
  by destruct (SFcompare (Prim2SF a) (Prim2SF b)) as [[]|].
Qed.

Lemma float_leb_antisym (a b : float) :
  PrimFloat.leb a b = true → PrimFloat.leb b a = true →
  PrimFloat.eqb a b = true.
Proof.
  rewrite !FloatAxioms.leb_spec, FloatAxioms.eqb_spec. unfold SFleb, SFeqb.
  rewrite (SFcompare_antisym (Prim2SF a) (Prim2SF b)).
  by destruct (SFcompare (Prim2SF a) (Prim2SF b)) as [[]|].
Qed.

Lemma float_ltb_leb (a b : float) :
  PrimFloat.ltb a b = true → PrimFloat.leb a b = true.
Proof.
  rewrite FloatAxioms.ltb_spec, FloatAxioms.leb_spec. unfold SFltb, SFleb.
  by destruct (SFcompare (Prim2SF a) (Prim2SF b)) as [[]|].
Qed.

Lemma float_leb_refl (a : float) :
  PrimFloat.is_nan a = false → PrimFloat.leb a a = true.
Proof.
  intros Ha. apply float_ltb_false_leb; [done..|].
  destruct (PrimFloat.ltb a a) eqn:Hlt; [|done].
  by rewrite (float_ltb_asym _ _ Hlt) in Hlt.
Qed.

Lemma float_opp_leb (a b : float) :
  PrimFloat.leb (- a) (- b) = PrimFloat.leb b a.
Proof. by rewrite !FloatAxioms.leb_spec, !FloatAxioms.opp_spec; unfold SFleb; rewrite SFcompare_opp. Qed.

Lemma float_leb_ltb_false (a b : float) :
  PrimFloat.leb a b = true → PrimFloat.ltb b a = false.
Proof.
  rewrite FloatAxioms.leb_spec, FloatAxioms.ltb_spec. unfold SFleb, SFltb.
  rewrite (SFcompare_antisym (Prim2SF a) (Prim2SF b)).
  by destruct (SFcompare (Prim2SF a) (Prim2SF b)) as [[]|].
Qed.

End float_facts.

(** ** [sorted] on keys *)

Section py_sorted_facts.
Context {A : Type}.
Implicit Types (a b k : pyval) (data out : list A).

Lemma py_lt_is_Some a b : is_Some (py_lt a b) ↔ is_num a = is_num b.
Proof. destruct a, b; simpl; split; by (intros [??] || eauto). Qed.

Lemma string_ltb_irrefl (s : string) : String.ltb s s = false.
Proof.
  unfold String.ltb. pose proof (String.compare_antisym s s) as Hc.
  by destruct (String.compare s s).
Qed.

(** Keys equal to one key are not smaller than one another. *)
Lemma py_eq_class a b k :
  py_eq a k = true → py_eq b k = true → py_lt b a ≠ Some true.
Proof.
  destruct a as [x|s], b as [y|t], k as [z|u]; simpl; try done.
  - intros Hx Hy. by rewrite (float_eqb_class y x z).
  - intros ->%String.eqb_eq ->%String.eqb_eq. by rewrite string_ltb_irrefl.
Qed.

Lemma mixed_false (keys : list pyval) :
  mixed keys = false ↔ ∀ a b, a ∈ keys → b ∈ keys → is_num a = is_num b.
Proof.
  unfold mixed. rewrite andb_false_iff. split.
  - intros Hm a b Ha Hb.
    destruct Hm as [Hm|Hm].
    + assert (∀ c, c ∈ keys → is_num c = false) as Hall.
      { intros c Hc. destruct (is_num c) eqn:Hn; [|done].
        rewrite <-Hm. symmetry. apply existsb_exists. exists c.
        by rewrite <-list_elem_of_In. }
      by rewrite (Hall a), (Hall b).
    + assert (∀ c, c ∈ keys → is_num c = true) as Hall.
      { intros c Hc. destruct (is_num c) eqn:Hn; [done|].
        rewrite <-Hm. apply existsb_exists. exists c.
        rewrite <-list_elem_of_In, Hn. done. }
      by rewrite (Hall a), (Hall b).
  - intros Hall.
    destruct (existsb is_num keys) eqn:H1; [|by left].
    destruct (existsb (λ v, negb (is_num v)) keys) eqn:H2; [|by right].
    apply existsb_exists in H1 as (a & Ha%list_elem_of_In & Hna).
    apply existsb_exists in H2 as (b & Hb%list_elem_of_In & Hnb).
    rewrite (Hall a b Ha Hb) in Hna. by rewrite Hna in Hnb.
Qed.

(** Sorting raises [TypeError] exactly on keys of both kinds. *)
Lemma listsort_py_lt_None (l : list (pyval * A)) :
  listsort py_lt l = None ↔ mixed (l.*1) = true.
Proof.
  split.
  - intros Hnone. destruct (mixed (l.*1)) eqn:Hm; [done|].
    destruct (listsort_is_Some py_lt l) as [s Hs]; [|congruence].
    intros x y Hx Hy. apply py_lt_is_Some.
    eapply mixed_false; [done|by apply list_elem_of_fmap_2..].
  - intros Hm. destruct (listsort py_lt l) as [s|] eqn:Hs; [|done].
    assert (mixed (l.*1) = false); [|congruence]. apply mixed_false.
    intros a b (x & -> & Hx)%list_elem_of_fmap (y & -> & Hy)%list_elem_of_fmap.
    apply (listsort_linked py_lt is_num) with (l:=l) (s:=s); try done.
    intros k1 k2. apply py_lt_is_Some.
Qed.

Lemma comprehension_pure {B : Type} (g : A → B) data :
  comprehension (λ r, Ok (g r)) data = Ok (g <$> data).
Proof. induction data as [|r data IH]; simpl; [done|]. by rewrite IH. Qed.

Lemma comprehension_Ok {B : Type} (f : A → result B) data ys :
  comprehension f data = Ok ys ↔ Forall2 (λ r y, f r = Ok y) data ys.
Proof.
  revert ys. induction data as [|r data IH]; intros ys; simpl.
  - split; [intros [= <-]; constructor|by intros ->%Forall2_nil_inv_l].
  - destruct (f r) as [y|e] eqn:Hr; simpl.
    + destruct (comprehension f data) as [ys'|e]; simpl.
      * split.
        -- intros [= <-]. constructor; [done|by apply IH].
        -- intros (y' & ys'' & Hy & Hys & ->)%Forall2_cons_inv_l.
           apply IH in Hys. congruence.
      * split; [done|].
        intros (y' & ys'' & Hy & Hys%IH & ->)%Forall2_cons_inv_l. done.
    + split; [done|].
      intros (y' & ys'' & Hy & _)%Forall2_cons_inv_l. congruence.
Qed.

(** An exception of a comprehension is the exception of one of its rows. *)
Lemma comprehension_Raise {B : Type} (f : A → result B) data e :
  comprehension f data = Raise e → ∃ r, r ∈ data ∧ f r = Raise e.
Proof.
  induction data as [|r data IH]; simpl; [done|].
  destruct (f r) as [y|e'] eqn:Hr; simpl.
  - destruct (comprehension f data) as [ys'|e']; simpl; [done|].
    intros [= ->]. destruct (IH eq_refl) as (r' & Hr' & He).
    exists r'. split; [by right|done].
  - intros [= ->]. exists r. split; [by left|done].
Qed.

Lemma zip_fmap_keys (g : A → pyval) data :
  zip (g <$> data) data = (λ r, (g r, r)) <$> data.
Proof.
  induction data as [|r data IH]; [done|].
  rewrite !fmap_cons. simpl. f_equal. apply IH.
Qed.

Lemma py_sorted_pure (g : A → pyval) data :
  py_sorted py_lt (λ r, Ok (g r)) data =
  match listsort py_lt ((λ r, (g r, r)) <$> data) with
  | Some s => Ok (s.*2)
  | None => Raise TypeError
  end.
Proof.
  unfold py_sorted. rewrite comprehension_pure. simpl.
  by rewrite zip_fmap_keys.
Qed.

(** When no key raises, the key function can be replaced by its values. *)
Lemma py_sorted_key_of (key : A → result pyval) data keys :
  comprehension key data = Ok keys →
  py_sorted py_lt key data = py_sorted py_lt (λ r, Ok (key_of key r)) data.
Proof.
  intros Hk. unfold py_sorted. rewrite Hk, comprehension_pure.
  assert (keys = key_of key <$> data) as ->; [|done].
  apply comprehension_Ok in Hk.
  induction Hk as [|r k data keys Hr _ IH]; [done|].
  rewrite fmap_cons. unfold key_of at 1. by rewrite Hr, IH.
Qed.

Lemma decorated_filter (g : A → pyval) (P : pyval → bool)
  (s : list (pyval * A)) :
  (∀ z, z ∈ s → z.1 = g z.2) →
  (filter (λ z, P z.1 = true) s).*2 = filter (λ r, P (g r) = true) (s.*2).
Proof.
  induction s as [|z s IH]; intros Hg; [done|].
  rewrite fmap_cons, !filter_cons, (Hg z) by (by left).
  destruct (decide (P (g z.2) = true)); [rewrite fmap_cons; f_equal|];
    apply IH; intros z' Hz'; apply Hg; by right.
Qed.

Lemma py_lt_asym a b : py_lt a b = Some true → py_lt b a = Some false.
Proof.
  destruct a as [x|s], b as [y|t]; simpl; try done; intros [= Hlt]; f_equal.
  - by apply float_ltb_asym.
  - unfold String.ltb in *. rewrite String.compare_antisym.
    by destruct (String.compare s t).
Qed.

Lemma py_lt_false_le a b :
  py_eq a a = true → py_eq b b = true →
  py_lt b a = Some false → py_le a b = true.
Proof.
  destruct a as [x|s], b as [y|t]; simpl; try done.
  - intros Hx Hy [= Hlt]. apply float_ltb_false_leb; [..|done];
      unfold PrimFloat.is_nan; by rewrite ?Hx, ?Hy.
  - intros _ _ [= Hlt]. unfold String.ltb, String.leb in *.
    rewrite String.compare_antisym. by destruct (String.compare t s).
Qed.

Lemma py_le_antisym a b :
  py_le a b = true → py_le b a = true → py_eq a b = true.
Proof.
  destruct a as [x|s], b as [y|t]; simpl; try done.
  - apply float_leb_antisym.
  - intros Hst Hts. apply String.eqb_eq. by apply String.leb_antisym.
Qed.

#[local] Instance py_le_transitive :
  Transitive (λ a b : pyval, py_le a b = true).
Proof.
  intros [x|s] [y|t] [z|u]; simpl; try done.
  - apply float_leb_trans.
  - intros Hst Htu. apply Is_true_true.
    change (String.le s u). transitivity t; by apply Is_true_true.
Qed.

Lemma py_le_lt_false a b : py_le a b = true → py_lt b a = Some false.
Proof.
  destruct a as [x|s], b as [y|t]; simpl; try done; intros Hle; f_equal.
  - by apply float_leb_ltb_false.
  - unfold String.ltb, String.leb in *. rewrite String.compare_antisym.
    by destruct (String.compare s t).
Qed.

(** On keys without NaN the sort returns the stable ascending arrangement
    of the decorated rows. *)
Lemma listsort_py_ordered (l s : list (pyval * A)) :
  (∀ z, z ∈ l → py_eq z.1 z.1 = true) →
  listsort py_lt l = Some s →
  StronglySorted (λ z1 z2, py_le z1.1 z2.1 = true) s ∧
  ∀ k, filter (λ z, py_eq z.1 k = true) s
       = filter (λ z, py_eq z.1 k = true) l.
Proof.
  intros Hord Hs.
  assert (∀ z1 z2, z1 ∈ l → z2 ∈ l → is_num z1.1 = is_num z2.1) as Hkind.
  { apply (listsort_linked py_lt is_num) with (s:=s); [|done].
    intros k1 k2. apply py_lt_is_Some. }
  destruct (listsort_ordered (A:=A) py_lt (λ k : pyval, ∃ z, z ∈ l ∧ z.1 = k))
    with (l:=l) (s:=s) as [Hsorted Hstable].
  - intros k1 k2 (z1 & H1 & <-) (z2 & H2 & <-). apply py_lt_is_Some.
    by apply Hkind.
  - intros k1 k2 _ _. apply py_lt_asym.
  - intros k1 k2 k3 (z1 & H1 & <-) (z2 & H2 & <-) (z3 & H3 & <-) H21 H32.
    apply py_le_lt_false. apply (py_le_transitive _ z2.1);
      apply py_lt_false_le; auto.
  - apply Forall_forall. intros z Hz. by exists z.
  - done.
  - split.
    + apply (StronglySorted_impl_elem
               (λ z1 z2 : pyval * A, py_lt z2.1 z1.1 = Some false)); [|done].
      intros z1 z2 H1 H2. rewrite (listsort_perm _ _ _ Hs) in H1, H2.
      apply py_lt_false_le; auto.
    + intros k. apply (Hstable (λ a, py_eq a k)).
      intros k1 k2 _ _ H1 H2. by apply (py_eq_class k2 k1 k).
Qed.

(** On keys without NaN [sorted] returns the rows in a stable
    arrangement. *)
Lemma py_sorted_stable (g : A → pyval) data out :
  py_sorted py_lt (λ r, Ok (g r)) data = Ok out →
  keys_ordered g data → stable_by g data out.
Proof.
  rewrite py_sorted_pure.
  destruct (listsort py_lt _) as [s|] eqn:Hs; [|done]. intros [= <-] Hord.
  pose proof (listsort_perm _ _ _ Hs) as Hperm.
  assert (((λ r, (g r, r)) <$> data).*2 = data) as Hsnd.
  { rewrite <-list_fmap_compose. apply list_fmap_id. }
  assert (∀ z, z ∈ s → z.1 = g z.2) as Hdec.
  { intros z. rewrite Hperm. by intros (r & -> & _)%list_elem_of_fmap. }
  destruct (listsort_py_ordered ((λ r, (g r, r)) <$> data) s)
    as [_ Hstable]; [|done|].
  { intros z (r & -> & Hr)%list_elem_of_fmap. by apply Hord. }
  split.
  - by rewrite Hperm, Hsnd.
  - intros k.
    rewrite <-(decorated_filter g (λ a, py_eq a k) s Hdec), Hstable.
    rewrite (decorated_filter g (λ a, py_eq a k)), Hsnd; [done|].
    by intros z (r & -> & _)%list_elem_of_fmap.
Qed.

(** [sorted] returns an arrangement of the rows. *)
Lemma py_sorted_pure_perm (g : A → pyval) data out :
  py_sorted py_lt (λ r, Ok (g r)) data = Ok out → out ≡ₚ data.
Proof.
  rewrite py_sorted_pure.
  destruct (listsort py_lt _) as [s|] eqn:Hs; [|done]. intros [= <-].
  rewrite (listsort_perm _ _ _ Hs), <-list_fmap_compose.
  by rewrite list_fmap_id.
Qed.

(** [sorted] returns unless keys of both kinds are present. *)
Lemma py_sorted_Raise (g : A → pyval) data e :
  py_sorted py_lt (λ r, Ok (g r)) data = Raise e ↔
  e = TypeError ∧ mixed (g <$> data) = true.
Proof.
  rewrite py_sorted_pure.
  assert (((λ r, (g r, r)) <$> data).*1 = g <$> data) as Hfst.
  { by rewrite <-list_fmap_compose. }
  destruct (listsort py_lt _) as [s|] eqn:Hs.
  - split; [done|]. intros [_ Hm]. rewrite <-Hfst in Hm.
    apply listsort_py_lt_None in Hm. congruence.
  - apply listsort_py_lt_None in Hs. rewrite Hfst in Hs.
    split; [by intros [= <-]|by intros [-> _]].
Qed.

(** On keys without NaN [sorted] returns the rows in ascending key
    order. *)
Lemma py_sorted_ascending (g : A → pyval) data out :
  py_sorted py_lt (λ r, Ok (g r)) data = Ok out →
  keys_ordered g data → ascending_by g out.
Proof.
  rewrite py_sorted_pure.
  destruct (listsort py_lt _) as [s|] eqn:Hs; [|done]. intros [= <-] Hord.
  pose proof (listsort_perm _ _ _ Hs) as Hperm.
  destruct (listsort_py_ordered ((λ r, (g r, r)) <$> data) s)
    as [Hsorted _]; [|done|].
  { intros z (r & -> & Hr)%list_elem_of_fmap. by apply Hord. }
  apply (StronglySorted_fmap snd (λ z1 z2 : pyval * A,
           py_le (g z1.2) (g z2.2) = true)); [done|].
  apply (StronglySorted_impl_elem (λ z1 z2 : pyval * A,
           py_le z1.1 z2.1 = true)); [|done].
  intros z1 z2. rewrite !Hperm.
  by intros (ra & -> & Ha)%list_elem_of_fmap (rb & -> & Hb)%list_elem_of_fmap.
Qed.

(** A stable ascending arrangement is unique: two lists with the same rows,
    the same order within every class of equal keys, and ascending keys are
    the same list. So on keys without NaN every stable sort returns what
    [py_sorted] returns. *)
Lemma stable_sorted_unique (g : A → pyval) (out1 out2 : list A) :
  out1 ≡ₚ out2 →
  (∀ k, filter (λ r, py_eq (g r) k = true) out1
        = filter (λ r, py_eq (g r) k = true) out2) →
  keys_ordered g out1 →
  ascending_by g out1 → ascending_by g out2 → out1 = out2.
Proof.
  revert out2. induction out1 as [|a t1 IH]; intros out2 Hperm Hcls Hord H1 H2.
  { by apply Permutation_nil_l in Hperm. }
  destruct out2 as [|b t2]; [by apply Permutation_nil_r in Hperm|].
  apply StronglySorted_inv in H1 as [H1 Ha], H2 as [H2 Hb].
  assert (a = b) as <-.
  { assert (b ∈ a :: t1) as Hin by (rewrite Hperm; by left).
    assert (a ∈ b :: t2) as Hin' by (rewrite <-Hperm; by left).
    apply elem_of_cons in Hin as [->|Hin]; [done|].
    apply elem_of_cons in Hin' as [->|Hin']; [done|].
    rewrite Forall_forall in Ha, Hb.
    assert (py_eq (g a) (g b) = true) as Hab.
    { apply py_le_antisym; [by apply Ha|by apply Hb]. }
    specialize (Hcls (g b)). rewrite !filter_cons in Hcls.
    assert (py_eq (g b) (g b) = true) as Hbb.
    { apply Hord. by right. }
    destruct (decide (py_eq (g a) (g b) = true)); [|done].
    destruct (decide (py_eq (g b) (g b) = true)); [|done].
    by injection Hcls. }
  f_equal. apply IH; [by eapply Permutation_cons_inv| |..|done|done].
  - intros k. specialize (Hcls k). rewrite !filter_cons in Hcls.
    destruct (decide (py_eq (g a) k = true)); [by injection Hcls|done].
  - intros r Hr. apply Hord. by right.
Qed.

End py_sorted_facts.

Section sorted_perm.
Context {K A : Type} (lt : K → K → option bool).

Lemma py_sorted_perm (key : A → result K) (data out : list A) :
  py_sorted lt key data = Ok out → out ≡ₚ data.
Proof.
  unfold py_sorted.
  destruct (comprehension key data) as [keys|e] eqn:Hk; simpl; [|done].
  destruct (listsort lt (zip keys data)) as [s|] eqn:Hs; [|done].
  intros [= <-]. rewrite (listsort_perm _ _ _ Hs).
  rewrite snd_zip; [done|].
  apply comprehension_Ok, Forall2_length in Hk. lia.
Qed.

End sorted_perm.

(** ** Filtering *)

Section filter_facts.
Context `{Builtins}.
Implicit Types (column operator value condition : string).

Lemma core_filter_loop column operator value (data acc : list Core.row) :
  fold_left (λ filtered_data r,
      match r !! column with
      | None => filtered_data
      | Some row_value =>
          if Core.condition_met operator value row_value
          then filtered_data ++ [r]
          else filtered_data
      end) data acc
  = acc ++ filter (λ r, core_selects column operator value r = true) data.
Proof.
  revert acc. induction data as [|r data IH]; intros acc; simpl.
  - by rewrite app_nil_r.
  - rewrite IH, filter_cons.
    destruct (decide (core_selects column operator value r = true)) as [Hs|Hs];
      unfold core_selects in Hs; destruct (r !! column) as [row_value|];
      try done.
    + rewrite Hs. by rewrite <-app_assoc.
    + by destruct (Core.condition_met operator value row_value).
Qed.

Lemma filter_bool_idemp {A : Type} (P : A → bool) (data : list A) :
  filter (λ r, P r = true) (filter (λ r, P r = true) data)
  = filter (λ r, P r = true) data.
Proof.
  induction data as [|r data IH]; [done|]. rewrite filter_cons.
  destruct (decide (P r = true)) as [Hr|Hr]; [|done].
  rewrite filter_cons. destruct (decide (P r = true)); [|done].
  by rewrite IH.
Qed.

Lemma core_apply_filter_eq data condition column operator value :
  parse_condition condition = Ok (column, operator, value) →
  Core.apply_filter data condition
  = Ok (filter (λ r, core_selects column operator value r = true) data).
Proof.
  intros Hp. unfold Core.apply_filter. rewrite Hp. simpl.
  by rewrite core_filter_loop.
Qed.

Lemma core_apply_filter_Raise data condition e :
  Core.apply_filter data condition = Raise e ↔ parse_condition condition = Raise e.
Proof.
  unfold Core.apply_filter.
  destruct (parse_condition condition) as [[[??]?]|]; simpl; split; congruence.
Qed.

Lemma main_filter_body column operator value (acc : list Main.row) r :
  (row_value ← getitem r column;
   met ← Main.condition_met operator value row_value;
   Ok (if met : bool then acc ++ [r] else acc))
  = (met ← main_selects column operator value r;
     Ok (if met : bool then acc ++ [r] else acc)).
Proof. unfold main_selects. by destruct (getitem r column). Qed.

Lemma main_filter_loop column operator value (data acc out : list Main.row) :
  for_each (λ filtered_data r,
      row_value ← getitem r column;
      met ← Main.condition_met operator value row_value;
      Ok (if met : bool then filtered_data ++ [r] else filtered_data))
    data acc = Ok out ↔
  Forall (λ r, ∃ b, main_selects column operator value r = Ok b) data ∧
  out = acc ++ filter (λ r,
          is_ok_true (main_selects column operator value r) = true) data.
Proof.
  revert acc. induction data as [|r data IH]; intros acc; simpl.
  - rewrite app_nil_r. split; [intros [= <-]; by split|by intros [_ ->]].
  - rewrite main_filter_body, filter_cons.
    destruct (main_selects column operator value r) as [[]|e] eqn:Hr; simpl.
    + rewrite IH, <-app_assoc. split; intros [Hall ->]; (split; [|done]).
      * constructor; eauto.
      * by apply Forall_cons in Hall as [_ ?].
    + rewrite IH. split; intros [Hall ->]; (split; [|done]).
      * constructor; eauto.
      * by apply Forall_cons in Hall as [_ ?].
    + split; [done|]. intros [[[b Hb] _]%Forall_cons _]. congruence.
Qed.

Lemma main_apply_filter_Ok data condition column operator value out :
  parse_condition condition = Ok (column, operator, value) →
  Main.apply_filter data condition = Ok out ↔
  Forall (λ r, ∃ b, main_selects column operator value r = Ok b) data ∧
  out = filter (λ r,
          is_ok_true (main_selects column operator value r) = true) data.
Proof.
  intros Hp. unfold Main.apply_filter. rewrite Hp. simpl.
  by rewrite main_filter_loop.
Qed.

Lemma operators_cases operator :
  operator ∈ operators →
  operator = ">=" ∨ operator = "<=" ∨ operator = "=" ∨ operator = ">"
  ∨ operator = "<".
Proof.
  unfold operators. rewrite !elem_of_cons, elem_of_nil. tauto.
Qed.

(** On cells and an operand that convert to floats the decision of a row is
    the numeric predicate. *)
Lemma core_selects_numeric column operator value r cell x v :
  operator ∈ operators →
  r !! column = Some cell → Core.as_float cell = Ok x →
  py_float value = Some v →
  core_selects column operator value r = numeric_predicate operator x v.
Proof.
  intros Hop Hr Hx Hv.
  unfold core_selects, Core.condition_met, Core.numeric_test, float_of.
  rewrite Hr, Hx, Hv. simpl.
  by destruct (operators_cases _ Hop) as [->|[->|[->|[->| ->]]]].
Qed.

Lemma main_selects_numeric column operator value r s x v :
  operator ∈ operators →
  r !! column = Some s → py_float s = Some x → py_float value = Some v →
  main_selects column operator value r = Ok (numeric_predicate operator x v).
Proof.
  intros Hop Hr Hx Hv.
  unfold main_selects, getitem, Main.condition_met, Main.numeric_test, float_of.
  rewrite Hr. simpl. rewrite Hx, Hv. simpl.
  by destruct (operators_cases _ Hop) as [->|[->|[->|[->| ->]]]].
Qed.

(** When a side does not convert, the decision is the lexicographic
    predicate where it is defined; where it is not, core.py drops the row
    and main.py raises. *)
Lemma core_selects_string column operator value r cell :
  r !! column = Some cell →
  Core.as_float cell = Raise (ValueError FloatConversion)
  ∨ py_float value = None →
  core_selects column operator value r
  = default false (string_predicate operator (str cell) value).
Proof.
  intros Hr Hfail.
  unfold core_selects, Core.condition_met, Core.numeric_test, float_of.
  rewrite Hr.
  assert (∀ b : bool, Core.string_test operator value cell = b →
            default false (string_predicate operator (str cell) value) = b)
    as Hs.
  { intros b <-. unfold Core.string_test, string_predicate.
    by repeat destruct (String.eqb operator _). }
  destruct Hfail as [->|Hv]; simpl; [by rewrite (Hs _ eq_refl)|].
  destruct (Core.as_float cell); simpl; [|by rewrite (Hs _ eq_refl)].
  rewrite Hv. simpl. by rewrite (Hs _ eq_refl).
Qed.

Lemma main_selects_string column operator value r s :
  r !! column = Some s →
  py_float s = None ∨ py_float value = None →
  main_selects column operator value r
  = match string_predicate operator s value with
    | Some b => Ok b
    | None => Raise (ValueError UnsupportedOperator)
    end.
Proof.
  intros Hr Hfail.
  unfold main_selects, getitem, Main.condition_met, Main.numeric_test, float_of.
  rewrite Hr. simpl.
  assert (Main.string_test operator value s
          = match string_predicate operator s value with
            | Some b => Ok b
            | None => Raise (ValueError UnsupportedOperator)
            end) as Hs.
  { unfold Main.string_test, string_predicate.
    by repeat destruct (String.eqb operator _). }
  destruct Hfail as [->|Hv]; simpl; [done|].
  destruct (py_float s); simpl; [|done]. by rewrite Hv.
Qed.


(** C9. Filtering the output of a filter again with the same condition
    returns that output unchanged; when the first filter raises there is no
    output and the exception is the result. *)
Theorem apply_filter_idempotent condition :
  (∀ data : list Core.row,
     (out ← Core.apply_filter data condition; Core.apply_filter out condition)
     = Core.apply_filter data condition) ∧
  (∀ data : list Main.row,
     (out ← Main.apply_filter data condition; Main.apply_filter out condition)
     = Main.apply_filter data condition).
Proof.
  destruct (parse_condition condition) as [[[column operator] value]|e] eqn:Hp.
  - split; intros data.
    + rewrite (core_apply_filter_eq data _ _ _ _ Hp). simpl.
      rewrite (core_apply_filter_eq _ _ _ _ _ Hp). by rewrite filter_bool_idemp.
    + destruct (Main.apply_filter data condition) as [out|e] eqn:Hf; [|done].
      simpl. apply (main_apply_filter_Ok _ _ _ _ _ _ Hp) in Hf as [Hall ->].
      apply (main_apply_filter_Ok _ _ _ _ _ _ Hp).
      split; [|by rewrite filter_bool_idemp].
      apply Forall_forall. intros r [_ Hr]%list_elem_of_filter.
      by eapply Forall_forall in Hall.
  - split; intros data.
    + unfold Core.apply_filter. by rewrite Hp.
    + unfold Main.apply_filter. by rewrite Hp.
Qed.

End filter_facts.

(** ** Aggregation *)

Section aggregation_facts.
Context `{Builtins}.
Implicit Types (column operation condition : string).

Lemma comprehension_first_Raise {A B : Type} (f : A → result B)
  (before after : list A) r e :
  Forall (λ r', (∃ y, f r' = Ok y) ∨ f r' = Raise e) before →
  f r = Raise e →
  comprehension f (before ++ r :: after) = Raise e.
Proof.
  intros Hb Hr. induction Hb as [|r' before [[y Hy]|Hy] _ IH]; simpl.
  - by rewrite Hr.
  - by rewrite Hy, IH.
  - by rewrite Hy.
Qed.

(** core.py: one cell that does not convert aborts the aggregation. *)
Lemma core_non_numeric_aborts (data : list Core.row) condition column
  operation r s :
  split_spec condition = Ok (column, operation) →
  is_Some (Core.AGGREGATIONS !! operation) →
  r ∈ data → r !! column = Some (Str s) → py_float s = None →
  Core.apply_aggregation data condition = Raise (ValueError NonNumericColumn).
Proof.
  intros Hsp [aggregate Hagg] Hr Hcell Hs.
  unfold Core.apply_aggregation. rewrite Hsp. simpl. rewrite Hagg.
  assert (Str s ∈ omap (λ r : Core.row, r !! column) data) as Hin.
  { apply list_elem_of_omap. eauto. }
  apply list_elem_of_split in Hin as (before & after & ->).
  rewrite (comprehension_first_Raise _ before after (Str s)
             (ValueError FloatConversion)); [done| |].
  - apply Forall_forall. intros [x|t] _; simpl; [eauto|].
    unfold float_of. destruct (py_float t); eauto.
  - simpl. unfold float_of. by rewrite Hs.
Qed.

(** main.py: the same, when the rows before the offending one have the
    column. *)
Lemma main_non_numeric_aborts (before after : list Main.row) condition
  column operation r s :
  split_spec condition = Ok (column, operation) →
  is_Some (Main.AGGREGATIONS !! operation) →
  Forall (λ r', is_Some (r' !! column)) before →
  r !! column = Some s → py_float s = None →
  Main.apply_aggregation (before ++ r :: after) condition
  = Raise (ValueError NonNumericColumn).
Proof.
  intros Hsp [aggregate Hagg] Hbefore Hcell Hs.
  unfold Main.apply_aggregation. rewrite Hsp. simpl. rewrite Hagg.
  rewrite (comprehension_first_Raise _ before after r
             (ValueError FloatConversion)); [done| |].
  - eapply Forall_impl; [done|]. intros r' [t Ht]. simpl.
    unfold getitem, float_of. rewrite Ht. simpl. destruct (py_float t); eauto.
  - unfold getitem, float_of. rewrite Hcell. simpl. by rewrite Hs.
Qed.

(** C7. With a well-formed spec, a cell of the column that does not convert
    to a float makes the aggregation raise the non-numeric-column
    [ValueError] instead of a result, whatever the operation: the six of
    core.py, [count] included, and the four of main.py (there, provided the
    rows before the offending one have the column). *)
Theorem aggregation_non_numeric condition column operation :
  split_spec condition = Ok (column, operation) →
  (∀ (data : list Core.row) r s,
     is_Some (Core.AGGREGATIONS !! operation) →
     r ∈ data → r !! column = Some (Str s) → py_float s = None →
     Core.apply_aggregation data condition
     = Raise (ValueError NonNumericColumn)) ∧
  (∀ (before after : list Main.row) r s,
     is_Some (Main.AGGREGATIONS !! operation) →
     Forall (λ r', is_Some (r' !! column)) before →
     r !! column = Some s → py_float s = None →
     Main.apply_aggregation (before ++ r :: after) condition
     = Raise (ValueError NonNumericColumn)) ∧
  Core.AGGREGATIONS !! "count" = Some agg_count.
Proof.
  intros Hsp. split; [|split].
  - intros. by eapply core_non_numeric_aborts.
  - intros. by eapply main_non_numeric_aborts.
  - done.
Qed.

(** Once every cell of the column converts, the result is the record of the
    operation applied to the values, in row order. *)
Lemma core_aggregation_values (data : list Core.row) condition column
  operation aggregate values :
  split_spec condition = Ok (column, operation) →
  Core.AGGREGATIONS !! operation = Some aggregate →
  comprehension Core.as_float (omap (λ r : Core.row, r !! column) data)
  = Ok values →
  values ≠ [] →
  Core.apply_aggregation data condition
  = (result ← aggregate values; Ok [AggRecord operation column result]).
Proof.
  intros Hsp Hagg Hvalues Hne.
  unfold Core.apply_aggregation. rewrite Hsp. simpl. rewrite Hagg, Hvalues.
  by destruct values.
Qed.

Lemma main_aggregation_values (data : list Main.row) condition column
  operation aggregate values :
  split_spec condition = Ok (column, operation) →
  Main.AGGREGATIONS !! operation = Some aggregate →
  comprehension (λ r : Main.row, v ← getitem r column; float_of v) data
  = Ok values →
  Main.apply_aggregation data condition
  = (result ← aggregate values; Ok [AggRecord operation column result]).
Proof.
  intros Hsp Hagg Hvalues.
  unfold Main.apply_aggregation. rewrite Hsp. simpl.
  by rewrite Hagg, Hvalues.
Qed.

(** core.py returns the null record when no row has the column, so in
    particular on an empty dataset, for each of its six operations. *)
Lemma core_aggregation_no_values (data : list Core.row) condition column
  operation :
  split_spec condition = Ok (column, operation) →
  is_Some (Core.AGGREGATIONS !! operation) →
  Forall (λ r, r !! column = None) data →
  Core.apply_aggregation data condition
  = Ok [AggRecord operation column VNone].
Proof.
  intros Hsp [aggregate Hagg] Hnone.
  unfold Core.apply_aggregation. rewrite Hsp. simpl. rewrite Hagg.
  assert (omap (λ r : Core.row, r !! column) data = []) as ->; [|done].
  induction Hnone as [|r data Hr _ IH]; [done|]. simpl. by rewrite Hr.
Qed.

(** C3. main.py has no empty-dataset check: on an empty dataset [avg] raises
    [ZeroDivisionError], [min] and [max] raise the [ValueError] of an empty
    sequence, and [median] returns the record with value [0] instead of
    [None]. *)
Theorem main_aggregation_empty :
  Main.apply_aggregation [] "salary=avg" = Raise ZeroDivisionError ∧
  Main.apply_aggregation [] "salary=min" = Raise (ValueError EmptySequence) ∧
  Main.apply_aggregation [] "salary=max" = Raise (ValueError EmptySequence) ∧
  Main.apply_aggregation [] "salary=median"
  = Ok [AggRecord "median" "salary" (VInt 0)].
Proof. repeat split; reflexivity. Qed.

Lemma elem_of_zip_same {A : Type} (x : list A) (z : A * A) :
  z ∈ zip x x → z.1 = z.2 ∧ z.2 ∈ x.
Proof.
  induction x as [|a x IH]; simpl; [by intros ?%elem_of_nil|].
  intros [->|Hz]%elem_of_cons; [split; [done|by left]|].
  destruct (IH Hz). split; [done|by right].
Qed.

#[local] Instance float_leb_transitive :
  Transitive (λ a b : float, PrimFloat.leb a b = true).
Proof. intros a b c. apply float_leb_trans. Qed.

(** [sorted(x)] on floats returns an arrangement of [x], ascending when no
    element is NaN. *)
Lemma sorted_floats (x : list float) :
  ∃ s, py_sorted float_lt Ok x = Ok s ∧ s ≡ₚ x ∧
       (Forall (λ a, PrimFloat.is_nan a = false) x →
        StronglySorted (λ a b, PrimFloat.leb a b = true) s).
Proof.
  unfold py_sorted.
  assert (comprehension Ok x = Ok x) as ->.
  { induction x as [|a x IH]; simpl; [done|]. by rewrite IH. }
  simpl. destruct (listsort_is_Some float_lt (zip x x)) as [s Hs].
  { intros. unfold float_lt. eauto. }
  rewrite Hs. exists (s.*2). split; [done|].
  pose proof (listsort_perm _ _ _ Hs) as Hperm. split.
  - by rewrite Hperm, snd_zip.
  - intros Hnan. rewrite Forall_forall in Hnan.
    destruct (listsort_ordered (A:=float) float_lt
                (λ a, PrimFloat.is_nan a = false)) with (l:=zip x x) (s:=s)
      as [Hsorted _].
    + intros. unfold float_lt. eauto.
    + intros k1 k2 _ _. unfold float_lt. intros [= Hlt].
      by rewrite (float_ltb_asym _ _ Hlt).
    + intros k1 k2 k3 H1 H2 H3. unfold float_lt. intros [= H21] [= H32].
      f_equal. apply float_leb_ltb_false.
      apply (float_leb_trans k1 k2 k3); by apply float_ltb_false_leb.
    + apply Forall_forall. intros z [-> Hz]%elem_of_zip_same. auto.
    + done.
    + apply (StronglySorted_fmap snd (λ a b, PrimFloat.leb a.2 b.2 = true));
        [done|].
      apply (StronglySorted_impl_elem
               (λ a b : float * float, float_lt b.1 a.1 = Some false));
        [|done].
      intros a b Ha Hb. rewrite Hperm in Ha, Hb.
      apply elem_of_zip_same in Ha as [Ha1 Ha], Hb as [Hb1 Hb].
      rewrite Ha1, Hb1. unfold float_lt. intros [= Hlt].
      apply float_ltb_false_leb; auto.
Qed.

(** C2, as the code has it. [median] is the same function in both tables.
    On a non-empty column without NaN it returns the element at index
    [len // 2] of the ascending arrangement: the middle element of an odd
    count, and of an even count the upper of the two middle elements. *)
Theorem median_upper_middle :
  Core.AGGREGATIONS !! "median" = Some agg_median ∧
  Main.AGGREGATIONS !! "median" = Some agg_median ∧
  ∀ x : list float,
    x ≠ [] → Forall (λ a, PrimFloat.is_nan a = false) x →
    ∃ before m after,
      agg_median x = Ok (VFloat m) ∧
      before ++ m :: after ≡ₚ x ∧
      StronglySorted (λ a b, PrimFloat.leb a b = true)
        (before ++ m :: after) ∧
      length before = (length x / 2)%nat ∧
      (∀ k : nat, length x = (2 * k + 1)%nat →
                  length before = k ∧ length after = k) ∧
      (∀ k : nat, length x = (2 * k)%nat →
                  length before = k ∧ S (length after) = k).
Proof.
  split; [done|]. split; [done|]. intros x Hx Hnan.
  destruct (sorted_floats x) as (s & Hs & Hperm & Hsorted).
  assert (length s = length x) as Hlen by (by rewrite Hperm).
  assert (length x ≠ 0%nat) as Hpos by (by destruct x).
  assert (length x / 2 < length x)%nat as Hidx.
  { apply Nat.div_lt; lia. }
  destruct (lookup_lt_is_Some_2 s (length x / 2)%nat) as [m Hm]; [lia|].
  destruct (list_elem_of_split_length _ _ _ Hm) as (before & after & -> & Hb).
  exists before, m, after.
  rewrite length_app in Hlen. simpl in Hlen.
  split; [|split; [done|split; [auto|split; [done|split]]]].
  - assert (agg_median x
            = (s ← py_sorted float_lt Ok x;
               match s !! (length x / 2)%nat with
               | Some m => Ok (VFloat m)
               | None => Raise IndexError
               end)) as -> by (by destruct x).
    rewrite Hs. unfold mbind, result_bind. by rewrite Hm.
  - intros k Hk. rewrite Hk in Hb.
    assert ((2 * k + 1) / 2 = k)%nat as Hdiv.
    { symmetry. apply (Nat.div_unique _ _ _ 1%nat); lia. }
    lia.
  - intros k Hk. rewrite Hk in Hb.
    assert ((2 * k) / 2 = k)%nat as Hdiv.
    { symmetry. apply (Nat.div_unique _ _ _ 0%nat); lia. }
    lia.
Qed.

End aggregation_facts.

(** ** Ordering *)

Section order_facts.
Context `{Builtins}.
Implicit Types (column order condition : string) (transform : pyval → pyval).

Lemma sort_orders_cases order transform :
  Core.SORT_ORDERS !! order = Some transform →
  transform = order_asc ∨ transform = order_desc.
Proof.
  unfold Core.SORT_ORDERS. intros Hl.
  destruct (decide (order = "asc")) as [->|Hasc].
  { rewrite lookup_insert_eq in Hl. left. congruence. }
  rewrite lookup_insert_ne in Hl by done.
  destruct (decide (order = "desc")) as [->|Hdesc].
  { rewrite lookup_singleton_eq in Hl. right. congruence. }
  by rewrite lookup_singleton_ne in Hl.
Qed.

Lemma transform_is_num transform v :
  transform = order_asc ∨ transform = order_desc →
  is_num (transform v) = is_num v.
Proof. intros [->| ->]; by destruct v. Qed.

Lemma mixed_all_str {A : Type} (g : A → pyval) (data : list A) :
  (∀ r, r ∈ data → is_num (g r) = false) → mixed (g <$> data) = false.
Proof.
  intros Hstr. apply mixed_false.
  intros a b (ra & -> & Ha)%list_elem_of_fmap (rb & -> & Hb)%list_elem_of_fmap.
  by rewrite !Hstr.
Qed.

Lemma mixed_all_num {A : Type} (g : A → pyval) (data : list A) :
  (∀ r, r ∈ data → is_num (g r) = true) → mixed (g <$> data) = false.
Proof.
  intros Hnum. apply mixed_false.
  intros a b (ra & -> & Ha)%list_elem_of_fmap (rb & -> & Hb)%list_elem_of_fmap.
  by rewrite !Hnum.
Qed.

Lemma py_sorted_Ok {A : Type} (g : A → pyval) (data : list A) :
  mixed (g <$> data) = false →
  ∃ out, py_sorted py_lt (λ r, Ok (g r)) data = Ok out ∧ out ≡ₚ data ∧
         (keys_ordered g data → stable_by g data out).
Proof.
  intros Hm. destruct (py_sorted py_lt _ data) as [out|e] eqn:Hs.
  - exists out. split; [done|]. split; [by eapply py_sorted_pure_perm|].
    by apply py_sorted_stable.
  - apply py_sorted_Raise in Hs as [_ Hs]. congruence.
Qed.

(** core.py sorts by the typed keys, and by their string forms when the
    typed keys are of both kinds. *)
Lemma core_apply_order_by_eq (data : list Core.row) condition column order
  transform :
  split_spec condition = Ok (column, order) →
  Core.SORT_ORDERS !! order = Some transform →
  Core.apply_order_by data condition
  = py_sorted py_lt (λ r, Ok (core_sort_key transform column data r)) data.
Proof.
  intros Hsp Ht. unfold Core.apply_order_by, core_sort_key.
  rewrite Hsp. simpl. rewrite Ht.
  destruct (mixed (Core.primary_key transform column <$> data)) eqn:Hm.
  - assert (py_sorted py_lt (λ r, Ok (Core.primary_key transform column r))
              data = Raise TypeError) as ->; [|done].
    by apply py_sorted_Raise.
  - by destruct (py_sorted_Ok _ _ Hm) as (out & -> & _).
Qed.

Lemma core_sort_key_not_mixed (data : list Core.row) column order transform :
  Core.SORT_ORDERS !! order = Some transform →
  mixed (core_sort_key transform column data <$> data) = false.
Proof.
  intros Ht%sort_orders_cases. unfold core_sort_key.
  destruct (mixed (Core.primary_key transform column <$> data)) eqn:Hm;
    [|done].
  apply mixed_all_str. intros r _. unfold Core.fallback_key.
  by rewrite transform_is_num.
Qed.

(** C10. In core.py, with a well-formed order spec, [apply_order_by] returns:
    a row without the sort column gets the key of the number [0] in the
    first sort and of the empty string in the fallback sort, and the output
    holds exactly the input rows, sorted by the typed keys or, when those
    are of both kinds, by the string keys. *)
Theorem core_order_by_total (data : list Core.row) condition column order
  transform :
  split_spec condition = Ok (column, order) →
  Core.SORT_ORDERS !! order = Some transform →
  (∀ r : Core.row, r !! column = None →
     Core.primary_key transform column r = transform (Num 0) ∧
     Core.fallback_key transform column r = transform (Str "")) ∧
  ∃ out,
    Core.apply_order_by data condition = Ok out ∧ out ≡ₚ data ∧
    (mixed (Core.primary_key transform column <$> data) = false →
       py_sorted py_lt (λ r, Ok (Core.primary_key transform column r)) data
       = Ok out) ∧
    (mixed (Core.primary_key transform column <$> data) = true →
       py_sorted py_lt (λ r, Ok (Core.fallback_key transform column r)) data
       = Ok out).
Proof.
  intros Hsp Ht. split.
  - intros r Hr. unfold Core.primary_key, Core.fallback_key.
    by rewrite Hr.
  - rewrite (core_apply_order_by_eq _ _ _ _ _ Hsp Ht).
    destruct (py_sorted_Ok _ _
                (core_sort_key_not_mixed data column order transform Ht))
      as (out & Hout & Hperm & _).
    exists out. split; [done|]. split; [done|].
    unfold core_sort_key in Hout.
    split; intros Hm; by rewrite Hm in Hout.
Qed.

Lemma comprehension_Ok_elem {A B : Type} (f : A → result B) (data : list A)
  ys r :
  comprehension f data = Ok ys → r ∈ data → ∃ y, f r = Ok y.
Proof.
  intros Hc%comprehension_Ok Hr.
  induction Hc as [|r' y data ys Hy _ IH]; [by apply elem_of_nil in Hr|].
  apply elem_of_cons in Hr as [->|Hr]; eauto.
Qed.

Lemma comprehension_all_Ok {A B : Type} (f : A → result B) (data : list A) :
  (∀ r, r ∈ data → ∃ y, f r = Ok y) → ∃ ys, comprehension f data = Ok ys.
Proof.
  induction data as [|r data IH]; intros Hall; simpl; [eauto|].
  destruct (Hall r) as [y ->]; [by left|].
  destruct IH as [ys ->]; [|simpl; eauto].
  intros r' Hr'. apply Hall. by right.
Qed.

Lemma main_primary_key_num transform column (r : Main.row) k :
  transform = order_asc ∨ transform = order_desc →
  Main.primary_key transform column r = Ok k → is_num k = true.
Proof.
  intros Ht. unfold Main.primary_key.
  destruct (getitem r column) as [v|]; simpl; [|done].
  destruct (float_of v) as [x|]; simpl; [|done].
  intros [= <-]. by rewrite transform_is_num.
Qed.

Lemma main_fallback_key_str transform column (r : Main.row) k :
  transform = order_asc ∨ transform = order_desc →
  Main.fallback_key transform column r = Ok k → is_num k = false.
Proof.
  intros Ht. unfold Main.fallback_key.
  destruct (getitem r column) as [v|]; simpl; [|done].
  intros [= <-]. by rewrite transform_is_num.
Qed.

Lemma py_sorted_comprehension_Raise {A : Type} (key : A → result pyval)
  (data : list A) e :
  comprehension key data = Raise e → py_sorted py_lt key data = Raise e.
Proof. intros Hc. unfold py_sorted. by rewrite Hc. Qed.

(** The keys of a successful comprehension are of one kind when each of
    them is. *)
Lemma py_sorted_keys_Ok {A : Type} (key : A → result pyval) (data : list A)
  keys (kind : bool) :
  comprehension key data = Ok keys →
  (∀ r k, key r = Ok k → is_num k = kind) →
  ∃ out, py_sorted py_lt key data = Ok out ∧ out ≡ₚ data ∧
         (keys_ordered (key_of key) data →
          stable_by (key_of key) data out ∧ ascending_by (key_of key) out).
Proof.
  intros Hc Hkind. rewrite (py_sorted_key_of _ _ _ Hc).
  cut (mixed (key_of key <$> data) = false).
  { intros (out & Hout & Hperm & Hst)%py_sorted_Ok. exists out.
    split; [done|]. split; [done|]. intros Hord.
    split; [by apply Hst|by eapply py_sorted_ascending]. }
  apply mixed_false.
  intros a b (ra & -> & Ha)%list_elem_of_fmap (rb & -> & Hb)%list_elem_of_fmap.
  destruct (comprehension_Ok_elem _ _ _ _ Hc Ha) as [ka Hka].
  destruct (comprehension_Ok_elem _ _ _ _ Hc Hb) as [kb Hkb].
  unfold key_of. rewrite Hka, Hkb.
  by rewrite (Hkind _ _ Hka), (Hkind _ _ Hkb).
Qed.

(** main.py sorts by the floats of the cells, and by the cells themselves
    when one of them does not convert. *)
Lemma main_apply_order_by_Ok (data : list Main.row) condition column order
  transform out :
  split_spec condition = Ok (column, order) →
  Main.SORT_ORDERS !! order = Some transform →
  keys_ordered (main_sort_key transform column data) data →
  Main.apply_order_by data condition = Ok out →
  stable_by (main_sort_key transform column data) data out ∧
  ascending_by (main_sort_key transform column data) out.
Proof.
  intros Hsp Ht. pose proof (sort_orders_cases _ _ Ht) as Hcases.
  unfold Main.apply_order_by, main_sort_key. rewrite Hsp. simpl. rewrite Ht.
  destruct (comprehension (Main.primary_key transform column) data)
    as [keys|e] eqn:Hc.
  - destruct (py_sorted_keys_Ok _ _ _ true Hc) as (out' & -> & _ & Hso).
    { intros r k. by apply main_primary_key_num. }
    intros Hord [= <-]. auto.
  - rewrite (py_sorted_comprehension_Raise _ _ _ Hc).
    destruct e as [why| | | | |]; try done.
    destruct (comprehension (Main.fallback_key transform column) data)
      as [keys|e] eqn:Hf.
    + destruct (py_sorted_keys_Ok _ _ _ false Hf) as (out' & -> & _ & Hso).
      { intros r k. by apply main_fallback_key_str. }
      intros Hord [= <-]. auto.
    + by rewrite (py_sorted_comprehension_Raise _ _ _ Hf).
Qed.

Lemma main_apply_order_by_total (data : list Main.row) condition column order
  transform :
  split_spec condition = Ok (column, order) →
  Main.SORT_ORDERS !! order = Some transform →
  (∀ r, r ∈ data → is_Some (r !! column)) →
  ∃ out, Main.apply_order_by data condition = Ok out.
Proof.
  intros Hsp Ht Hcol. pose proof (sort_orders_cases _ _ Ht) as Hcases.
  unfold Main.apply_order_by. rewrite Hsp. simpl. rewrite Ht.
  destruct (comprehension_all_Ok (Main.fallback_key transform column) data)
    as [fkeys Hf].
  { intros r [v Hv]%Hcol. unfold Main.fallback_key, getitem. rewrite Hv.
    simpl. eauto. }
  destruct (py_sorted_keys_Ok _ _ _ false Hf) as (fout & Hfout & _).
  { intros r k. by apply main_fallback_key_str. }
  destruct (comprehension (Main.primary_key transform column) data)
    as [keys|e] eqn:Hc.
  - destruct (py_sorted_keys_Ok _ _ _ true Hc) as (out & -> & _); [|eauto].
    intros r k. by apply main_primary_key_num.
  - rewrite (py_sorted_comprehension_Raise _ _ _ Hc).
    apply comprehension_Raise in Hc as (r & [v Hv]%Hcol & Hr).
    unfold Main.primary_key, getitem, float_of in Hr. rewrite Hv in Hr.
    simpl in Hr. destruct (py_float v); simpl in Hr; [done|].
    injection Hr as <-. eauto.
Qed.

(** C8, for keys without NaN. Sorting is stable in both files and for both
    directions: the output holds the input rows, and the rows whose sort
    keys equal a given key keep their input order; the keys of the output
    ascend. core.py returns for every well-formed spec; main.py returns
    when every row has the sort column. With a NaN key [<] does not order
    the keys, and rows of equal keys can change places
    ([nan_keys_reorder_equal_rows]). *)
Theorem order_by_stable condition column order transform :
  split_spec condition = Ok (column, order) →
  Core.SORT_ORDERS !! order = Some transform →
  Main.SORT_ORDERS !! order = Some transform →
  (∀ data : list Core.row,
     keys_ordered (core_sort_key transform column data) data →
     ∃ out, Core.apply_order_by data condition = Ok out ∧
            stable_by (core_sort_key transform column data) data out ∧
            ascending_by (core_sort_key transform column data) out) ∧
  (∀ (data : list Main.row) out,
     keys_ordered (main_sort_key transform column data) data →
     Main.apply_order_by data condition = Ok out →
     stable_by (main_sort_key transform column data) data out ∧
     ascending_by (main_sort_key transform column data) out) ∧
  (∀ data : list Main.row,
     (∀ r, r ∈ data → is_Some (r !! column)) →
     ∃ out, Main.apply_order_by data condition = Ok out).
Proof.
  intros Hsp Hcore Hmain. split; [|split].
  - intros data Hord.
    rewrite (core_apply_order_by_eq _ _ _ _ _ Hsp Hcore).
    destruct (py_sorted_Ok _ _
                (core_sort_key_not_mixed data column order transform Hcore))
      as (out & Hout & _ & Hst).
    exists out. split; [done|]. split; [by apply Hst|].
    by eapply py_sorted_ascending.
  - intros data out Hord Hout.
    exact (main_apply_order_by_Ok data _ _ order _ out Hsp Hmain Hord Hout).
  - intros data.
    exact (main_apply_order_by_total data _ _ order _ Hsp Hmain).
Qed.

(** Both tables map [asc] to the identity and [desc] to the negation of a
    number or the reversal of a string. *)
Lemma sort_orders_entries :
  Core.SORT_ORDERS !! "asc" = Some order_asc ∧
  Core.SORT_ORDERS !! "desc" = Some order_desc ∧
  Main.SORT_ORDERS = Core.SORT_ORDERS.
Proof. done. Qed.

(** On numbers the [desc] transform reverses the comparison of the keys and
    keeps their equality; on strings it compares the reversed texts. *)
Lemma order_desc_num (a b : float) :
  py_lt (order_desc (Num a)) (order_desc (Num b)) = py_lt (Num b) (Num a) ∧
  py_eq (order_desc (Num a)) (order_desc (Num b)) = py_eq (Num a) (Num b).
Proof. simpl. by rewrite float_opp_ltb, float_opp_eqb. Qed.

Lemma order_desc_str (s t : string) :
  py_lt (order_desc (Str s)) (order_desc (Str t))
  = Some (String.ltb (String.rev s) (String.rev t)).
Proof. done. Qed.

End order_facts.

(** ** Worked examples on integer literals *)

Section examples.
#[local] Existing Instance literals.

(** C1. The [desc] transform reverses the characters of a string key instead
    of reversing the comparison: sorting the names Bob, Alice, Eve descending
    compares "boB", "ecilA" and "evE" and returns Bob, Alice, Eve in both
    files, where the descending order is Eve, Bob, Alice. *)
Theorem desc_sort_of_names :
  Core.apply_order_by
    [core_name "Bob"; core_name "Alice"; core_name "Eve"] "name=desc"
  = Ok [core_name "Bob"; core_name "Alice"; core_name "Eve"] ∧
  Main.apply_order_by
    [main_name "Bob"; main_name "Alice"; main_name "Eve"] "name=desc"
  = Ok [main_name "Bob"; main_name "Alice"; main_name "Eve"] ∧
  String.ltb "Alice" "Bob" = true ∧ String.ltb "Bob" "Eve" = true.
Proof. repeat split; vm_compute; reflexivity. Qed.

(** C5. In core.py a [>=] or [<=] condition that falls back to string
    comparison keeps no row and raises nothing; main.py raises the
    unsupported-operator [ValueError] there. *)
Theorem string_fallback_of_ge :
  Core.apply_filter core_people "name>=Bob" = Ok [] ∧
  Core.apply_filter core_people "name<=Bob" = Ok [] ∧
  Main.apply_filter main_people "name>=Bob"
  = Raise (ValueError UnsupportedOperator) ∧
  String.eqb "Bob" "Bob" = true ∧ String.ltb "Bob" "Charlie" = true.
Proof. repeat split; vm_compute; reflexivity. Qed.

(** C2, as stated, fails: the median of 4000, 5000, 5500, 6000 is 5500 in
    both files, not 5000. *)
Lemma median_of_four :
  agg_median four_salaries = Ok (VFloat 5500) ∧
  Core.apply_aggregation (core_salary <$> four_salaries) "salary=median"
  = Ok [AggRecord "median" "salary" (VFloat 5500)] ∧
  Main.apply_aggregation
    (main_salary <$> ["4000"; "5000"; "5500"; "6000"]) "salary=median"
  = Ok [AggRecord "median" "salary" (VFloat 5500)] ∧
  PrimFloat.eqb 5500 5000 = false.
Proof. repeat split; vm_compute; reflexivity. Qed.

(** C8, as stated, fails: with NaN among the sort keys the rows e and g,
    both of score 1, leave the sort in the opposite order. The comparisons
    are those of [list.sort]: the run a, b, c, d, e is taken as ascending,
    since no element is smaller than the one before it, and f and g are then
    placed by binary search, g before c and so before e. *)
Lemma nan_keys_reorder_equal_rows :
  Core.apply_order_by nan_scores "score=asc"
  = Ok [core_score "a" nan; core_score "b" nan; core_score "f" 0;
        core_score "g" 1; core_score "c" 3; core_score "d" nan;
        core_score "e" 1] ∧
  filter (λ r, py_eq (Core.primary_key order_asc "score" r) (Num 1) = true)
    nan_scores
  = [core_score "e" 1; core_score "g" 1] ∧
  filter (λ r, py_eq (Core.primary_key order_asc "score" r) (Num 1) = true)
    [core_score "a" nan; core_score "b" nan; core_score "f" 0;
     core_score "g" 1; core_score "c" 3; core_score "d" nan;
     core_score "e" 1]
  = [core_score "g" 1; core_score "e" 1] ∧
  PrimFloat.is_nan nan = true.
Proof. repeat split; vm_compute; reflexivity. Qed.

(** The end-to-end scenario of the test suite, in both files. *)
Example people_older_than_25 :
  Core.apply_filter core_people "age>25"
  = Ok [core_person "Alice" 30 5000; core_person "Charlie" 35 6000] ∧
  Main.apply_filter main_people "age>25"
  = Ok [main_person "Alice" "30" "5000"; main_person "Charlie" "35" "6000"].
Proof. split; vm_compute; reflexivity. Qed.

Example people_by_age_desc :
  Core.apply_order_by core_people "age=desc"
  = Ok [core_person "Charlie" 35 6000; core_person "Alice" 30 5000;
        core_person "Bob" 25 4000] ∧
  Main.apply_order_by main_people "age=desc"
  = Ok [main_person "Charlie" "35" "6000"; main_person "Alice" "30" "5000";
        main_person "Bob" "25" "4000"].
Proof. split; vm_compute; reflexivity. Qed.

Example people_average_salary :
  Core.apply_aggregation core_people "salary=avg"
  = Ok [AggRecord "avg" "salary" (VFloat 5000)] ∧
  Main.apply_aggregation main_people "salary=avg"
  = Ok [AggRecord "avg" "salary" (VFloat 5000)].
Proof. split; vm_compute; reflexivity. Qed.

(** Two rows of the same age keep their input order in both directions. *)
Example equal_ages_keep_order :
  Core.apply_order_by
    [core_person "Alice" 30 5000; core_person "Bob" 25 4000;
     core_person "Carol" 30 6000] "age=asc"
  = Ok [core_person "Bob" 25 4000; core_person "Alice" 30 5000;
        core_person "Carol" 30 6000] ∧
  Core.apply_order_by
    [core_person "Alice" 30 5000; core_person "Bob" 25 4000;
     core_person "Carol" 30 6000] "age=desc"
  = Ok [core_person "Alice" 30 5000; core_person "Carol" 30 6000;
        core_person "Bob" 25 4000].
Proof. split; vm_compute; reflexivity. Qed.

(** core.py on an empty dataset, where main.py raises. *)
Example core_aggregation_empty :
  Core.apply_aggregation [] "salary=avg"
  = Ok [AggRecord "avg" "salary" VNone] ∧
  Core.apply_aggregation [] "salary=median"
  = Ok [AggRecord "median" "salary" VNone].
Proof. split; reflexivity. Qed.


Lemma aggregation_non_numeric_witness :
  split_spec "name=count" = Ok ("name", "count") ∧
  core_person "Alice" 30 5000 !! "name" = Some (Str "Alice") ∧
  py_float "Alice" = None ∧
  Core.apply_aggregation core_people "name=count"
  = Raise (ValueError NonNumericColumn).
Proof.
  split; [reflexivity|]. split; [reflexivity|]. split; [reflexivity|].
  apply (proj1 (aggregation_non_numeric "name=count" "name" "count" eq_refl)
           core_people (core_person "Alice" 30 5000) "Alice").
  - exists agg_count. reflexivity.
  - apply list_elem_of_here.
  - reflexivity.
  - reflexivity.
Defined.

Lemma order_by_stable_witness :
  split_spec "age=desc" = Ok ("age", "desc") ∧
  Core.SORT_ORDERS !! "desc" = Some order_desc ∧
  Main.SORT_ORDERS !! "desc" = Some order_desc ∧
  keys_ordered (core_sort_key order_desc "age" core_same_age)
    core_same_age ∧
  py_eq (core_sort_key order_desc "age" core_same_age
           (core_person "Alice" 30 5000))
        (core_sort_key order_desc "age" core_same_age
           (core_person "Carol" 30 6000)) = true ∧
  ∃ out, Core.apply_order_by core_same_age "age=desc" = Ok out ∧
         stable_by (core_sort_key order_desc "age" core_same_age)
           core_same_age out ∧
         ascending_by (core_sort_key order_desc "age" core_same_age) out.
Proof.
  assert (keys_ordered (core_sort_key order_desc "age" core_same_age)
            core_same_age) as Hord.
  { intros r Hr. unfold core_same_age in Hr.
    repeat (apply elem_of_cons in Hr as [->|Hr]); try reflexivity.
    by apply elem_of_nil in Hr. }
  split; [reflexivity|]. split; [reflexivity|]. split; [reflexivity|].
  split; [exact Hord|]. split; [reflexivity|].
  exact (proj1 (order_by_stable "age=desc" "age" "desc" order_desc
                  eq_refl eq_refl eq_refl) core_same_age Hord).
Defined.

Lemma core_order_by_total_witness :
  split_spec "age=asc" = Ok ("age", "asc") ∧
  Core.SORT_ORDERS !! "asc" = Some order_asc ∧
  core_name "Eve" !! "age" = None ∧
  Core.primary_key order_asc "age" (core_name "Eve") = Num 0 ∧
  Core.fallback_key order_asc "age" (core_name "Eve") = Str "" ∧
  ∃ out,
    Core.apply_order_by (core_people ++ [core_name "Eve"]) "age=asc"
    = Ok out ∧
    out ≡ₚ core_people ++ [core_name "Eve"].
Proof.
  split; [reflexivity|]. split; [reflexivity|]. split; [reflexivity|].
  destruct (core_order_by_total (core_people ++ [core_name "Eve"])
              "age=asc" "age" "asc" order_asc eq_refl eq_refl)
    as [Hkeys (out & Hout & Hperm & _)].
  destruct (Hkeys (core_name "Eve") eq_refl) as [Hprimary Hfallback].
  split; [exact Hprimary|]. split; [exact Hfallback|].
  exists out. split; [exact Hout|exact Hperm].
Defined.

Lemma median_upper_middle_witness :
  ∃ before m after,
    agg_median four_salaries = Ok (VFloat m) ∧
    before ++ m :: after ≡ₚ four_salaries ∧
    StronglySorted (λ a b, PrimFloat.leb a b = true) (before ++ m :: after) ∧
    length before = 2%nat ∧ S (length after) = 2%nat.
Proof.
  destruct (proj2 (proj2 median_upper_middle) four_salaries)
    as (before & m & after & Hm & Hperm & Hsorted & _ & _ & Heven).
  - discriminate.
  - repeat constructor.
  - exists before, m, after. destruct (Heven 2%nat eq_refl) as [Hb Ha].
    repeat split; assumption.
Defined.

End examples.

(** * Further properties *)

(** ** Specs of the form [column=word] and the errors of the operations *)

Section spec_facts.
Context `{Builtins}.
Implicit Types (column operation order condition : string).

Lemma split_spec_Raise condition e :
  split_spec condition = Raise e ↔
  e = ValueError MalformedSpec ∧ ¬ occurs "=" condition.
Proof.
  unfold split_spec. rewrite <-contains_false.
  destruct (contains "=" condition) eqn:Hc; simpl.
  - destruct (unpack_split_contains _ _ Hc) as (l & r & ->). simpl.
    split; [done|by intros [_ ?]].
  - split; [by intros [= <-]|by intros [-> _]].
Qed.

Lemma split_spec_Ok condition column rest :
  split_spec condition = Ok (column, rest) ↔
  ∃ left right, split_once "=" condition = Some (left, right) ∧
                column = strip left ∧ rest = strip right.
Proof.
  unfold split_spec, unpack_split.
  destruct (contains "=" condition) eqn:Hc; simpl.
  - destruct (split_once "=" condition) as [[l r]|] eqn:Hs; simpl.
    + split; [intros [= <- <-]; eauto|].
      by intros (left & right & [= <- <-] & -> & ->).
    + split; [done|]. by intros (? & ? & ? & _).
  - split; [done|]. intros (left & right & Hs & _).
    apply split_once_None in Hc. congruence.
Qed.

(** X1. A spec of the form [column=word] is cut at its first [=] and the
    two sides are stripped; without a [=] the malformed-spec [ValueError] is
    raised, and nothing else. *)
Theorem split_spec_correct condition :
  (split_spec condition = Raise (ValueError MalformedSpec) ↔
   ¬ occurs "=" condition) ∧
  (∀ e, split_spec condition = Raise e → e = ValueError MalformedSpec) ∧
  (∀ column rest,
     split_spec condition = Ok (column, rest) ↔
     ∃ left right,
       condition = left +:+ "=" +:+ right ∧
       (∀ left' right', condition = left' +:+ "=" +:+ right' →
                        (String.length left ≤ String.length left')%nat) ∧
       trimmed_of left column ∧ column = strip left ∧
       trimmed_of right rest ∧ rest = strip right).
Proof.
  split; [|split].
  - rewrite split_spec_Raise. split; [by intros [_ ?]|by split].
  - by intros e [-> _]%split_spec_Raise.
  - intros column rest. rewrite split_spec_Ok. split.
    + intros (left & right & [Hcut Hmin]%split_once_Some & -> & ->).
      exists left, right. eauto 10 using strip_trimmed.
    + intros (left & right & Hcut & Hmin & _ & -> & _ & ->).
      exists left, right. split; [|done]. by apply split_once_Some.
Qed.

Lemma core_aggregations_Some operation aggregate :
  Core.AGGREGATIONS !! operation = Some aggregate →
  (operation, aggregate) ∈
    [("avg", agg_avg); ("min", agg_min); ("max", agg_max);
     ("median", agg_median); ("sum", agg_sum); ("count", agg_count)].
Proof.
  unfold Core.AGGREGATIONS. rewrite !lookup_insert, lookup_singleton.
  repeat case_decide; subst; intros [= <-]; set_solver.
Qed.

Lemma core_aggregations_None operation :
  Core.AGGREGATIONS !! operation = None ↔ operation ∉ core_operations.
Proof.
  unfold Core.AGGREGATIONS, core_operations.
  rewrite !lookup_insert, lookup_singleton, !not_elem_of_cons.
  repeat case_decide; subst;
    (split; [try done; intros _; repeat split;
               (congruence || apply not_elem_of_nil)
            |intuition congruence]).
Qed.

Lemma main_aggregations_Some operation aggregate :
  Main.AGGREGATIONS !! operation = Some aggregate →
  (operation, aggregate) ∈
    [("avg", agg_avg); ("min", agg_min); ("max", agg_max);
     ("median", agg_median)].
Proof.
  unfold Main.AGGREGATIONS. rewrite !lookup_insert, lookup_singleton.
  repeat case_decide; subst; intros [= <-]; set_solver.
Qed.

Lemma main_aggregations_None operation :
  Main.AGGREGATIONS !! operation = None ↔ operation ∉ main_operations.
Proof.
  unfold Main.AGGREGATIONS, main_operations.
  rewrite !lookup_insert, lookup_singleton, !not_elem_of_cons.
  repeat case_decide; subst;
    (split; [try done; intros _; repeat split;
               (congruence || apply not_elem_of_nil)
            |intuition congruence]).
Qed.

End spec_facts.

Section aggregation_errors.
Context `{Builtins}.
Implicit Types (column operation condition : string).

Lemma agg_median_nonempty (x : list float) :
  x ≠ [] → ∃ m, agg_median x = Ok (VFloat m) ∧ m ∈ x.
Proof.
  intros Hx. destruct (sorted_floats x) as (s & Hs & Hperm & _).
  assert (length x ≠ 0%nat) as Hpos by (by destruct x).
  destruct (lookup_lt_is_Some_2 s (length x / 2)%nat) as [m Hm].
  { rewrite Hperm. apply Nat.div_lt; lia. }
  exists m. split.
  - assert (agg_median x
            = (s ← py_sorted float_lt Ok x;
               match s !! (length x / 2)%nat with
               | Some m => Ok (VFloat m)
               | None => Raise IndexError
               end)) as -> by (by destruct x).
    rewrite Hs. unfold mbind, result_bind. by rewrite Hm.
  - rewrite <-Hperm. by eapply list_elem_of_lookup_2.
Qed.

(** No aggregation function raises on a non-empty list. *)
Lemma aggregate_nonempty operation aggregate (x : list float) :
  (operation, aggregate) ∈
    [("avg", agg_avg); ("min", agg_min); ("max", agg_max);
     ("median", agg_median); ("sum", agg_sum); ("count", agg_count)] →
  x ≠ [] → ∃ value, aggregate x = Ok value.
Proof.
  intros Hin Hx. rewrite !elem_of_cons, elem_of_nil in Hin.
  destruct Hin as [[= -> ->]|[[= -> ->]|[[= -> ->]|[[= -> ->]|[[= -> ->]|
                  [[= -> ->]|[]]]]]]].
  - destruct x; [done|]. simpl. eauto.
  - destruct x; [done|]. simpl. eauto.
  - destruct x; [done|]. simpl. eauto.
  - destruct (agg_median_nonempty x Hx) as (m & -> & _). eauto.
  - destruct x; [done|]. simpl. eauto.
  - simpl. eauto.
Qed.

Lemma aggregate_empty operation aggregate e :
  (operation, aggregate) ∈
    [("avg", agg_avg); ("min", agg_min); ("max", agg_max);
     ("median", agg_median)] →
  aggregate [] = Raise e →
  e = ZeroDivisionError ∨ e = ValueError EmptySequence.
Proof.
  intros Hin. rewrite !elem_of_cons, elem_of_nil in Hin.
  destruct Hin as [[= -> ->]|[[= -> ->]|[[= -> ->]|[[= -> ->]|[]]]]];
    simpl; intros [= <-]; auto.
Qed.

Lemma split_spec_Ok_occurs condition column operation :
  split_spec condition = Ok (column, operation) → occurs "=" condition.
Proof.
  intros Hsp. destruct (contains "=" condition) eqn:Hc.
  - by apply contains_occurs.
  - assert (split_spec condition = Raise (ValueError MalformedSpec)) as Hr.
    { apply split_spec_Raise. split; [done|]. by apply contains_false. }
    congruence.
Qed.

(** Every way [apply_aggregation] of core.py can end. *)
Lemma core_aggregation_cases (data : list Core.row) condition :
  (¬ occurs "=" condition ∧
   Core.apply_aggregation data condition = Raise (ValueError MalformedSpec)) ∨
  ∃ column operation,
    split_spec condition = Ok (column, operation) ∧
    (((operation ∉ core_operations) ∧
      Core.apply_aggregation data condition
      = Raise (ValueError UnknownOperation)) ∨
     (operation ∈ core_operations ∧
      (Core.apply_aggregation data condition
       = Raise (ValueError NonNumericColumn) ∨
       ∃ value, Core.apply_aggregation data condition
                = Ok [AggRecord operation column value]))).
Proof.
  unfold Core.apply_aggregation.
  destruct (split_spec condition) as [[column operation]|e] eqn:Hsp; simpl.
  - right. exists column, operation. split; [done|].
    destruct (Core.AGGREGATIONS !! operation) as [aggregate|] eqn:Hagg.
    + right. split.
      { destruct (decide (operation ∈ core_operations)) as [|Hn]; [done|].
        apply core_aggregations_None in Hn. congruence. }
      destruct (comprehension _ _) as [[|x values]|e]; eauto.
      destruct (aggregate_nonempty operation aggregate (x :: values))
        as [value ->]; [by apply core_aggregations_Some|done|].
      simpl. eauto.
    + left. split; [by apply core_aggregations_None|done].
  - left. apply split_spec_Raise in Hsp as [-> Hno]. done.
Qed.

(** Every way [apply_aggregation] of main.py can end. *)
Lemma main_aggregation_cases (data : list Main.row) condition :
  (¬ occurs "=" condition ∧
   Main.apply_aggregation data condition = Raise (ValueError MalformedSpec)) ∨
  ∃ column operation,
    split_spec condition = Ok (column, operation) ∧
    (((operation ∉ main_operations) ∧
      Main.apply_aggregation data condition
      = Raise (ValueError UnknownOperation)) ∨
     (operation ∈ main_operations ∧
      (Main.apply_aggregation data condition
       = Raise (ValueError NonNumericColumn) ∨
       ((∃ r, r ∈ data ∧ r !! column = None) ∧
        Main.apply_aggregation data condition = Raise (KeyError column)) ∨
       (data = [] ∧
        (Main.apply_aggregation data condition = Raise ZeroDivisionError ∨
         Main.apply_aggregation data condition
         = Raise (ValueError EmptySequence))) ∨
       ∃ value, Main.apply_aggregation data condition
                = Ok [AggRecord operation column value]))).
Proof.
  unfold Main.apply_aggregation.
  destruct (split_spec condition) as [[column operation]|e] eqn:Hsp; simpl.
  - right. exists column, operation. split; [done|].
    destruct (Main.AGGREGATIONS !! operation) as [aggregate|] eqn:Hagg.
    + right. split.
      { destruct (decide (operation ∈ main_operations)) as [|Hn]; [done|].
        apply main_aggregations_None in Hn. congruence. }
      apply main_aggregations_Some in Hagg.
      destruct (comprehension _ data) as [values|e] eqn:Hc.
      * destruct values as [|x values].
        -- assert (data = []) as ->.
           { apply comprehension_Ok in Hc. by apply Forall2_nil_inv_r in Hc. }
           destruct (aggregate []) as [value|e] eqn:Hempty; simpl.
           ++ right. right. right. eauto.
           ++ right. right. left. split; [done|].
              destruct (aggregate_empty _ _ _ Hagg Hempty) as [->| ->]; auto.
        -- destruct (aggregate_nonempty operation aggregate (x :: values))
             as [value ->]; [rewrite !elem_of_cons in *; tauto|done|].
           simpl. right. right. right. eauto.
      * apply comprehension_Raise in Hc as (r & Hr & He).
        unfold getitem, float_of in He.
        destruct (r !! column) as [v|] eqn:Hv; simpl in He.
        -- destruct (py_float v); [done|]. injection He as <-. auto.
        -- injection He as <-. right. left. eauto.
    + left. split; [by apply main_aggregations_None|done].
  - left. apply split_spec_Raise in Hsp as [-> Hno]. done.
Qed.

(** X2. In both files an aggregation spec without [=] raises the
    malformed-spec [ValueError], and a spec whose operation is not a name of
    the table raises the unknown-operation [ValueError], in each case
    whatever the data; these are the only specs that raise these errors. The
    table of core.py has six names; that of main.py has no [sum] and no
    [count]. *)
Theorem aggregation_spec_errors condition :
  (∀ data : list Core.row,
     (Core.apply_aggregation data condition
      = Raise (ValueError MalformedSpec) ↔ ¬ occurs "=" condition) ∧
     (Core.apply_aggregation data condition
      = Raise (ValueError UnknownOperation) ↔
      ∃ column operation, split_spec condition = Ok (column, operation) ∧
                          operation ∉ core_operations)) ∧
  (∀ data : list Main.row,
     (Main.apply_aggregation data condition
      = Raise (ValueError MalformedSpec) ↔ ¬ occurs "=" condition) ∧
     (Main.apply_aggregation data condition
      = Raise (ValueError UnknownOperation) ↔
      ∃ column operation, split_spec condition = Ok (column, operation) ∧
                          operation ∉ main_operations)).
Proof.
  split; intros data.
  - destruct (core_aggregation_cases data condition)
      as [[Hno ->]|(column & operation & Hsp & Hcases)].
    + split; [done|]. split; [done|]. intros (c & o & Hsp & _).
      by apply split_spec_Ok_occurs in Hsp.
    + pose proof (split_spec_Ok_occurs _ _ _ Hsp) as Hocc.
      destruct Hcases as [[Hn ->]|[Hin [->|[value ->]]]].
      * split; [split; [done|by intros ?]|]. split; [eauto|done].
      * split; [split; [done|by intros ?]|]. split; [done|].
        intros (c & o & Hsp' & Hn). congruence.
      * split; [split; [done|by intros ?]|]. split; [done|].
        intros (c & o & Hsp' & Hn). congruence.
  - destruct (main_aggregation_cases data condition)
      as [[Hno ->]|(column & operation & Hsp & Hcases)].
    + split; [done|]. split; [done|]. intros (c & o & Hsp & _).
      by apply split_spec_Ok_occurs in Hsp.
    + pose proof (split_spec_Ok_occurs _ _ _ Hsp) as Hocc.
      destruct Hcases
        as [[Hn ->]|[Hin [->|[[_ ->]|[[_ [->| ->]]|[value ->]]]]]];
        (split; [split; [done|by intros ?]|]); (split; [eauto|]);
        try done; intros (c & o & Hsp' & Hn); congruence.
Qed.

(** X3. [apply_aggregation] returns exactly one record, which carries the
    stripped operation and column of the spec, or raises. core.py raises
    nothing but the malformed-spec, unknown-operation and non-numeric-column
    [ValueError]s. main.py can also raise the [KeyError] of the column, and
    then a row lacks the column, or [ZeroDivisionError] or the [ValueError]
    of an empty sequence, and then the dataset is empty. *)
Theorem aggregation_outcomes condition :
  (∀ data : list Core.row,
     (∃ column operation value,
        split_spec condition = Ok (column, operation) ∧
        Core.apply_aggregation data condition
        = Ok [AggRecord operation column value]) ∨
     Core.apply_aggregation data condition = Raise (ValueError MalformedSpec) ∨
     Core.apply_aggregation data condition
     = Raise (ValueError UnknownOperation) ∨
     Core.apply_aggregation data condition
     = Raise (ValueError NonNumericColumn)) ∧
  (∀ data : list Main.row,
     (∃ column operation value,
        split_spec condition = Ok (column, operation) ∧
        Main.apply_aggregation data condition
        = Ok [AggRecord operation column value]) ∨
     Main.apply_aggregation data condition = Raise (ValueError MalformedSpec) ∨
     Main.apply_aggregation data condition
     = Raise (ValueError UnknownOperation) ∨
     Main.apply_aggregation data condition
     = Raise (ValueError NonNumericColumn) ∨
     (∃ column r, r ∈ data ∧ r !! column = None ∧
        Main.apply_aggregation data condition = Raise (KeyError column)) ∨
     (data = [] ∧
        (Main.apply_aggregation data condition = Raise ZeroDivisionError ∨
         Main.apply_aggregation data condition
         = Raise (ValueError EmptySequence)))).
Proof.
  split; intros data.
  - destruct (core_aggregation_cases data condition)
      as [[_ ?]|(column & operation & Hsp & [[_ ?]|[_ [?|[value ?]]]])];
      eauto 10.
  - destruct (main_aggregation_cases data condition)
      as [[_ ?]|(column & operation & Hsp &
                 [[_ ?]|[_ [?|[[(r & ? & ?) ?]|[[? ?]|[value ?]]]]]])];
      eauto 12.
Qed.

End aggregation_errors.

(** ** Missing columns and the errors of filtering and ordering *)

Section missing_column.
Context `{Builtins}.
Implicit Types (column operator value order condition : string).

Lemma sort_orders_None order :
  Core.SORT_ORDERS !! order = None ↔ order ≠ "asc" ∧ order ≠ "desc".
Proof.
  unfold Core.SORT_ORDERS. rewrite lookup_insert, lookup_singleton.
  repeat case_decide; subst; intuition congruence.
Qed.

Lemma main_primary_key_Raise transform column (r : Main.row) e :
  Main.primary_key transform column r = Raise e →
  r !! column = None ∧ e = KeyError column
  ∨ e = ValueError FloatConversion.
Proof.
  unfold Main.primary_key, getitem, float_of.
  destruct (r !! column) as [v|]; simpl; [|intros [= <-]; auto].
  destruct (py_float v); simpl; [done|]. intros [= <-]. auto.
Qed.

Lemma main_fallback_key_Raise transform column (r : Main.row) e :
  Main.fallback_key transform column r = Raise e →
  r !! column = None ∧ e = KeyError column.
Proof.
  unfold Main.fallback_key, getitem.
  destruct (r !! column) as [v|]; simpl; [done|]. by intros [= <-].
Qed.

(** main.py: a row without the sort column makes the sort raise the
    [KeyError] of the column, in the first sort or in the fallback. *)
Lemma main_order_by_KeyError (data : list Main.row) condition column order
  transform r :
  split_spec condition = Ok (column, order) →
  Main.SORT_ORDERS !! order = Some transform →
  r ∈ data → r !! column = None →
  Main.apply_order_by data condition = Raise (KeyError column).
Proof.
  intros Hsp Ht Hr Hnone.
  unfold Main.apply_order_by. rewrite Hsp. simpl. rewrite Ht.
  assert (∀ key : Main.row → result pyval,
            (∀ e, key r = Raise e → e = KeyError column ∨
                                    e = ValueError FloatConversion) →
            (∀ k, key r ≠ Ok k) →
            ∃ e, py_sorted py_lt key data = Raise e ∧
                 (∃ r', r' ∈ data ∧ key r' = Raise e)) as Hraise.
  { intros key _ Hnok.
    destruct (comprehension key data) as [keys|e] eqn:Hc.
    - destruct (comprehension_Ok_elem _ _ _ _ Hc Hr) as [k Hk].
      by destruct (Hnok k).
    - exists e. split; [by apply py_sorted_comprehension_Raise|].
      by apply comprehension_Raise. }
  assert (∀ k, Main.primary_key transform column r ≠ Ok k) as Hp.
  { intros k. unfold Main.primary_key, getitem. by rewrite Hnone. }
  assert (∀ k, Main.fallback_key transform column r ≠ Ok k) as Hf.
  { intros k. unfold Main.fallback_key, getitem. by rewrite Hnone. }
  destruct (Hraise (Main.primary_key transform column))
    as (e & -> & r' & _ & He); [|done|].
  { intros e [[_ ->]| ->]%main_primary_key_Raise; auto. }
  apply main_primary_key_Raise in He as [[_ ->]| ->]; [done|].
  destruct (Hraise (Main.fallback_key transform column))
    as (e & -> & r'' & _ & He); [|done|].
  { intros e [_ ->]%main_fallback_key_Raise; auto. }
  by apply main_fallback_key_Raise in He as [_ ->].
Qed.

Lemma missing_or_present {V : Type} (data : list (gmap string V)) column :
  (∃ r, r ∈ data ∧ r !! column = None) ∨
  (∀ r, r ∈ data → is_Some (r !! column)).
Proof.
  destruct (decide (Exists (λ r : gmap string V, r !! column = None) data))
    as [Hex|Hnex].
  - left. by apply Exists_exists.
  - right. apply not_Exists_Forall in Hnex; [|apply _].
    rewrite Forall_forall in Hnex. intros r Hr.
    specialize (Hnex r Hr). simpl in Hnex.
    by destruct (r !! column).
Qed.

Lemma main_order_by_Raise (data : list Main.row) condition column order
  transform e :
  split_spec condition = Ok (column, order) →
  Main.SORT_ORDERS !! order = Some transform →
  Main.apply_order_by data condition = Raise e →
  e = KeyError column ∧ ∃ r, r ∈ data ∧ r !! column = None.
Proof.
  intros Hsp Ht He.
  destruct (missing_or_present data column) as [(r & Hr & Hnone)|Hall].
  - rewrite (main_order_by_KeyError _ _ _ _ _ _ Hsp Ht Hr Hnone) in He.
    injection He as <-. eauto.
  - destruct (main_apply_order_by_total _ _ _ _ _ Hsp Ht Hall) as [out Hout].
    congruence.
Qed.

(** X5. main.py, with a well-formed order spec: [apply_order_by] raises the
    [KeyError] of the sort column exactly when some row lacks the column;
    it raises nothing else, and returns otherwise. *)
Theorem main_order_by_missing_column (data : list Main.row) condition column
  order transform :
  split_spec condition = Ok (column, order) →
  Main.SORT_ORDERS !! order = Some transform →
  (Main.apply_order_by data condition = Raise (KeyError column) ↔
   ∃ r, r ∈ data ∧ r !! column = None) ∧
  (∀ e, Main.apply_order_by data condition = Raise e → e = KeyError column) ∧
  ((∀ r, r ∈ data → is_Some (r !! column)) →
   ∃ out, Main.apply_order_by data condition = Ok out ∧ out ≡ₚ data).
Proof.
  intros Hsp Ht.
  destruct (missing_or_present data column) as [(r & Hr & Hnone)|Hall].
  - rewrite (main_order_by_KeyError _ _ _ _ _ _ Hsp Ht Hr Hnone).
    split; [split; eauto|]. split; [by intros e [= <-]|].
    intros Hall. destruct (Hall r Hr) as [v Hv]. congruence.
  - destruct (main_apply_order_by_total _ _ _ _ _ Hsp Ht Hall) as [out Hout].
    rewrite Hout. split; [|split; [done|]].
    + split; [done|]. intros (r & Hr & Hnone).
      destruct (Hall r Hr) as [v Hv]. congruence.
    + intros _. exists out. split; [done|].
      unfold Main.apply_order_by in Hout. rewrite Hsp in Hout.
      simpl in Hout. rewrite Ht in Hout.
      pose proof (λ key, py_sorted_perm py_lt key data out) as Hperm.
      destruct (py_sorted py_lt (Main.primary_key transform column) data)
        as [out'|[]] eqn:Hp; try done.
      * injection Hout as ->. by eapply Hperm.
      * by eapply Hperm.
Qed.

(** X4. In both files an order spec without [=] raises the malformed-spec
    [ValueError] and a direction other than [asc] and [desc] raises the
    unknown-direction [ValueError], whatever the data, and only such specs
    raise these errors. core.py raises nothing else; main.py raises besides
    only the [KeyError] of a sort column that a row lacks. *)
Theorem order_by_spec_errors condition :
  (∀ data : list Core.row,
     (Core.apply_order_by data condition = Raise (ValueError MalformedSpec) ↔
      ¬ occurs "=" condition) ∧
     (Core.apply_order_by data condition
      = Raise (ValueError UnknownDirection) ↔
      ∃ column order, split_spec condition = Ok (column, order) ∧
                      order ≠ "asc" ∧ order ≠ "desc") ∧
     (∀ e, Core.apply_order_by data condition = Raise e →
           e = ValueError MalformedSpec ∨ e = ValueError UnknownDirection)) ∧
  (∀ data : list Main.row,
     (Main.apply_order_by data condition = Raise (ValueError MalformedSpec) ↔
      ¬ occurs "=" condition) ∧
     (Main.apply_order_by data condition
      = Raise (ValueError UnknownDirection) ↔
      ∃ column order, split_spec condition = Ok (column, order) ∧
                      order ≠ "asc" ∧ order ≠ "desc") ∧
     (∀ e, Main.apply_order_by data condition = Raise e →
           e = ValueError MalformedSpec ∨ e = ValueError UnknownDirection ∨
           ∃ column r, e = KeyError column ∧ r ∈ data ∧ r !! column = None)).
Proof.
  split; intros data.
  - destruct (split_spec condition) as [[column order]|e] eqn:Hsp.
    + pose proof (split_spec_Ok_occurs _ _ _ Hsp) as Hocc.
      destruct (Core.SORT_ORDERS !! order) as [transform|] eqn:Ht.
      * destruct (py_sorted_Ok _ _
                    (core_sort_key_not_mixed data column order transform Ht))
          as (out & Hout & _).
        rewrite (core_apply_order_by_eq _ _ _ _ _ Hsp Ht), Hout.
        split; [split; [done|by intros ?]|]. split; [|done].
        split; [done|]. intros (c & o & [= <- <-] & Hn).
        apply sort_orders_None in Hn. congruence.
      * unfold Core.apply_order_by. rewrite Hsp. simpl. rewrite Ht.
        split; [split; [done|by intros ?]|]. split; [|intros e [= <-]; auto].
        split; [|done]. intros _. exists column, order. split; [done|].
        by apply sort_orders_None.
    + apply split_spec_Raise in Hsp as Hsp'. destruct Hsp' as [-> Hno].
      unfold Core.apply_order_by. rewrite Hsp. simpl.
      split; [done|]. split; [|intros e [= <-]; auto].
      split; [done|]. by intros (c & o & ? & _).
  - destruct (split_spec condition) as [[column order]|e] eqn:Hsp.
    + pose proof (split_spec_Ok_occurs _ _ _ Hsp) as Hocc.
      destruct (Main.SORT_ORDERS !! order) as [transform|] eqn:Ht.
      * pose proof (λ e, main_order_by_Raise data _ _ _ _ e Hsp Ht)
          as Hraise.
        split; [split; [by intros [[=] _]%Hraise|by intros ?]|].
        split.
        -- split; [by intros [[=] _]%Hraise|].
           intros (c & o & [= <- <-] & Hn).
           apply sort_orders_None in Hn. unfold Main.SORT_ORDERS in Ht.
           unfold Core.SORT_ORDERS in Hn. congruence.
        -- intros e (-> & r & Hr & Hnone)%Hraise. right. right. eauto.
      * unfold Main.apply_order_by. rewrite Hsp. simpl. rewrite Ht.
        split; [split; [done|by intros ?]|]. split; [|intros e [= <-]; auto].
        split; [|done]. intros _. exists column, order. split; [done|].
        by apply sort_orders_None.
    + apply split_spec_Raise in Hsp as Hsp'. destruct Hsp' as [-> Hno].
      unfold Main.apply_order_by. rewrite Hsp. simpl.
      split; [done|]. split; [|intros e [= <-]; auto].
      split; [done|]. by intros (c & o & ? & _).
Qed.

End missing_column.

Section filter_errors.
Context `{Builtins}.
Implicit Types (column operator value condition : string).

Lemma main_selects_Raise column operator value (r : Main.row) e :
  operator ∈ operators →
  main_selects column operator value r = Raise e →
  r !! column = None ∧ e = KeyError column
  ∨ e = ValueError UnsupportedOperator ∧ (operator = ">=" ∨ operator = "<=").
Proof.
  intros Hop. unfold main_selects, getitem.
  destruct (r !! column) as [v|]; simpl; [|intros [= <-]; auto].
  unfold Main.condition_met, Main.numeric_test, Main.string_test, float_of.
  destruct (operators_cases _ Hop) as [->|[->|[->|[->| ->]]]];
    destruct (py_float v); simpl; try done;
    destruct (py_float value); simpl; try done; intros [= <-]; auto.
Qed.

Lemma main_filter_loop_Raise column operator value
  (data acc : list Main.row) e :
  for_each (λ filtered_data r,
      row_value ← getitem r column;
      met ← Main.condition_met operator value row_value;
      Ok (if met : bool then filtered_data ++ [r] else filtered_data))
    data acc = Raise e →
  ∃ r, r ∈ data ∧ main_selects column operator value r = Raise e.
Proof.
  revert acc. induction data as [|r data IH]; intros acc; simpl; [done|].
  rewrite main_filter_body.
  destruct (main_selects column operator value r) as [met|e'] eqn:Hr; simpl.
  - intros (r' & Hr' & He)%IH. exists r'. split; [by right|done].
  - intros [= <-]. exists r. split; [by left|done].
Qed.

Lemma main_filter_Raise condition column operator value (data : list Main.row)
  e :
  parse_condition condition = Ok (column, operator, value) →
  Main.apply_filter data condition = Raise e →
  ∃ r, r ∈ data ∧ main_selects column operator value r = Raise e.
Proof.
  intros Hp. unfold Main.apply_filter. rewrite Hp. simpl.
  apply main_filter_loop_Raise.
Qed.

(** X6. main.py: once the condition parses, [apply_filter] raises only the
    [KeyError] of the column, and then a row lacks the column, or the
    unsupported-operator [ValueError], and then the operator is [>=] or
    [<=]. A row without the column always makes it raise; with [=], [>] or
    [<] it raises the [KeyError] exactly when a row lacks the column. *)
Theorem main_filter_errors condition column operator value
  (data : list Main.row) :
  parse_condition condition = Ok (column, operator, value) →
  (∀ e, Main.apply_filter data condition = Raise e →
        e = KeyError column ∧ (∃ r, r ∈ data ∧ r !! column = None)
        ∨ e = ValueError UnsupportedOperator ∧
          (operator = ">=" ∨ operator = "<=")) ∧
  ((∃ r, r ∈ data ∧ r !! column = None) →
   ∃ e, Main.apply_filter data condition = Raise e) ∧
  (operator ≠ ">=" → operator ≠ "<=" →
   (Main.apply_filter data condition = Raise (KeyError column) ↔
    ∃ r, r ∈ data ∧ r !! column = None)).
Proof.
  intros Hp. pose proof (parse_condition_operator _ _ _ _ Hp) as Hop.
  assert (∀ e, Main.apply_filter data condition = Raise e →
               e = KeyError column ∧ (∃ r, r ∈ data ∧ r !! column = None)
               ∨ e = ValueError UnsupportedOperator ∧
                 (operator = ">=" ∨ operator = "<=")) as Hraise.
  { intros e (r & Hr & He)%(main_filter_Raise _ _ _ _ _ _ Hp).
    apply (main_selects_Raise _ _ _ _ _ Hop) in He as [[Hnone ->]|[-> Hge]];
      eauto. }
  assert ((∃ r, r ∈ data ∧ r !! column = None) →
          ∃ e, Main.apply_filter data condition = Raise e) as Hmissing.
  { intros (r & Hr & Hnone).
    destruct (Main.apply_filter data condition) as [out|e] eqn:Hf; [|eauto].
    apply (main_apply_filter_Ok _ _ _ _ _ _ Hp) in Hf as [Hall _].
    rewrite Forall_forall in Hall. destruct (Hall r Hr) as [b Hb].
    unfold main_selects, getitem in Hb. by rewrite Hnone in Hb. }
  split; [done|]. split; [done|]. intros Hge Hle. split.
  - by intros [[_ ?]|[[=] _]]%Hraise.
  - intros [e He]%Hmissing. rewrite He.
    apply Hraise in He as [[-> _]|[_ [?|?]]]; done.
Qed.

(** X7. core.py: a row without the column of the condition never raises and
    is never kept: every row of the output has the column, and dropping the
    rows without it beforehand does not change the output. *)
Theorem core_filter_ignores_missing condition column operator value
  (data : list Core.row) :
  parse_condition condition = Ok (column, operator, value) →
  ∃ out, Core.apply_filter data condition = Ok out ∧
         (∀ r, r ∈ out → is_Some (r !! column)) ∧
         Core.apply_filter (filter (λ r, is_Some (r !! column)) data)
           condition = Ok out.
Proof.
  intros Hp. rewrite !(core_apply_filter_eq _ _ _ _ _ Hp).
  eexists. split; [done|].
  assert (∀ r : Core.row, core_selects column operator value r = true →
                          is_Some (r !! column)) as Hsel.
  { intros r. unfold core_selects. by destruct (r !! column). }
  split.
  - intros r [Hr _]%list_elem_of_filter. by apply Hsel.
  - f_equal. by apply list_filter_filter_l.
Qed.

(** X8. core.py: when at least one of two conditions parses, filtering by
    one and then by the other gives the same result in either order: the
    same rows, or the exception of the condition that does not parse. (When
    neither parses, each order raises for the condition it meets first.) *)
Theorem core_filter_commute condition1 condition2 (data : list Core.row) :
  (∃ p, parse_condition condition1 = Ok p) ∨
  (∃ p, parse_condition condition2 = Ok p) →
  (out ← Core.apply_filter data condition1; Core.apply_filter out condition2)
  = (out ← Core.apply_filter data condition2;
     Core.apply_filter out condition1).
Proof.
  intros Hparses.
  destruct (parse_condition condition1) as [[[c1 o1] v1]|e1] eqn:Hp1;
    destruct (parse_condition condition2) as [[[c2 o2] v2]|e2] eqn:Hp2.
  - rewrite (core_apply_filter_eq data _ _ _ _ Hp1),
      (core_apply_filter_eq data _ _ _ _ Hp2). simpl.
    rewrite (core_apply_filter_eq _ _ _ _ _ Hp1),
      (core_apply_filter_eq _ _ _ _ _ Hp2).
    f_equal. rewrite !list_filter_filter. apply list_filter_iff. tauto.
  - rewrite (core_apply_filter_eq data _ _ _ _ Hp1). simpl.
    unfold Core.apply_filter. by rewrite Hp2.
  - rewrite (core_apply_filter_eq data _ _ _ _ Hp2). simpl.
    unfold Core.apply_filter. by rewrite Hp1.
  - by destruct Hparses as [[p Hp]|[p Hp]].
Qed.

End filter_errors.

(** ** The values of the aggregations *)

Section aggregation_values.
Context `{Builtins}.
Implicit Types (column condition : string) (x : list float).

Lemma fold_min_spec (x0 : float) x :
  Forall (λ a, PrimFloat.is_nan a = false) (x0 :: x) →
  let lo := fold_left (λ best item,
              if PrimFloat.ltb item best then item else best) x x0 in
  lo ∈ x0 :: x ∧ Forall (λ a, PrimFloat.leb lo a = true) (x0 :: x).
Proof.
  revert x0. induction x as [|a x IH]; intros x0 Hnan; simpl.
  - apply Forall_cons in Hnan as [Hx0 _]. split; [by left|].
    constructor; [by apply float_leb_refl|done].
  - apply Forall_cons in Hnan as [Hx0 [Ha Hnan]%Forall_cons].
    destruct (PrimFloat.ltb a x0) eqn:Hlt.
    + destruct (IH a) as [Hin [Hlo Hall]%Forall_cons]; [by constructor|].
      split; [by right|]. constructor; [|by constructor].
      eapply float_leb_trans; [done|]. by apply float_ltb_leb.
    + destruct (IH x0) as [Hin [Hlo Hall]%Forall_cons]; [by constructor|].
      split.
      * apply elem_of_cons in Hin as [->|Hin]; [by left|right; by right].
      * constructor; [done|]. constructor; [|done].
        eapply float_leb_trans; [done|]. by apply float_ltb_false_leb.
Qed.

Lemma fold_max_spec (x0 : float) x :
  Forall (λ a, PrimFloat.is_nan a = false) (x0 :: x) →
  let hi := fold_left (λ best item,
              if PrimFloat.ltb best item then item else best) x x0 in
  hi ∈ x0 :: x ∧ Forall (λ a, PrimFloat.leb a hi = true) (x0 :: x).
Proof.
  revert x0. induction x as [|a x IH]; intros x0 Hnan; simpl.
  - apply Forall_cons in Hnan as [Hx0 _]. split; [by left|].
    constructor; [by apply float_leb_refl|done].
  - apply Forall_cons in Hnan as [Hx0 [Ha Hnan]%Forall_cons].
    destruct (PrimFloat.ltb x0 a) eqn:Hlt.
    + destruct (IH a) as [Hin [Hhi Hall]%Forall_cons]; [by constructor|].
      split; [by right|]. constructor; [|by constructor].
      eapply float_leb_trans; [|done]. by apply float_ltb_leb.
    + destruct (IH x0) as [Hin [Hhi Hall]%Forall_cons]; [by constructor|].
      split.
      * apply elem_of_cons in Hin as [->|Hin]; [by left|right; by right].
      * constructor; [done|]. constructor; [|done].
        eapply float_leb_trans; [|done]. by apply float_ltb_false_leb.
Qed.

(** X9. [min] and [max] (the same functions in both tables) return, on a
    non-empty column without NaN, an element of the column that is at most,
    respectively at least, every element. *)
Theorem min_max_bounds :
  Core.AGGREGATIONS !! "min" = Some agg_min ∧
  Core.AGGREGATIONS !! "max" = Some agg_max ∧
  Main.AGGREGATIONS !! "min" = Some agg_min ∧
  Main.AGGREGATIONS !! "max" = Some agg_max ∧
  ∀ x, x ≠ [] → Forall (λ a, PrimFloat.is_nan a = false) x →
    ∃ lo hi,
      agg_min x = Ok (VFloat lo) ∧ agg_max x = Ok (VFloat hi) ∧
      lo ∈ x ∧ hi ∈ x ∧
      Forall (λ a, PrimFloat.leb lo a = true ∧ PrimFloat.leb a hi = true) x.
Proof.
  repeat (split; [done|]). intros x Hx Hnan. destruct x as [|x0 x]; [done|].
  destruct (fold_min_spec x0 x Hnan) as [Hlo Hlos].
  destruct (fold_max_spec x0 x Hnan) as [Hhi Hhis].
  eexists _, _. split; [done|]. split; [done|]. split; [done|].
  split; [done|]. rewrite Forall_forall in Hlos, Hhis.
  apply Forall_forall. intros a Ha. split; [by apply Hlos|by apply Hhis].
Qed.

(** X10. On a non-empty column without NaN the median is an element of the
    column and lies between the minimum and the maximum. *)
Theorem median_between_min_and_max x :
  x ≠ [] → Forall (λ a, PrimFloat.is_nan a = false) x →
  ∃ lo m hi,
    agg_min x = Ok (VFloat lo) ∧ agg_median x = Ok (VFloat m) ∧
    agg_max x = Ok (VFloat hi) ∧
    m ∈ x ∧ PrimFloat.leb lo m = true ∧ PrimFloat.leb m hi = true.
Proof.
  intros Hx Hnan.
  destruct (agg_median_nonempty x Hx) as (m & Hm & Hin).
  destruct x as [|x0 x]; [done|].
  destruct (fold_min_spec x0 x Hnan) as [_ Hlos].
  destruct (fold_max_spec x0 x Hnan) as [_ Hhis].
  rewrite Forall_forall in Hlos, Hhis.
  eexists _, m, _. split; [done|]. split; [done|]. split; [done|].
  split; [done|]. split; [by apply Hlos|by apply Hhis].
Qed.

Lemma omap_length_filter {A B : Type} (f : A → option B) (l : list A) :
  length (omap f l) = length (filter (λ a, is_Some (f a)) l).
Proof.
  induction l as [|a l IH]; [done|]. simpl. rewrite filter_cons.
  destruct (f a) as [b|] eqn:Hf; simpl.
  - destruct (decide (is_Some (Some b))) as [|Hn]; [by rewrite <-IH|].
    by destruct Hn.
  - destruct (decide (is_Some (@None B))) as [[? [=]]|]; done.
Qed.

(** X11. core.py: on a column whose cells all convert, [count] is the number
    of rows that have the column, as an [int], except that with no such row
    (so also on an empty dataset) the value is [None] and not [0]. *)
Theorem core_count_rows (data : list Core.row) condition column :
  split_spec condition = Ok (column, "count") →
  (∀ r cell, r ∈ data → r !! column = Some cell →
             ∃ v, Core.as_float cell = Ok v) →
  Core.apply_aggregation data condition
  = Ok [AggRecord "count" column
          match length (filter (λ r, is_Some (r !! column)) data) with
          | O => VNone
          | S n => VInt (Z.of_nat (S n))
          end].
Proof.
  intros Hsp Hcells. unfold Core.apply_aggregation. rewrite Hsp. simpl.
  assert (Core.AGGREGATIONS !! "count" = Some agg_count) as -> by done.
  destruct (comprehension_all_Ok Core.as_float
              (omap (λ r : Core.row, r !! column) data)) as [values Hvalues].
  { intros cell (r & Hr & Hcell)%list_elem_of_omap. by eapply Hcells. }
  rewrite Hvalues.
  assert (length values
          = length (filter (λ r : Core.row, is_Some (r !! column)) data))
    as <-.
  { rewrite <-omap_length_filter. symmetry.
    by apply comprehension_Ok, Forall2_length in Hvalues. }
  by destruct values.
Qed.

End aggregation_values.

(** ** The order of the sorted rows *)

Section order_values.
Context `{Builtins}.
Implicit Types (column order condition : string).

Lemma mixed_perm (keys1 keys2 : list pyval) :
  keys1 ≡ₚ keys2 → mixed keys1 = mixed keys2.
Proof.
  intros Hperm.
  destruct (mixed keys1) eqn:H1, (mixed keys2) eqn:H2; try done.
  - assert (mixed keys1 = false); [|congruence]. apply mixed_false.
    intros a b Ha Hb. rewrite Hperm in Ha, Hb. by eapply mixed_false.
  - assert (mixed keys2 = false); [|congruence]. apply mixed_false.
    intros a b Ha Hb. rewrite <-Hperm in Ha, Hb. by eapply mixed_false.
Qed.

Lemma float_not_nan_eqb (v : float) :
  PrimFloat.is_nan v = false → PrimFloat.eqb (- v) (- v) = true.
Proof.
  rewrite float_opp_eqb. unfold PrimFloat.is_nan.
  by destruct (PrimFloat.eqb v v).
Qed.

(** X12. With the direction [desc] and a numeric sort column without NaN,
    the numbers of the output rows descend, in both files: the negated keys
    do give the descending order. In core.py a row without the column
    counts as [0]. *)
Theorem numeric_desc_descends condition column :
  split_spec condition = Ok (column, "desc") →
  (∀ data : list Core.row,
     (∀ r, r ∈ data →
           ∃ v, default (Num 0) (r !! column) = Num v ∧
                PrimFloat.is_nan v = false) →
     ∃ out, Core.apply_order_by data condition = Ok out ∧ out ≡ₚ data ∧
            StronglySorted (λ r1 r2,
                py_le (default (Num 0) (r2 !! column))
                      (default (Num 0) (r1 !! column)) = true) out) ∧
  (∀ data : list Main.row,
     (∀ r, r ∈ data →
           ∃ s v, r !! column = Some s ∧ py_float s = Some v ∧
                  PrimFloat.is_nan v = false) →
     ∃ out, Main.apply_order_by data condition = Ok out ∧ out ≡ₚ data ∧
            StronglySorted (λ r1 r2,
                ∃ s1 v1 s2 v2,
                  r1 !! column = Some s1 ∧ py_float s1 = Some v1 ∧
                  r2 !! column = Some s2 ∧ py_float s2 = Some v2 ∧
                  PrimFloat.leb v2 v1 = true) out).
Proof.
  intros Hsp.
  assert (Core.SORT_ORDERS !! "desc" = Some order_desc) as Ht by done.
  split; intros data Hnum.
  - assert (∀ r, r ∈ data →
              ∃ v, Core.primary_key order_desc column r = Num (- v)
                   ∧ default (Num 0) (r !! column) = Num v
                   ∧ PrimFloat.is_nan v = false) as Hkeys.
    { intros r (v & Hv & Hnan)%Hnum. exists v.
      unfold Core.primary_key. by rewrite Hv. }
    assert (mixed (Core.primary_key order_desc column <$> data) = false)
      as Hm.
    { apply mixed_all_num. intros r (v & -> & _)%Hkeys. done. }
    rewrite (core_apply_order_by_eq _ _ _ _ _ Hsp Ht).
    unfold core_sort_key. rewrite Hm.
    destruct (py_sorted_Ok _ _ Hm) as (out & Hout & Hperm & Hst).
    exists out. split; [done|]. split; [done|].
    apply (StronglySorted_impl_elem
             (λ r1 r2, py_le (Core.primary_key order_desc column r1)
                             (Core.primary_key order_desc column r2) = true)).
    + intros r1 r2 Hr1 Hr2. rewrite Hperm in Hr1, Hr2.
      destruct (Hkeys r1 Hr1) as (v1 & -> & -> & _).
      destruct (Hkeys r2 Hr2) as (v2 & -> & -> & _).
      simpl. by rewrite float_opp_leb.
    + apply (py_sorted_ascending _ _ _ Hout).
      intros r (v & -> & _ & Hnan)%Hkeys. simpl.
      by apply float_not_nan_eqb.
  - assert (∀ r, r ∈ data →
              ∃ s v, Main.primary_key order_desc column r = Ok (Num (- v))
                     ∧ r !! column = Some s ∧ py_float s = Some v
                     ∧ PrimFloat.is_nan v = false) as Hkeys.
    { intros r (s & v & Hs & Hv & Hnan)%Hnum. exists s, v.
      unfold Main.primary_key, getitem, float_of. rewrite Hs. simpl.
      by rewrite Hv. }
    destruct (comprehension_all_Ok (Main.primary_key order_desc column) data)
      as [keys Hc].
    { intros r (s & v & -> & _)%Hkeys. eauto. }
    destruct (py_sorted_keys_Ok _ _ _ true Hc) as (out & Hout & Hperm & Hso).
    { intros r k. apply main_primary_key_num. by right. }
    exists out. split; [|split; [done|]].
    { unfold Main.apply_order_by. rewrite Hsp. simpl.
      assert (Main.SORT_ORDERS !! "desc" = Some order_desc) as -> by done.
      by rewrite Hout. }
    apply (StronglySorted_impl_elem
             (λ r1 r2,
                py_le (key_of (Main.primary_key order_desc column) r1)
                      (key_of (Main.primary_key order_desc column) r2)
                = true)).
    + intros r1 r2 Hr1 Hr2. rewrite Hperm in Hr1, Hr2.
      destruct (Hkeys r1 Hr1) as (s1 & v1 & Hk1 & Hs1 & Hv1 & _).
      destruct (Hkeys r2 Hr2) as (s2 & v2 & Hk2 & Hs2 & Hv2 & _).
      unfold key_of. rewrite Hk1, Hk2. simpl. rewrite float_opp_leb.
      intros Hle. exists s1, v1, s2, v2. done.
    + apply Hso. intros r (s & v & Hk & _ & _ & Hnan)%Hkeys.
      unfold key_of. rewrite Hk. simpl. by apply float_not_nan_eqb.
Qed.

(** X13. core.py: sorting the output of [apply_order_by] again by the same
    spec returns it unchanged (keys without NaN); a spec that raises gives
    its exception. *)
Theorem core_order_by_idempotent (data : list Core.row) condition column
  order transform :
  split_spec condition = Ok (column, order) →
  Core.SORT_ORDERS !! order = Some transform →
  keys_ordered (core_sort_key transform column data) data →
  (out ← Core.apply_order_by data condition;
   Core.apply_order_by out condition)
  = Core.apply_order_by data condition.
Proof.
  intros Hsp Ht Hord.
  rewrite (core_apply_order_by_eq data _ _ _ _ Hsp Ht).
  destruct (py_sorted_Ok _ _
              (core_sort_key_not_mixed data column order transform Ht))
    as (out & Hout & Hperm & Hst).
  rewrite Hout. simpl.
  pose proof (py_sorted_ascending _ _ _ Hout Hord) as Hasc.
  rewrite (core_apply_order_by_eq out _ _ _ _ Hsp Ht).
  assert (core_sort_key transform column out
          = core_sort_key transform column data) as Hkey.
  { unfold core_sort_key.
    by rewrite (mixed_perm (Core.primary_key transform column <$> out)
                  (Core.primary_key transform column <$> data))
      by (by rewrite Hperm). }
  rewrite Hkey.
  assert (mixed (core_sort_key transform column data <$> out) = false) as Hm.
  { rewrite (mixed_perm _ (core_sort_key transform column data <$> data))
      by (by rewrite Hperm).
    exact (core_sort_key_not_mixed data column order transform Ht). }
  destruct (py_sorted_Ok _ _ Hm) as (out2 & Hout2 & Hperm2 & Hst2).
  rewrite Hout2. f_equal.
  assert (keys_ordered (core_sort_key transform column data) out) as Hord1.
  { intros r Hr. apply Hord. by rewrite <-Hperm. }
  apply (stable_sorted_unique (core_sort_key transform column data));
    [done|by apply (Hst2 Hord1)| |by eapply py_sorted_ascending|done].
  intros r Hr. apply Hord1. by rewrite <-Hperm2.
Qed.

End order_values.

(** ** The typed reader of core.py against the reader of main.py *)

#[local] Arguments Nat.div : simpl never.

Section sort_map.
Context {K A B : Type} (lt : K → K → option bool) (g : A → B).

Lemma run_length_fmap d prev (l : list (K * A)) :
  run_length lt d prev ((λ z : K * A, (z.1, g z.2)) <$> l)
  = run_length lt d prev l.
Proof.
  revert prev. induction l as [|x l IH]; intros prev; [done|].
  rewrite fmap_cons. simpl. destruct (lt x.1 prev) as [b|]; simpl; [|done].
  by rewrite IH.
Qed.

Lemma count_run_fmap (l : list (K * A)) :
  count_run lt ((λ z : K * A, (z.1, g z.2)) <$> l) = count_run lt l.
Proof.
  destruct l as [|x0 [|x1 l]]; [done..|]. rewrite !fmap_cons. simpl.
  destruct (lt x1.1 x0.1) as [b|]; simpl; [|done].
  by rewrite run_length_fmap.
Qed.

Lemma bisect_fmap fuel k (a : list (K * A)) (l r : nat) :
  bisect lt fuel k ((λ z : K * A, (z.1, g z.2)) <$> a) l r
  = bisect lt fuel k a l r.
Proof.
  revert l r. induction fuel as [|fuel IH]; intros l r; [done|].
  simpl. destruct (l <? r)%nat; [|done]. rewrite list_lookup_fmap.
  destruct (a !! _) as [e|]; simpl; [|done].
  destruct (lt k e.1) as [[]|]; simpl; by rewrite ?IH.
Qed.

Lemma binarysort_fmap (run rest : list (K * A)) :
  binarysort lt ((λ z : K * A, (z.1, g z.2)) <$> run)
    ((λ z : K * A, (z.1, g z.2)) <$> rest)
  = fmap (M:=list) (λ z : K * A, (z.1, g z.2)) <$> binarysort lt run rest.
Proof.
  revert run. induction rest as [|pivot rest IH]; intros run; [done|].
  rewrite fmap_cons. simpl. rewrite length_fmap, bisect_fmap.
  destruct (bisect lt _ _ _ _ _) as [i|]; simpl; [|done].
  rewrite <-IH. f_equal.
  by rewrite fmap_app, fmap_cons, fmap_take, fmap_drop.
Qed.

Lemma listsort_fmap (l : list (K * A)) :
  listsort lt ((λ z : K * A, (z.1, g z.2)) <$> l)
  = fmap (M:=list) (λ z : K * A, (z.1, g z.2)) <$> listsort lt l.
Proof.
  unfold listsort. rewrite length_fmap, count_run_fmap.
  destruct (length l <? 2)%nat; [done|].
  destruct (count_run lt l) as [[n d]|]; simpl; [|done].
  rewrite <-binarysort_fmap, fmap_drop. f_equal.
  destruct d; by rewrite ?fmap_reverse, fmap_take.
Qed.

End sort_map.

Section reader_facts.
Context `{Builtins}.
Implicit Types (column operator value condition : string)
  (reader : list Main.row).

(** Sorting the images of the rows is sorting the rows by the key of their
    images. *)
Lemma py_sorted_fmap {A B : Type} (g : A → B) (key : B → pyval)
  (data : list A) :
  py_sorted py_lt (λ r, Ok (key r)) (g <$> data)
  = fmap (M:=list) g <$> py_sorted py_lt (λ r, Ok (key (g r))) data.
Proof.
  rewrite !py_sorted_pure.
  assert ((λ r, (key r, r)) <$> (g <$> data)
          = (λ z : pyval * A, (z.1, g z.2))
              <$> ((λ r, (key (g r), r)) <$> data)) as ->.
  { by rewrite <-!list_fmap_compose. }
  rewrite listsort_fmap.
  destruct (listsort py_lt _) as [s|]; simpl; [|done].
  f_equal. rewrite <-!list_fmap_compose. by apply list_fmap_ext.
Qed.

Lemma py_sorted_ext {A : Type} (key1 key2 : A → pyval) (data : list A) :
  (∀ r, r ∈ data → key1 r = key2 r) →
  py_sorted py_lt (λ r, Ok (key1 r)) data
  = py_sorted py_lt (λ r, Ok (key2 r)) data.
Proof.
  intros Hext. rewrite !py_sorted_pure.
  assert ((λ r, (key1 r, r)) <$> data = (λ r, (key2 r, r)) <$> data) as ->;
    [|done].
  apply list_fmap_ext. intros i r Hr. f_equal. apply Hext.
  by eapply list_elem_of_lookup_2.
Qed.

Lemma processed_text value :
  (if String.eqb value "" then value else strip value) = strip value.
Proof. by destruct (String.eqb_spec value "") as [->|]. Qed.

Lemma processed_lookup (row : Main.row) column :
  processed_row row !! column = processed_cell <$> row !! column.
Proof. apply lookup_fmap. Qed.

(** X14. [read_csv] of core.py keeps the columns of a row; a cell that
    converts becomes that float, and any other cell becomes its text
    without the whitespace around it. *)
Theorem processed_row_cells (row : Main.row) column :
  match row !! column, processed_row row !! column with
  | None, None => True
  | Some s, Some (Num x) => py_float s = Some x
  | Some s, Some (Str t) => py_float s = None ∧ trimmed_of s t
  | _, _ => False
  end.
Proof.
  rewrite processed_lookup. destruct (row !! column) as [s|]; simpl; [|done].
  unfold processed_cell. destruct (py_float s) as [x|] eqn:Hs; [done|].
  split; [done|]. rewrite processed_text. apply strip_trimmed.
Qed.

(** *** Filtering *)

Lemma read_selects (r : Main.row) column operator value b :
  operator ∈ operators →
  (∀ s, r !! column = Some s →
        match py_float s with
        | Some _ => is_Some (py_float value)
        | None => strip s = s
        end) →
  main_selects column operator value r = Ok b →
  core_selects column operator value (processed_row r) = b.
Proof.
  intros Hop Hread Hmain.
  destruct (r !! column) as [s|] eqn:Hr;
    [|by unfold main_selects, getitem in Hmain; rewrite Hr in Hmain].
  specialize (Hread s eq_refl).
  assert (processed_row r !! column = Some (processed_cell s)) as Hcell.
  { by rewrite processed_lookup, Hr. }
  unfold processed_cell in Hcell.
  destruct (py_float s) as [x|] eqn:Hs.
  - destruct Hread as [v Hv].
    rewrite (main_selects_numeric _ _ _ _ _ _ _ Hop Hr Hs Hv) in Hmain.
    injection Hmain as <-.
    by apply (core_selects_numeric _ _ _ _ (Num x)).
  - rewrite processed_text, Hread in Hcell.
    rewrite (main_selects_string _ _ _ _ _ Hr) in Hmain by auto.
    rewrite (core_selects_string _ _ _ _ _ Hcell).
    + simpl. by destruct (string_predicate operator s value); simplify_eq.
    + left. simpl. unfold float_of. by rewrite Hs.
Qed.

(** X15. A filter that main.py completes on the rows of the reader gives in
    core.py the typed images of the same rows, when every text cell of the
    column carries no whitespace around it and a cell that is a number
    meets an operand that is one as well. *)
Theorem read_filter_agrees reader condition column operator value out :
  parse_condition condition = Ok (column, operator, value) →
  (∀ row s, row ∈ reader → row !! column = Some s →
            match py_float s with
            | Some _ => is_Some (py_float value)
            | None => strip s = s
            end) →
  Main.apply_filter reader condition = Ok out →
  Core.apply_filter (processed_data reader) condition
  = Ok (processed_data out).
Proof.
  intros Hp Hread Hmain.
  pose proof (parse_condition_operator _ _ _ _ Hp) as Hop.
  apply (main_apply_filter_Ok _ _ _ _ _ _ Hp) in Hmain as [Hall ->].
  rewrite (core_apply_filter_eq _ _ _ _ _ Hp). f_equal.
  unfold processed_data.
  induction reader as [|r reader IH]; [done|].
  apply Forall_cons in Hall as [[b Hb] Hall].
  rewrite fmap_cons, !filter_cons, Hb.
  rewrite (read_selects r column operator value b Hop);
    [|intros s; apply Hread; by left|done].
  rewrite IH; [|intros row s Hrow; apply Hread; by right|done].
  destruct b; simpl; repeat case_decide; done.
Qed.

(** *** Aggregating *)

Lemma read_values reader column :
  (∀ row, row ∈ reader →
          ∃ s, row !! column = Some s ∧
               (py_float s = None → py_float (strip s) = None)) →
  comprehension Core.as_float
    (omap (λ r : Core.row, r !! column) (processed_data reader))
  = comprehension (λ r : Main.row, v ← getitem r column; float_of v) reader.
Proof.
  unfold processed_data. induction reader as [|r reader IH]; intros Hcol;
    [done|].
  destruct (Hcol r) as (s & Hs & Hstrip); [by left|].
  assert (∀ row, row ∈ reader →
            ∃ s, row !! column = Some s ∧
                 (py_float s = None → py_float (strip s) = None)) as Hrest.
  { intros row Hrow. apply Hcol. by right. }
  specialize (IH Hrest).
  unfold omap in IH.
  rewrite fmap_cons. simpl. rewrite processed_lookup, Hs. simpl.
  rewrite IH.
  assert (getitem r column = Ok s) as -> by (unfold getitem; by rewrite Hs).
  simpl. unfold processed_cell.
  destruct (py_float s) as [x|] eqn:Hx; simpl.
  - unfold float_of. by rewrite Hx.
  - rewrite processed_text. unfold float_of. by rewrite Hstrip, Hx.
Qed.

(** X16. On the rows of a reader that is not empty and has the column in
    every row, both files return the same aggregation or raise the same
    exception, when [float] refuses a stripped cell that it refuses
    unstripped. *)
Theorem read_aggregation_agrees reader condition column operation :
  split_spec condition = Ok (column, operation) →
  operation ∈ main_operations →
  reader ≠ [] →
  (∀ row, row ∈ reader →
          ∃ s, row !! column = Some s ∧
               (py_float s = None → py_float (strip s) = None)) →
  Core.apply_aggregation (processed_data reader) condition
  = Main.apply_aggregation reader condition.
Proof.
  intros Hsp Hop Hne Hcol.
  unfold Core.apply_aggregation, Main.apply_aggregation.
  rewrite Hsp. simpl. rewrite (read_values _ _ Hcol).
  assert (∃ aggregate, Core.AGGREGATIONS !! operation = Some aggregate
                       ∧ Main.AGGREGATIONS !! operation = Some aggregate)
    as (aggregate & -> & ->).
  { unfold main_operations in Hop. rewrite !elem_of_cons, elem_of_nil in Hop.
    destruct Hop as [->|[->|[->|[->|[]]]]]; eauto. }
  destruct (comprehension _ reader) as [values|e] eqn:Hc.
  - destruct values as [|x values]; [|done].
    apply comprehension_Ok in Hc. apply Forall2_nil_inv_r in Hc. done.
  - apply comprehension_Raise in Hc as (r & Hr & He).
    destruct (Hcol r Hr) as (s & Hs & _).
    unfold getitem, float_of in He. rewrite Hs in He. simpl in He.
    destruct (py_float s); by simplify_eq.
Qed.

(** *** Sorting *)

Lemma main_apply_order_by_eq reader condition column order transform :
  split_spec condition = Ok (column, order) →
  Main.SORT_ORDERS !! order = Some transform →
  (∀ r, r ∈ reader → is_Some (r !! column)) →
  Main.apply_order_by reader condition
  = py_sorted py_lt (λ r, Ok (main_sort_key transform column reader r)) reader.
Proof.
  intros Hsp Ht Hcol.
  unfold Main.apply_order_by, main_sort_key. rewrite Hsp. simpl. rewrite Ht.
  destruct (comprehension (Main.primary_key transform column) reader)
    as [keys|e] eqn:Hc.
  - rewrite (py_sorted_key_of _ _ _ Hc).
    destruct (py_sorted py_lt _ reader) as [out|e] eqn:Hs; [done|].
    by apply py_sorted_Raise in Hs as [-> _].
  - rewrite (py_sorted_comprehension_Raise _ _ _ Hc).
    apply comprehension_Raise in Hc as (r & [v Hv]%Hcol & Hr).
    unfold Main.primary_key, getitem, float_of in Hr. rewrite Hv in Hr.
    simpl in Hr. destruct (py_float v); simpl in Hr; [done|].
    injection Hr as <-.
    destruct (comprehension_all_Ok (Main.fallback_key transform column) reader)
      as [fkeys Hf].
    { intros r' [v' Hv']%Hcol. unfold Main.fallback_key, getitem.
      rewrite Hv'. simpl. eauto. }
    by rewrite (py_sorted_key_of _ _ _ Hf).
Qed.

Lemma read_sort_key reader column order transform :
  Core.SORT_ORDERS !! order = Some transform →
  numeric_column column reader ∨ text_column column reader →
  ∀ r, r ∈ reader →
       core_sort_key transform column (processed_data reader)
         (processed_row r)
       = main_sort_key transform column reader r.
Proof.
  intros Ht%sort_orders_cases Hkind r Hr.
  unfold core_sort_key, main_sort_key, processed_data.
  destruct Hkind as [Hnum|Htext].
  - assert (∀ r', r' ∈ reader →
              ∃ x, Core.primary_key transform column (processed_row r')
                   = transform (Num x)
                   ∧ Main.primary_key transform column r'
                     = Ok (transform (Num x))) as Hkeys.
    { intros r' (s & x & Hs & Hx)%Hnum. exists x.
      unfold Core.primary_key, Main.primary_key, getitem, float_of.
      rewrite processed_lookup, Hs. simpl. unfold processed_cell.
      by rewrite Hx. }
    rewrite mixed_all_num.
    2:{ intros r' (r'' & -> & (x & -> & _)%Hkeys)%list_elem_of_fmap.
        by rewrite transform_is_num. }
    destruct (comprehension_all_Ok (Main.primary_key transform column) reader)
      as [keys ->].
    { intros r' (x & _ & Hx)%Hkeys. eauto. }
    destruct (Hkeys r Hr) as (x & -> & Hx). unfold key_of. by rewrite Hx.
  - assert (∀ r', r' ∈ reader →
              ∃ s, Core.primary_key transform column (processed_row r')
                   = transform (Str s)
                   ∧ Main.primary_key transform column r'
                     = Raise (ValueError FloatConversion)
                   ∧ Main.fallback_key transform column r'
                     = Ok (transform (Str s))) as Hkeys.
    { intros r' (s & Hs & Hx & Hstrip)%Htext. exists s.
      unfold Core.primary_key, Main.primary_key, Main.fallback_key, getitem,
        float_of.
      rewrite processed_lookup, Hs. simpl. unfold processed_cell.
      by rewrite Hx, processed_text, Hstrip. }
    rewrite mixed_all_str.
    2:{ intros r' (r'' & -> & (s & -> & _)%Hkeys)%list_elem_of_fmap.
        by rewrite transform_is_num. }
    destruct (comprehension (Main.primary_key transform column) reader)
      as [keys|e] eqn:Hc.
    { destruct (comprehension_Ok_elem _ _ _ _ Hc Hr) as [k Hk].
      destruct (Hkeys r Hr) as (s & _ & Hraise & _). congruence. }
    destruct (Hkeys r Hr) as (s & -> & _ & Hs). unfold key_of. by rewrite Hs.
Qed.

(** X17. For a direction [asc] or [desc] and a column of the reader whose
    cells are all numbers, or all text without whitespace around it, core.py
    sorts the typed rows into the typed images of what main.py returns;
    for a spec without [=] both raise the malformed-spec [ValueError], whose
    text is the same in both files. *)
Theorem read_order_by_agrees reader condition :
  (∀ column order,
     split_spec condition = Ok (column, order) →
     (order = "asc" ∨ order = "desc") ∧
     (numeric_column column reader ∨ text_column column reader)) →
  Core.apply_order_by (processed_data reader) condition
  = processed_data <$> Main.apply_order_by reader condition.
Proof.
  intros Hkind.
  destruct (split_spec condition) as [[column order]|e] eqn:Hsp.
  2:{ unfold Core.apply_order_by, Main.apply_order_by. rewrite Hsp. done. }
  destruct (Hkind column order eq_refl) as [Horder Hcolumn].
  assert (∃ transform, Core.SORT_ORDERS !! order = Some transform)
    as [transform Ht].
  { destruct Horder as [->| ->]; eauto. }
  rewrite (core_apply_order_by_eq _ _ _ _ _ Hsp Ht).
  rewrite (main_apply_order_by_eq _ _ _ _ _ Hsp Ht).
  2:{ intros r Hr. destruct Hcolumn as [Hk|Hk];
        [destruct (Hk r Hr) as (s & ? & -> & _)
        |destruct (Hk r Hr) as (s & -> & _)]; eauto. }
  unfold processed_data at 2. rewrite py_sorted_fmap.
  f_equal. apply py_sorted_ext. by eapply read_sort_key.
Qed.

End reader_facts.

(** ** The command-line bodies *)

Section command_line_facts.
Context `{Builtins}.

Lemma core_filter_sublist (data out : list Core.row) condition :
  Core.apply_filter data condition = Ok out → sublist out data.
Proof.
  destruct (parse_condition condition) as [[[column operator] value]|e]
    eqn:Hp.
  - rewrite (core_apply_filter_eq _ _ _ _ _ Hp). intros [= <-].
    apply sublist_filter.
  - unfold Core.apply_filter. by rewrite Hp.
Qed.

Lemma main_filter_sublist (data out : list Main.row) condition :
  Main.apply_filter data condition = Ok out → sublist out data.
Proof.
  destruct (parse_condition condition) as [[[column operator] value]|e]
    eqn:Hp.
  - intros [_ ->]%(main_apply_filter_Ok _ _ _ _ _ _ Hp).
    apply sublist_filter.
  - unfold Main.apply_filter. by rewrite Hp.
Qed.

Lemma core_order_by_perm (data out : list Core.row) condition :
  Core.apply_order_by data condition = Ok out → out ≡ₚ data.
Proof.
  unfold Core.apply_order_by.
  destruct (split_spec condition) as [[column order]|e]; simpl; [|done].
  destruct (Core.SORT_ORDERS !! order) as [transform|]; [|done].
  destruct (py_sorted py_lt (λ r, Ok (Core.primary_key transform column r))
              data) as [out'|e] eqn:Hs.
  - intros [= <-]. by eapply py_sorted_perm.
  - destruct e; try done. apply py_sorted_perm.
Qed.

Lemma main_order_by_perm (data out : list Main.row) condition :
  Main.apply_order_by data condition = Ok out → out ≡ₚ data.
Proof.
  unfold Main.apply_order_by.
  destruct (split_spec condition) as [[column order]|e]; simpl; [|done].
  destruct (Main.SORT_ORDERS !! order) as [transform|]; [|done].
  destruct (py_sorted py_lt (Main.primary_key transform column) data)
    as [out'|e] eqn:Hs.
  - intros [= <-]. by eapply py_sorted_perm.
  - destruct e; try done. apply py_sorted_perm.
Qed.

(** X18. Without [--aggregate], what [cli] of core.py and [main] of main.py
    print is made of rows of the file: each row of the file at most as
    often as the file has it, and every row of the file once no filter is
    given. An option given as the empty string counts as not given. *)
Theorem cli_rows (where_ order_by : option string) :
  (∀ (data : list Core.row) p,
     core_cli where_ None order_by data = Ok p →
     ∃ out, p = Rows out ∧ out ⊆+ data ∧
            (where_ = None ∨ where_ = Some "" → out ≡ₚ data)) ∧
  (∀ (data : list Main.row) p,
     main_cli where_ None order_by data = Ok p →
     ∃ out, p = Rows out ∧ out ⊆+ data ∧
            (where_ = None ∨ where_ = Some "" → out ≡ₚ data)).
Proof.
  split; intros data p; unfold core_cli, main_cli; simpl.
  - destruct (match given where_ with
              | Some condition => Core.apply_filter data condition
              | None => Ok data
              end) as [filtered|e] eqn:Hw; simpl; [|done].
    destruct (match given order_by with
              | Some condition => Core.apply_order_by filtered condition
              | None => Ok filtered
              end) as [out|e] eqn:Ho; simpl; [|done].
    intros [= <-]. exists out. split; [done|].
    assert (out ≡ₚ filtered) as Hperm.
    { destruct (given order_by); [by eapply core_order_by_perm|].
      by injection Ho as <-. }
    rewrite Hperm. split.
    + destruct (given where_);
        [by eapply sublist_submseteq, core_filter_sublist|].
      by injection Hw as <-.
    + intros [->| ->]; simpl in Hw; by injection Hw as <-.
  - destruct (match given where_ with
              | Some condition => Main.apply_filter data condition
              | None => Ok data
              end) as [filtered|e] eqn:Hw; simpl; [|done].
    destruct (match given order_by with
              | Some condition => Main.apply_order_by filtered condition
              | None => Ok filtered
              end) as [out|e] eqn:Ho; simpl; [|done].
    intros [= <-]. exists out. split; [done|].
    assert (out ≡ₚ filtered) as Hperm.
    { destruct (given order_by); [by eapply main_order_by_perm|].
      by injection Ho as <-. }
    rewrite Hperm. split.
    + destruct (given where_);
        [by eapply sublist_submseteq, main_filter_sublist|].
      by injection Hw as <-.
    + intros [->| ->]; simpl in Hw; by injection Hw as <-.
Qed.

Lemma core_aggregation_record (data : list Core.row) condition result :
  Core.apply_aggregation data condition = Ok result →
  ∃ column operation value,
    split_spec condition = Ok (column, operation) ∧
    operation ∈ core_operations ∧
    result = [AggRecord operation column value].
Proof.
  unfold Core.apply_aggregation.
  destruct (split_spec condition) as [[column operation]|e]; simpl; [|done].
  destruct (Core.AGGREGATIONS !! operation) as [aggregate|] eqn:Hagg;
    [|done].
  assert (operation ∈ core_operations) as Hop.
  { destruct (decide (operation ∈ core_operations)) as [|Hn]; [done|].
    apply core_aggregations_None in Hn. congruence. }
  destruct (comprehension _ _) as [values|e]; [|done].
  destruct values as [|x values].
  - intros [= <-]. eauto 6.
  - destruct (aggregate (x :: values)) as [value|e]; simpl; [|done].
    intros [= <-]. eauto 6.
Qed.

Lemma main_aggregation_record (data : list Main.row) condition result :
  Main.apply_aggregation data condition = Ok result →
  ∃ column operation value,
    split_spec condition = Ok (column, operation) ∧
    operation ∈ main_operations ∧
    result = [AggRecord operation column value].
Proof.
  unfold Main.apply_aggregation.
  destruct (split_spec condition) as [[column operation]|e]; simpl; [|done].
  destruct (Main.AGGREGATIONS !! operation) as [aggregate|] eqn:Hagg;
    [|done].
  assert (operation ∈ main_operations) as Hop.
  { destruct (decide (operation ∈ main_operations)) as [|Hn]; [done|].
    apply main_aggregations_None in Hn. congruence. }
  destruct (comprehension _ _) as [values|[]]; try done.
  destruct (aggregate values) as [value|e]; simpl; [|done].
  intros [= <-]. eauto 6.
Qed.

(** X19. With [--aggregate], what [cli] and [main] print is one record: it
    names the column and the operation of the spec, both stripped, and the
    operation is one of the table of that file. *)
Theorem cli_records (where_ order_by : option string) condition :
  String.eqb condition "" = false →
  (∀ (data : list Core.row) p,
     core_cli where_ (Some condition) order_by data = Ok p →
     ∃ column operation value,
       split_spec condition = Ok (column, operation) ∧
       operation ∈ core_operations ∧
       p = Records [AggRecord operation column value]) ∧
  (∀ (data : list Main.row) p,
     main_cli where_ (Some condition) order_by data = Ok p →
     ∃ column operation value,
       split_spec condition = Ok (column, operation) ∧
       operation ∈ main_operations ∧
       p = Records [AggRecord operation column value]).
Proof.
  intros Hgiven.
  split; intros data p; unfold core_cli, main_cli; simpl; rewrite Hgiven.
  - destruct (match given where_ with
              | Some c => Core.apply_filter data c
              | None => Ok data
              end) as [filtered|e]; simpl; [|done].
    destruct (match given order_by with
              | Some c => Core.apply_order_by filtered c
              | None => Ok filtered
              end) as [out|e]; simpl; [|done].
    destruct (Core.apply_aggregation out condition) as [result|e] eqn:Hagg;
      simpl; [|done].
    intros [= <-].
    destruct (core_aggregation_record _ _ _ Hagg)
      as (column & operation & value & Hsp & Hop & ->).
    eauto 6.
  - destruct (match given where_ with
              | Some c => Main.apply_filter data c
              | None => Ok data
              end) as [filtered|e]; simpl; [|done].
    destruct (match given order_by with
              | Some c => Main.apply_order_by filtered c
              | None => Ok filtered
              end) as [out|e]; simpl; [|done].
    destruct (Main.apply_aggregation out condition) as [result|e] eqn:Hagg;
      simpl; [|done].
    intros [= <-].
    destruct (main_aggregation_record _ _ _ Hagg)
      as (column & operation & value & Hsp & Hop & ->).
    eauto 6.
Qed.

End command_line_facts.

(** ** Writing a condition and parsing it back *)

Section round_trip.
Implicit Types (column op value condition left right : string).

Lemma lstrip_pad a t : all_space a = true → lstrip (a +:+ t) = lstrip t.
Proof.
  induction a as [|c a IH]; simpl; [done|].
  intros [-> Ha]%andb_true_iff. by apply IH.
Qed.

Lemma lstrip_fixed t : starts_space t = false → lstrip t = t.
Proof. destruct t as [|c t]; simpl; [done|]. by intros ->. Qed.

Lemma lstrip_all_space a : all_space a = true → lstrip a = "".
Proof.
  intros Ha. rewrite <-(string_app_nil_r a). by rewrite lstrip_pad.
Qed.

Lemma rstrip_pad t b :
  all_space b = true → starts_space (String.rev t) = false →
  rstrip (t +:+ b) = t.
Proof.
  intros Hb Ht. unfold rstrip.
  rewrite string_rev_app, lstrip_pad by (by rewrite all_space_rev).
  by rewrite lstrip_fixed, string_rev_involutive.
Qed.

(** Stripping removes the padding of a trimmed text, and nothing else. *)
Lemma strip_pad a t b :
  all_space a = true → all_space b = true → trimmed t = true →
  strip (a +:+ t +:+ b) = t.
Proof.
  intros Ha Hb [Hhd Htl]%andb_true_iff.
  apply negb_true_iff in Hhd, Htl.
  unfold strip. rewrite lstrip_pad by done.
  destruct t as [|c t].
  - simpl. by rewrite lstrip_all_space.
  - rewrite lstrip_fixed by done. by apply rstrip_pad.
Qed.

Lemma has_char_app c s t : has_char c (s +:+ t) = has_char c s || has_char c t.
Proof.
  induction s as [|d s IH]; simpl; [done|]. by rewrite IH, orb_assoc.
Qed.

Lemma absent_char c sub s :
  has_char c sub = true → has_char c s = false → ¬ occurs sub s.
Proof.
  intros Hsub Hs (l & r & ->). rewrite !has_char_app, Hsub in Hs.
  by rewrite orb_true_r in Hs.
Qed.

Lemma space_not_char c a :
  isspace c = false → all_space a = true → has_char c a = false.
Proof.
  intros Hc. induction a as [|d a IH]; simpl; [done|].
  intros [Hd Ha]%andb_true_iff. rewrite (IH Ha), orb_false_r.
  destruct (Ascii.eqb_spec c d) as [->|]; [congruence|done].
Qed.

(** A separator whose first character is not in [left] is not found before
    the end of [left]. *)
Lemma no_early_cut left c sep right l' r' :
  has_char c left = false →
  left +:+ String c sep +:+ right = l' +:+ String c sep +:+ r' →
  (String.length left ≤ String.length l')%nat.
Proof.
  revert l'. induction left as [|d left IH]; intros l'; simpl; [lia|].
  intros [Hd Hleft]%orb_false_iff Heq. destruct l' as [|d' l'].
  - simpl in Heq. injection Heq as -> _. by rewrite Ascii.eqb_refl in Hd.
  - simpl in Heq. injection Heq as _ Heq. specialize (IH l' Hleft Heq).
    simpl. lia.
Qed.

Lemma operator_free_chars s :
  operator_free s = true →
  has_char "=" s = false ∧ has_char ">" s = false ∧ has_char "<" s = false.
Proof.
  unfold operator_free. rewrite !andb_true_iff, !negb_true_iff. tauto.
Qed.

Lemma operator_free_pad a t b :
  all_space a = true → all_space b = true → operator_free t = true →
  operator_free (a +:+ t +:+ b) = true.
Proof.
  intros Ha Hb (H1 & H2 & H3)%operator_free_chars.
  unfold operator_free.
  by rewrite !has_char_app, H1, H2, H3, !(space_not_char _ a),
    !(space_not_char _ b).
Qed.

Lemma parse_condition_cut left op right :
  op ∈ operators →
  operator_free left = true → operator_free right = true →
  parse_condition (left +:+ op +:+ right) = Ok (strip left, op, strip right).
Proof.
  intros Hop (Hl1 & Hl2 & Hl3)%operator_free_chars
    (Hr1 & Hr2 & Hr3)%operator_free_chars.
  assert (∀ c sub, has_char c sub = true →
                   has_char c left = false → has_char c op = false →
                   has_char c right = false →
                   ¬ occurs sub (left +:+ op +:+ right)) as Habsent.
  { intros c sub Hsub Hl Ho Hr. apply (absent_char c); [done|].
    by rewrite !has_char_app, Hl, Ho, Hr. }
  unfold parse_condition. apply parse_condition_from_Ok.
  destruct (operators_cases _ Hop) as [->|[->|[->|[->| ->]]]].
  - exists 0%nat, left, right. split; [done|]. split; [intros; lia|].
    split; [|done]. apply split_once_leftmost. intros l' r'.
    by apply no_early_cut.
  - exists 1%nat, left, right. split; [done|]. split.
    { intros [|j] op' Hj; [intros [= <-]|lia]. by apply (Habsent ">"%char). }
    split; [|done]. apply split_once_leftmost. intros l' r'.
    by apply no_early_cut.
  - exists 2%nat, left, right. split; [done|]. split.
    { intros [|[|j]] op' Hj; [intros [= <-]..|lia];
        [by apply (Habsent ">"%char)|by apply (Habsent "<"%char)]. }
    split; [|done]. apply split_once_leftmost. intros l' r'.
    by apply no_early_cut.
  - exists 3%nat, left, right. split; [done|]. split.
    { intros [|[|[|j]]] op' Hj; [intros [= <-]..|lia];
        by apply (Habsent "="%char). }
    split; [|done]. apply split_once_leftmost. intros l' r'.
    by apply no_early_cut.
  - exists 4%nat, left, right. split; [done|]. split.
    { intros [|[|[|[|j]]]] op' Hj; [intros [= <-]..|lia];
        [by apply (Habsent "="%char)..|by apply (Habsent ">"%char)]. }
    split; [|done]. apply split_once_leftmost. intros l' r'.
    by apply no_early_cut.
Qed.

(** X20. A condition written as a column, one of the five operators and an
    operand, with any whitespace around the column and around the operand,
    parses back into the three, when column and operand are trimmed and hold
    none of [=], [>], [<]. *)
Theorem parse_condition_round_trip column op value a b c d :
  op ∈ operators →
  operator_free column = true → operator_free value = true →
  trimmed column = true → trimmed value = true →
  all_space a = true → all_space b = true →
  all_space c = true → all_space d = true →
  parse_condition
    ((a +:+ column +:+ b) +:+ op +:+ (c +:+ value +:+ d))
  = Ok (column, op, value).
Proof.
  intros Hop Hcol Hval Htc Htv Ha Hb Hc Hd.
  rewrite parse_condition_cut; [|done|by apply operator_free_pad..].
  by rewrite !strip_pad.
Qed.

(** X21. A spec written as a column, [=] and a word, with any whitespace
    around the two, splits back into the two, when both are trimmed and the
    column holds no [=]; the word may hold one. *)
Theorem split_spec_round_trip column rest a b c d :
  has_char "=" column = false →
  trimmed column = true → trimmed rest = true →
  all_space a = true → all_space b = true →
  all_space c = true → all_space d = true →
  split_spec ((a +:+ column +:+ b) +:+ "=" +:+ (c +:+ rest +:+ d))
  = Ok (column, rest).
Proof.
  intros Hcol Htc Htr Ha Hb Hc Hd.
  assert (split_once "=" ((a +:+ column +:+ b) +:+ "=" +:+ (c +:+ rest +:+ d))
          = Some (a +:+ column +:+ b, c +:+ rest +:+ d)) as Hcut.
  { apply split_once_leftmost. intros l' r'. apply no_early_cut.
    by rewrite !has_char_app, Hcol, !(space_not_char "="%char) by done. }
  apply split_spec_Ok. eexists _, _. split; [exact Hcut|].
  by rewrite !strip_pad.
Qed.

End round_trip.

(** ** The further properties on the sample data *)

Section further_examples.
#[local] Existing Instance literals.

Lemma main_order_by_missing_column_witness :
  split_spec "age=asc" = Ok ("age", "asc") ∧
  Main.SORT_ORDERS !! "asc" = Some order_asc ∧
  main_name "Eve" !! "age" = None ∧
  Main.apply_order_by (main_people ++ [main_name "Eve"]) "age=asc"
  = Raise (KeyError "age").
Proof.
  split; [reflexivity|]. split; [reflexivity|]. split; [reflexivity|].
  apply (proj1 (main_order_by_missing_column
                  (main_people ++ [main_name "Eve"]) "age=asc" "age" "asc"
                  order_asc eq_refl eq_refl)).
  exists (main_name "Eve"). split; [|reflexivity].
  do 3 apply list_elem_of_further. apply list_elem_of_here.
Defined.

Lemma main_filter_errors_witness :
  parse_condition "age>25" = Ok ("age", ">", "25") ∧
  main_name "Eve" !! "age" = None ∧
  ∃ e, Main.apply_filter (main_people ++ [main_name "Eve"]) "age>25"
       = Raise e.
Proof.
  split; [reflexivity|]. split; [reflexivity|].
  apply (proj1 (proj2 (main_filter_errors "age>25" "age" ">" "25"
                         (main_people ++ [main_name "Eve"]) eq_refl))).
  exists (main_name "Eve"). split; [|reflexivity].
  do 3 apply list_elem_of_further. apply list_elem_of_here.
Defined.

Lemma core_filter_ignores_missing_witness :
  parse_condition "age>25" = Ok ("age", ">", "25") ∧
  ∃ out,
    Core.apply_filter (core_people ++ [core_name "Eve"]) "age>25" = Ok out ∧
    (∀ r, r ∈ out → is_Some (r !! "age")) ∧
    Core.apply_filter
      (filter (λ r, is_Some (r !! "age")) (core_people ++ [core_name "Eve"]))
      "age>25" = Ok out.
Proof.
  split; [reflexivity|].
  exact (core_filter_ignores_missing "age>25" "age" ">" "25"
           (core_people ++ [core_name "Eve"]) eq_refl).
Defined.

Lemma core_filter_commute_witness :
  parse_condition "age>25" = Ok ("age", ">", "25") ∧
  parse_condition "salary 6000" = Raise (ValueError MalformedCondition) ∧
  (out ← Core.apply_filter core_people "age>25";
   Core.apply_filter out "salary 6000")
  = (out ← Core.apply_filter core_people "salary 6000";
     Core.apply_filter out "age>25").
Proof.
  split; [reflexivity|]. split; [reflexivity|].
  apply (core_filter_commute "age>25" "salary 6000" core_people).
  left. eexists. reflexivity.
Defined.

Lemma median_between_min_and_max_witness :
  ∃ lo m hi,
    agg_min four_salaries = Ok (VFloat lo) ∧
    agg_median four_salaries = Ok (VFloat m) ∧
    agg_max four_salaries = Ok (VFloat hi) ∧
    m ∈ four_salaries ∧ PrimFloat.leb lo m = true ∧ PrimFloat.leb m hi = true.
Proof.
  apply (median_between_min_and_max four_salaries).
  - discriminate.
  - repeat constructor.
Defined.

Lemma core_count_rows_witness :
  split_spec "age=count" = Ok ("age", "count") ∧
  Core.apply_aggregation (core_people ++ [core_name "Eve"]) "age=count"
  = Ok [AggRecord "count" "age"
          match length (filter (λ r : Core.row, is_Some (r !! "age"))
                          (core_people ++ [core_name "Eve"])) with
          | O => VNone
          | S n => VInt (Z.of_nat (S n))
          end].
Proof.
  split; [reflexivity|].
  apply (core_count_rows (core_people ++ [core_name "Eve"]) "age=count" "age"
           eq_refl).
  intros r cell Hr. unfold core_people in Hr. simpl in Hr.
  repeat (apply elem_of_cons in Hr as [->|Hr]);
    [..|by apply elem_of_nil in Hr];
    intros Hcell; vm_compute in Hcell; try discriminate;
    injection Hcell as <-; eexists; reflexivity.
Defined.

Lemma numeric_desc_descends_witness :
  split_spec "age=desc" = Ok ("age", "desc") ∧
  ∃ out, Core.apply_order_by core_people "age=desc" = Ok out ∧
         out ≡ₚ core_people ∧
         StronglySorted (λ r1 r2,
             py_le (default (Num 0) (r2 !! "age"))
                   (default (Num 0) (r1 !! "age")) = true) out.
Proof.
  split; [reflexivity|].
  apply (proj1 (numeric_desc_descends "age=desc" "age" eq_refl) core_people).
  intros r Hr. unfold core_people in Hr.
  repeat (apply elem_of_cons in Hr as [->|Hr]);
    [..|by apply elem_of_nil in Hr];
    eexists; split; reflexivity.
Defined.

Lemma core_order_by_idempotent_witness :
  split_spec "age=desc" = Ok ("age", "desc") ∧
  Core.SORT_ORDERS !! "desc" = Some order_desc ∧
  (out ← Core.apply_order_by core_people "age=desc";
   Core.apply_order_by out "age=desc")
  = Core.apply_order_by core_people "age=desc".
Proof.
  split; [reflexivity|]. split; [reflexivity|].
  apply (core_order_by_idempotent core_people "age=desc" "age" "desc"
           order_desc eq_refl eq_refl).
  intros r Hr. unfold core_people in Hr.
  repeat (apply elem_of_cons in Hr as [->|Hr]); try reflexivity.
  by apply elem_of_nil in Hr.
Defined.

Lemma read_filter_agrees_witness :
  parse_condition "age>25" = Ok ("age", ">", "25") ∧
  Main.apply_filter main_people "age>25"
  = Ok [main_person "Alice" "30" "5000"; main_person "Charlie" "35" "6000"] ∧
  Core.apply_filter (processed_data main_people) "age>25"
  = Ok (processed_data [main_person "Alice" "30" "5000";
                        main_person "Charlie" "35" "6000"]).
Proof.
  split; [reflexivity|]. split; [reflexivity|].
  apply (read_filter_agrees main_people "age>25" "age" ">" "25" _ eq_refl);
    [|reflexivity].
  intros row s Hrow. unfold main_people in Hrow.
  repeat (apply elem_of_cons in Hrow as [->|Hrow]);
    [..|by apply elem_of_nil in Hrow];
    intros Hcell; vm_compute in Hcell; injection Hcell as <-;
    eexists; reflexivity.
Defined.

Lemma read_aggregation_agrees_witness :
  split_spec "salary=avg" = Ok ("salary", "avg") ∧
  "avg" ∈ main_operations ∧
  Core.apply_aggregation (processed_data main_people) "salary=avg"
  = Main.apply_aggregation main_people "salary=avg".
Proof.
  split; [reflexivity|]. split; [apply list_elem_of_here|].
  apply (read_aggregation_agrees main_people "salary=avg" "salary" "avg"
           eq_refl).
  - apply list_elem_of_here.
  - discriminate.
  - intros row Hrow. unfold main_people in Hrow.
    repeat (apply elem_of_cons in Hrow as [->|Hrow]);
      [..|by apply elem_of_nil in Hrow];
      eexists; (split; [reflexivity|]);
      intros Hs; vm_compute in Hs; discriminate.
Defined.

Lemma read_order_by_agrees_witness :
  split_spec "name=desc" = Ok ("name", "desc") ∧
  Core.apply_order_by (processed_data main_people) "name=desc"
  = processed_data <$> Main.apply_order_by main_people "name=desc".
Proof.
  split; [reflexivity|].
  apply (read_order_by_agrees main_people "name=desc").
  intros column order Hsp. vm_compute in Hsp. injection Hsp as <- <-.
  split; [by right|].
  right. intros row Hrow. unfold main_people in Hrow.
  repeat (apply elem_of_cons in Hrow as [->|Hrow]);
    [..|by apply elem_of_nil in Hrow];
    eexists; repeat split; reflexivity.
Defined.

Lemma cli_records_witness :
  String.eqb "salary=avg" "" = false ∧
  core_cli (Some "age>25") (Some "salary=avg") None core_people
  = Ok (Records [AggRecord "avg" "salary" (VFloat 5500)]) ∧
  ∃ column operation value,
    split_spec "salary=avg" = Ok (column, operation) ∧
    operation ∈ core_operations ∧
    Records (R:=Core.row) [AggRecord "avg" "salary" (VFloat 5500)]
    = Records [AggRecord operation column value].
Proof.
  split; [reflexivity|]. split; [reflexivity|].
  exact (proj1 (cli_records (Some "age>25") None "salary=avg" eq_refl)
           core_people _ eq_refl).
Defined.

Lemma parse_condition_round_trip_witness :
  ">=" ∈ operators ∧
  parse_condition ((" " +:+ "age" +:+ " ") +:+ ">=" +:+ (" " +:+ "25" +:+ ""))
  = Ok ("age", ">=", "25").
Proof.
  split; [apply list_elem_of_here|].
  apply (parse_condition_round_trip "age" ">=" "25" " " " " " " "");
    (apply list_elem_of_here || reflexivity).
Defined.

Lemma split_spec_round_trip_witness :
  has_char "=" "salary" = false ∧
  split_spec (("" +:+ "salary" +:+ " ") +:+ "=" +:+ (" " +:+ "avg" +:+ ""))
  = Ok ("salary", "avg").
Proof.
  split; [reflexivity|].
  apply (split_spec_round_trip "salary" "avg" "" " " " " ""); reflexivity.
Defined.

End further_examples.
